(** * A boundary-tag allocator with an explicit free list: model of [mm.c]

    The heap is one contiguous region handed out by [mem_sbrk].  Every block
    carries an 8-byte header and an 8-byte footer holding [size | allocated];
    free blocks store two list pointers ([next], [prev]) at the start of their
    payload and are chained from the global [first].

    The model is a shallow embedding: machine words are integers reduced
    modulo [2^64], memory is a map from byte addresses to bytes, every access
    outside the current heap is a fault, and each C function becomes a function
    on an explicit allocator state in the [option] monad ([None] = the call
    faults or never returns). *)

From Stdlib Require Import ZArith List Lia Bool.
Import ListNotations.
Open Scope Z_scope.

(** ** Machine words *)

Definition W : Z := 18446744073709551616.

(** [size_t] and pointer arithmetic wrap modulo [2^64]. *)
Definition wrap (z : Z) : Z := z mod W.

(** Pointer displaced by a byte offset. *)
Definition padd (p k : Z) : Z := wrap (p + k).

Definition NULL : Z := 0.

(** [(void* )-1], the failure value of [mem_sbrk]. *)
Definition SBRK_FAIL : Z := wrap (-1).

Definition ALIGNMENT : Z := 16.
Definition CHUNKSIZE : Z := Z.shiftl 1 12.

(** [sizeof(blk)]: one [size_t]. *)
Definition BLK : Z := 8.

(** ** Allocator state

    [mem] holds one byte per address; [heap_lo], [heap_brk] and [heap_max]
    are the bookkeeping of the heap-growth primitive; [first] is the global
    root of the free list. *)

Record state : Type := mkState {
  mem : Z -> Z;
  heap_lo : Z;
  heap_brk : Z;
  heap_max : Z;
  first : Z
}.

Definition set_mem (s : state) (m : Z -> Z) : state :=
  mkState m (heap_lo s) (heap_brk s) (heap_max s) (first s).

Definition set_first (s : state) (f : Z) : state :=
  mkState (mem s) (heap_lo s) (heap_brk s) (heap_max s) f.

Definition set_brk (s : state) (b : Z) : state :=
  mkState (mem s) (heap_lo s) b (heap_max s) (first s).

(** ** The error monad *)

Definition bind {A B : Type} (c : option A) (k : A -> option B) : option B :=
  match c with
  | Some a => k a
  | None => None
  end.

Notation "x <- c ;; k" := (bind c (fun x => k))
  (at level 61, c at next level, right associativity).
Notation "' pat <- c ;; k" := (bind c (fun x => match x with pat => k end))
  (at level 61, pat pattern, c at next level, right associativity).

(** ** Byte-addressed memory with little-endian words *)

Definition upd (m : Z -> Z) (a v : Z) : Z -> Z :=
  fun x => if x =? a then v else m x.

Fixpoint load_le (m : Z -> Z) (a : Z) (n : nat) : Z :=
  match n with
  | O => 0
  | S k => m a mod 256 + 256 * load_le m (a + 1) k
  end.

Fixpoint store_le (m : Z -> Z) (a : Z) (n : nat) (v : Z) : Z -> Z :=
  match n with
  | O => m
  | S k => store_le (upd m a (v mod 256)) (a + 1) k (v / 256)
  end.

(** The 8-byte word at address [a]. *)
Definition ldw (m : Z -> Z) (a : Z) : Z := load_le m a 8.
Definition stw (m : Z -> Z) (a v : Z) : Z -> Z := store_le m a 8 v.

(** [n] bytes starting at [a] lie inside the current heap. *)
Definition in_heap (s : state) (a n : Z) : bool :=
  (heap_lo s <=? a) && (a + n <=? heap_brk s).

Definition load (s : state) (a : Z) : option Z :=
  if in_heap s a 8 then Some (ldw (mem s) a) else None.

Definition store (s : state) (a v : Z) : option state :=
  if in_heap s a 8 then Some (set_mem s (stw (mem s) a v)) else None.

Definition byte_at (s : state) (a : Z) : Z := mem s a mod 256.

(** ** Collaborators outside [mm.c] *)

(** Modelled from the spec: [mem_sbrk] of memlib, the heap-growth primitive,
    which is not part of the source file.  "byte_count is added monotonically
    to heap size; returns the address immediately following the previous heap
    end, or a distinguished failure value if growth is impossible".  Growth is
    impossible when it would pass [heap_max]. *)
Definition mem_sbrk (s : state) (incr : Z) : Z * state :=
  if heap_brk s + incr <=? heap_max s
  then (heap_brk s, set_brk s (heap_brk s + incr))
  else (SBRK_FAIL, s).

(** Modelled from the spec: [mem_memcpy] of memlib (the driver's alias of
    [memcpy]): copies [n] bytes; both ranges have to lie in the heap. *)
Definition mem_memcpy (s : state) (dst src n : Z) : option state :=
  if in_heap s dst n && in_heap s src n
  then Some (set_mem s (fun x =>
               if (dst <=? x) && (x <? dst + n)
               then mem s (src + (x - dst)) else mem s x))
  else None.

(** Modelled from the spec: [mem_memset] of memlib (the driver's alias of
    [memset]): fills [n] bytes with the byte [c]. *)
Definition mem_memset (s : state) (dst c n : Z) : option state :=
  if in_heap s dst n
  then Some (set_mem s (fun x =>
               if (dst <=? x) && (x <? dst + n) then c mod 256 else mem s x))
  else None.

(** ** The code of [mm.c] *)

(** [align]: rounds up to the nearest multiple of [ALIGNMENT]. *)
Definition align (x : Z) : Z :=
  wrap (ALIGNMENT * (wrap (wrap (x + ALIGNMENT) - 1) / ALIGNMENT)).

(** [lsb_a]: packs the allocated bit into the size word. *)
Definition lsb_a (size a : Z) : Z := Z.lor size a.

(** [get_size]: the header or footer word with its last bit masked out
    ([~0x1] as a [size_t]). *)
Definition get_size (s : state) (bptr : Z) : option Z :=
  w <- load s bptr ;; Some (Z.land w (W - 2)).

Definition write_value (s : state) (bptr val : Z) : option state :=
  store s bptr val.

(** [get_allocated]: a null block counts as allocated. *)
Definition get_allocated (s : state) (bptr : Z) : option bool :=
  if bptr =? NULL then Some true
  else w <- load s bptr ;; Some (negb (Z.land w 1 =? 0)).

Definition next_blk (s : state) (bptr : Z) : option Z :=
  sz <- get_size s bptr ;; Some (padd bptr (sz + 2 * BLK)).

Definition prev_blk (s : state) (bptr : Z) : option Z :=
  let prevFooter := padd bptr (- BLK) in
  psz <- get_size s prevFooter ;; Some (padd bptr (- psz - 2 * BLK)).

(** A [node] lives right after the header: [next] at offset 0, [prev] at
    offset 8. *)
Definition node_of (bptr : Z) : Z := padd bptr BLK.
Definition next_field (n : Z) : Z := n.
Definition prev_field (n : Z) : Z := padd n 8.

Definition add_node (s : state) (bptr : Z) : option state :=
  let n := node_of bptr in
  s1 <- store s (next_field n) (first s) ;;
  s2 <- store s1 (prev_field n) NULL ;;
  s3 <- (if negb (first s2 =? NULL)
         then store s2 (prev_field (first s2)) n
         else Some s2) ;;
  Some (set_first s3 n).

Definition remove_node (s : state) (bptr : Z) : option state :=
  let curr := node_of bptr in
  prev_node <- load s (prev_field curr) ;;
  next_node <- load s (next_field curr) ;;
  if negb (prev_node =? NULL) && negb (next_node =? NULL) then
    cn <- load s (next_field curr) ;;
    s1 <- store s (next_field prev_node) cn ;;
    cp <- load s1 (prev_field curr) ;;
    store s1 (prev_field next_node) cp
  else if (prev_node =? NULL) && negb (next_node =? NULL) then
    s1 <- store s (prev_field next_node) NULL ;;
    cn <- load s1 (next_field curr) ;;
    Some (set_first s1 cn)
  else if negb (prev_node =? NULL) && (next_node =? NULL) then
    store s (next_field prev_node) NULL
  else if (prev_node =? NULL) && (prev_node =? NULL) then
    Some (set_first s NULL)
  else Some s.

(** The loop of [first_fit].  It only reads memory, so a walk that takes more
    steps than the heap has addresses has come back to a node it already
    visited and never ends: running out of [fuel] stands for that. *)
Fixpoint first_fit_loop (fuel : nat) (s : state) (start size : Z) : option Z :=
  match fuel with
  | O => None
  | S k =>
      if start =? NULL then Some NULL
      else
        let bptr := padd start (- BLK) in
        al <- get_allocated s bptr ;;
        fits <- (if negb al
                 then sz <- get_size s bptr ;; Some (size <=? sz)
                 else Some false) ;;
        if fits then Some bptr
        else nx <- load s (next_field start) ;; first_fit_loop k s nx size
  end.

Definition first_fit (s : state) (size : Z) : option Z :=
  first_fit_loop (S (Z.to_nat (heap_brk s - heap_lo s))) s (first s) size.

(** The first [if] / [else if] / [else] of [coalesce]: the pair
    [(prevBlock, nextBlock)], either of which may be [NULL]. *)
Definition neighbours (s : state) (blkptr : Z) : option (Z * Z) :=
  pf <- get_size s (padd blkptr (- BLK)) ;;
  if pf =? 0 then
    nb <- next_blk s blkptr ;; Some (NULL, nb)
  else
    sz0 <- get_size s blkptr ;;
    ft <- get_size s (padd blkptr (sz0 + BLK)) ;;
    if ft =? 0 then
      pb <- prev_blk s blkptr ;; Some (pb, NULL)
    else
      nb <- next_blk s blkptr ;;
      pb <- prev_blk s blkptr ;; Some (pb, nb).

Definition coalesce (s : state) (blkptr : Z) : option state :=
  '(prevBlock, nextBlock) <- neighbours s blkptr ;;
  size <- get_size s blkptr ;;
  prev <- get_allocated s prevBlock ;;
  next <- get_allocated s nextBlock ;;
  if prev && next then
    add_node s blkptr
  else if prev && negb next then
    nextSize <- get_size s nextBlock ;;
    let size := wrap (size + wrap (nextSize + 2 * BLK)) in
    s1 <- remove_node s nextBlock ;;
    s2 <- write_value s1 blkptr (lsb_a size 0) ;;
    s3 <- write_value s2 (padd blkptr (size + BLK)) (lsb_a size 0) ;;
    add_node s3 blkptr
  else if negb prev && next then
    prevSize <- get_size s prevBlock ;;
    let size := wrap (size + wrap (prevSize + 2 * BLK)) in
    s1 <- remove_node s prevBlock ;;
    s2 <- write_value s1 prevBlock (lsb_a size 0) ;;
    s3 <- write_value s2 (padd prevBlock (size + BLK)) (lsb_a size 0) ;;
    add_node s3 prevBlock
  else
    prevSize <- get_size s prevBlock ;;
    nextSize <- get_size s nextBlock ;;
    let size := wrap (size + wrap (wrap (prevSize + nextSize) + 4 * BLK)) in
    s1 <- remove_node s prevBlock ;;
    s2 <- remove_node s1 nextBlock ;;
    s3 <- write_value s2 prevBlock (lsb_a size 0) ;;
    s4 <- write_value s3 (padd prevBlock (size + BLK)) (lsb_a size 0) ;;
    add_node s4 prevBlock.

Definition split (s : state) (ptr size : Z) : option state :=
  oldSize <- get_size s ptr ;;
  let rest_size := wrap (wrap (oldSize - size) - 2 * BLK) in
  s1 <- write_value s ptr (lsb_a size 1) ;;
  s2 <- write_value s1 (padd ptr (size + BLK)) (lsb_a size 1) ;;
  s3 <- remove_node s2 ptr ;;
  let nextBlk := padd ptr (size + 2 * BLK) in
  s4 <- write_value s3 nextBlk (lsb_a rest_size 0) ;;
  s5 <- write_value s4 (padd nextBlk (rest_size + BLK)) (lsb_a rest_size 0) ;;
  al <- get_allocated s5 (padd nextBlk (rest_size + 2 * BLK)) ;;
  if negb al then coalesce s5 nextBlk else add_node s5 nextBlk.

Definition place (s : state) (bptr size : Z) : option state :=
  bsize <- get_size s bptr ;;
  let rest := wrap (bsize - size) in
  if 4 * BLK <=? rest then split s bptr size
  else
    s1 <- write_value s bptr (lsb_a bsize 1) ;;
    s2 <- write_value s1 (padd bptr (bsize + BLK)) (lsb_a bsize 1) ;;
    remove_node s2 bptr.

Definition expand_heap (s : state) (bytes : Z) : option (Z * state) :=
  let bytes := align bytes in
  let '(new_space, s0) := mem_sbrk s bytes in
  if negb (new_space =? SBRK_FAIL) then
    s1 <- write_value s0 (padd new_space (bytes - BLK)) (lsb_a 0 1) ;;
    s2 <- write_value s1 (padd new_space (bytes - 2 * BLK))
            (lsb_a (wrap (bytes - 2 * BLK)) 0) ;;
    s3 <- write_value s2 (padd new_space (- BLK))
            (lsb_a (wrap (bytes - 2 * BLK)) 0) ;;
    let new_space := padd new_space (- BLK) in
    prevBlk <- prev_blk s3 new_space ;;
    al <- get_allocated s3 prevBlk ;;
    if negb al then
      s4 <- coalesce s3 new_space ;; Some (prevBlk, s4)
    else
      s4 <- add_node s3 new_space ;; Some (new_space, s4)
  else Some (NULL, s0).

(** [mm_init]: returns [false] on error, [true] on success. *)
Definition mm_init (s : state) : option (bool * state) :=
  let '(start_heap, s0) := mem_sbrk s CHUNKSIZE in
  if start_heap =? SBRK_FAIL then Some (false, s0)
  else
    s1 <- write_value s0 start_heap (lsb_a 0 1) ;;
    s2 <- write_value s1 (padd start_heap 8)
            (lsb_a (wrap (CHUNKSIZE - 4 * BLK)) 0) ;;
    s3 <- write_value s2 (padd start_heap 4080)
            (lsb_a (wrap (CHUNKSIZE - 4 * BLK)) 0) ;;
    s4 <- write_value s3 (padd start_heap 4088) (lsb_a 0 1) ;;
    let s5 := set_first s4 (padd start_heap 16) in
    s6 <- store s5 (next_field (first s5)) NULL ;;
    s7 <- store s6 (prev_field (first s6)) NULL ;;
    Some (true, s7).

(** The amount by which [malloc] extends the heap if no block fits the
    (aligned) [size]. *)
Definition extendsize (size : Z) : Z :=
  if 4096 <? wrap (size + 2 * BLK) then wrap (size + 2 * BLK) else 4096.

Definition malloc (s : state) (size : Z) : option (Z * state) :=
  if size =? 0 then Some (NULL, s)
  else
    let size := align size in
    bptr <- first_fit s size ;;
    if negb (bptr =? NULL) then
      s1 <- place s bptr size ;; Some (padd bptr BLK, s1)
    else
      '(bptr, s1) <- expand_heap s (extendsize size) ;;
      if bptr =? NULL then Some (NULL, s1)
      else s2 <- place s1 bptr size ;; Some (padd bptr BLK, s2).

Definition free (s : state) (ptr : Z) : option state :=
  if ptr =? NULL then Some s
  else
    let ptr := padd ptr (- BLK) in
    al <- get_allocated s ptr ;;
    if negb al then Some s
    else
      sz <- get_size s ptr ;;
      s1 <- write_value s ptr (lsb_a sz 0) ;;
      sz1 <- get_size s1 ptr ;;
      sz2 <- get_size s1 ptr ;;
      s2 <- write_value s1 (padd ptr (sz1 + BLK)) (lsb_a sz2 0) ;;
      coalesce s2 ptr.

Definition needed_size (size : Z) : Z := wrap (align size + 2 * BLK).

Definition realloc (s : state) (oldptr size : Z) : option (Z * state) :=
  let oldptr_hdr := padd oldptr (- BLK) in
  oldptr_size <- get_size s oldptr_hdr ;;
  if oldptr =? NULL then malloc s size
  else if size =? 0 then
    s1 <- free s oldptr ;; Some (NULL, s1)
  else if needed_size size <=? oldptr_size then Some (oldptr, s)
  else
    '(mallocPtr, s1) <- malloc s size ;;
    s2 <- mem_memcpy s1 mallocPtr oldptr oldptr_size ;;
    s3 <- free s2 oldptr ;;
    Some (mallocPtr, s3).

Definition calloc (s : state) (nmemb size : Z) : option (Z * state) :=
  let size := wrap (size * nmemb) in
  '(ptr, s1) <- malloc s size ;;
  if negb (ptr =? NULL) then
    s2 <- mem_memset s1 ptr 0 size ;; Some (ptr, s2)
  else Some (ptr, s1).

(** [aligned]: whether the pointer is aligned. *)
Definition aligned (p : Z) : bool := align p =? p.

(** ** A concrete machine for running the code *)

Definition machine (lo max : Z) : state := mkState (fun _ => 0) lo lo max NULL.

(** ** Words and memory cells *)

Arguments wrap : simpl never.
Arguments padd : simpl never.

Lemma W_pos : 0 < W.
Proof. reflexivity. Qed.

Lemma wrap_small (z : Z) : 0 <= z < W -> wrap z = z.
Proof. intros H. unfold wrap. apply Z.mod_small. exact H. Qed.

Lemma wrap_range (z : Z) : 0 <= wrap z < W.
Proof. unfold wrap. apply Z.mod_pos_bound. exact W_pos. Qed.

Lemma padd_small (p k : Z) : 0 <= p + k < W -> padd p k = p + k.
Proof. intros H. unfold padd. apply wrap_small. exact H. Qed.

Lemma upd_same (m : Z -> Z) (a v : Z) : upd m a v a = v.
Proof. unfold upd. rewrite Z.eqb_refl. reflexivity. Qed.

Lemma upd_other (m : Z -> Z) (a v x : Z) : x <> a -> upd m a v x = m x.
Proof. intros H. unfold upd. apply Z.eqb_neq in H. rewrite H. reflexivity. Qed.

Lemma store_le_out (n : nat) : forall (m : Z -> Z) (a v x : Z),
  x < a \/ a + Z.of_nat n <= x -> store_le m a n v x = m x.
Proof.
  induction n as [|n IH]; intros m a v x H.
  - reflexivity.
  - cbn [store_le]. rewrite IH by lia. apply upd_other. lia.
Qed.

Lemma load_le_ext (n : nat) : forall (m m' : Z -> Z) (a : Z),
  (forall x, a <= x < a + Z.of_nat n -> m' x = m x) ->
  load_le m' a n = load_le m a n.
Proof.
  induction n as [|n IH]; intros m m' a H.
  - reflexivity.
  - cbn [load_le]. rewrite (H a) by lia.
    rewrite (IH m m' (a + 1)); [reflexivity|].
    intros x Hx. apply H. lia.
Qed.

Lemma load_store_le (n : nat) : forall (m : Z -> Z) (a v : Z),
  load_le (store_le m a n v) a n = v mod 256 ^ Z.of_nat n.
Proof.
  induction n as [|n IH]; intros m a v.
  - cbn [load_le]. rewrite Z.pow_0_r, Z.mod_1_r. reflexivity.
  - cbn [load_le store_le].
    rewrite store_le_out by lia. rewrite upd_same.
    rewrite IH.
    rewrite Z.mod_mod by lia.
    replace (Z.of_nat (S n)) with (1 + Z.of_nat n) by lia.
    rewrite Z.pow_add_r by lia. rewrite Z.pow_1_r.
    rewrite Z.rem_mul_r by lia. reflexivity.
Qed.

(** Two 8-byte cells that do not overlap. *)
Definition far (a b : Z) : Prop := a + 8 <= b \/ b + 8 <= a.

Lemma ldw_stw_same (m : Z -> Z) (a v : Z) : ldw (stw m a v) a = wrap v.
Proof. unfold ldw, stw, wrap. rewrite load_store_le. reflexivity. Qed.

Lemma ldw_stw_far (m : Z -> Z) (a v b : Z) :
  far a b -> ldw (stw m a v) b = ldw m b.
Proof.
  intros H. unfold ldw, stw. apply load_le_ext.
  intros x Hx. apply store_le_out. unfold far in H. lia.
Qed.

Lemma ldw_ext (m m' : Z -> Z) (a : Z) :
  (forall x, a <= x < a + 8 -> m' x = m x) -> ldw m' a = ldw m a.
Proof. intros H. unfold ldw. apply load_le_ext. exact H. Qed.

Lemma stw_out (m : Z -> Z) (a v x : Z) :
  x < a \/ a + 8 <= x -> stw m a v x = m x.
Proof. intros H. unfold stw. apply store_le_out. lia. Qed.

Lemma load_le_range (n : nat) : forall (m : Z -> Z) (a : Z),
  0 <= load_le m a n < 256 ^ Z.of_nat n.
Proof.
  induction n as [|n IH]; intros m a.
  - cbn [load_le]. rewrite Z.pow_0_r. lia.
  - cbn [load_le].
    replace (Z.of_nat (S n)) with (1 + Z.of_nat n) by lia.
    rewrite Z.pow_add_r by lia. rewrite Z.pow_1_r.
    specialize (IH m (a + 1)).
    pose proof (Z.mod_pos_bound (m a) 256 ltac:(lia)). nia.
Qed.

Lemma ldw_range (m : Z -> Z) (a : Z) : 0 <= ldw m a < W.
Proof. unfold ldw. exact (load_le_range 8 m a). Qed.

(** The byte at [a] is the low byte of the word at [a]. *)
Lemma ldw_low_byte (m : Z -> Z) (a : Z) : ldw m a mod 256 = m a mod 256.
Proof.
  unfold ldw. change (load_le m a 8) with (m a mod 256 + 256 * load_le m (a + 1) 7).
  set (X := load_le m (a + 1) 7).
  replace (m a mod 256 + 256 * X) with (m a mod 256 + X * 256) by lia.
  rewrite Z.mod_add by lia. apply Z.mod_mod. lia.
Qed.

Global Opaque ldw stw.

(** ** Boundary tags *)

(** The word stored in a header or footer. *)
Definition tag (sz : Z) (al : bool) : Z := lsb_a sz (if al then 1 else 0).

Lemma land_mask (w : Z) : 0 <= w < W -> Z.land w (W - 2) = 2 * (w / 2).
Proof.
  intros H. apply Z.bits_inj'. intros n Hn.
  rewrite Z.land_spec.
  destruct (Z.eq_dec n 0) as [->|Hn0].
  - replace (Z.testbit (W - 2) 0) with false by reflexivity.
    rewrite Z.testbit_even_0. apply andb_false_r.
  - replace n with (Z.succ (n - 1)) at 3 by lia.
    rewrite Z.testbit_even_succ by lia.
    replace (w / 2) with (Z.div2 w) by (rewrite Z.div2_div; reflexivity).
    rewrite Z.div2_spec. rewrite Z.shiftr_spec by lia.
    replace (n - 1 + 1) with n by lia.
    destruct (Z_lt_le_dec n 64) as [Hlt|Hge].
    + replace (Z.testbit (W - 2) n) with true; [apply andb_true_r|].
      symmetry.
      change (W - 2) with (2 * Z.ones 63).
      replace n with (Z.succ (n - 1)) by lia.
      rewrite Z.testbit_even_succ by lia.
      apply Z.ones_spec_low. lia.
    + replace (Z.testbit w n) with false; [reflexivity|].
      symmetry. apply Z.bits_above_log2; [lia|].
      destruct (Z.eq_dec w 0) as [->|Hw]; [simpl; lia|].
      apply Z.log2_lt_pow2; [lia|].
      apply Z.lt_le_trans with (2 ^ 64); [exact (proj2 H)|].
      apply Z.pow_le_mono_r; lia.
Qed.

Lemma land_one (w : Z) : Z.land w 1 = w mod 2.
Proof. change 1 with (Z.ones 1). rewrite Z.land_ones by lia. reflexivity. Qed.

Lemma lor_even_bit (sz : Z) (al : bool) :
  sz mod 2 = 0 -> Z.lor sz (if al then 1 else 0) = sz + (if al then 1 else 0).
Proof.
  intros H. destruct al.
  - assert (E : Z.land sz 1 = 0) by (rewrite land_one; exact H).
    rewrite <- (Z.lxor_lor sz 1 E). symmetry. apply Z.add_nocarry_lxor. exact E.
  - rewrite Z.lor_0_r. lia.
Qed.

Lemma tag_val (sz : Z) (al : bool) :
  sz mod 16 = 0 -> tag sz al = sz + (if al then 1 else 0).
Proof.
  intros H. unfold tag, lsb_a. apply lor_even_bit.
  rewrite (Z.div_mod sz 16) by lia. rewrite H.
  replace (16 * (sz / 16) + 0) with (sz / 16 * 8 * 2) by lia.
  apply Z.mod_mul. lia.
Qed.

Lemma tag_size (sz : Z) (al : bool) :
  sz mod 16 = 0 -> 0 <= sz -> sz + 16 <= W -> Z.land (tag sz al) (W - 2) = sz.
Proof.
  intros H H0 H1. rewrite tag_val by exact H.
  rewrite land_mask by (destruct al; lia).
  assert (E : sz = 16 * (sz / 16)).
  { pose proof (Z.div_mod sz 16 ltac:(lia)). lia. }
  destruct al.
  - replace ((sz + 1) / 2) with (8 * (sz / 16)); [lia|].
    apply Z.div_unique with (r := 1); lia.
  - rewrite Z.add_0_r. replace (sz / 2) with (8 * (sz / 16)); [lia|].
    apply Z.div_unique with (r := 0); lia.
Qed.

Lemma tag_alloc (sz : Z) (al : bool) :
  sz mod 16 = 0 -> negb (Z.land (tag sz al) 1 =? 0) = al.
Proof.
  intros H. rewrite tag_val by exact H. rewrite land_one.
  assert (E : sz = 2 * (8 * (sz / 16))).
  { pose proof (Z.div_mod sz 16 ltac:(lia)). lia. }
  destruct al.
  - replace ((sz + 1) mod 2) with 1; [reflexivity|].
    apply Z.mod_unique with (q := 8 * (sz / 16)); lia.
  - rewrite Z.add_0_r. replace (sz mod 2) with 0; [reflexivity|].
    apply Z.mod_unique with (q := 8 * (sz / 16)); lia.
Qed.

Lemma tag_range (sz : Z) (al : bool) :
  sz mod 16 = 0 -> 0 <= sz -> sz + 16 <= W -> 0 <= tag sz al < W.
Proof. intros H H0 H1. rewrite tag_val by exact H. destruct al; lia. Qed.

Arguments tag : simpl never.

(** ** The abstract view of the heap

    A heap is described by the list of its blocks in address order, each with
    its payload size and allocated bit; addresses follow from the sizes. *)

Definition blocks : Type := list (Z * bool).

Fixpoint span (bs : blocks) : Z :=
  match bs with
  | [] => 0
  | (sz, _) :: r => sz + 16 + span r
  end.

(** Header address, payload size and allocated bit of each block laid out
    from address [a]. *)
Fixpoint blocks_from (a : Z) (bs : blocks) : list (Z * Z * bool) :=
  match bs with
  | [] => []
  | (sz, al) :: r => (a, sz, al) :: blocks_from (a + sz + 16) r
  end.

(** Header addresses of the free blocks. *)
Fixpoint free_addrs (a : Z) (bs : blocks) : list Z :=
  match bs with
  | [] => []
  | (sz, al) :: r =>
      (if al then [] else [a]) ++ free_addrs (a + sz + 16) r
  end.

Definition size_ok (sz : Z) : Prop := 16 <= sz /\ sz mod 16 = 0.

Definition sizes_ok (bs : blocks) : Prop := Forall (fun x => size_ok (fst x)) bs.

(** Header and footer of every block hold its tag. *)
Fixpoint chain (m : Z -> Z) (a : Z) (bs : blocks) : Prop :=
  match bs with
  | [] => True
  | (sz, al) :: r =>
      ldw m a = tag sz al /\ ldw m (a + sz + 8) = tag sz al /\
      chain m (a + sz + 16) r
  end.

(** Allocated bit of the block that starts / ends a run; the sentinels at the
    heap's ends count as allocated. *)
Definition hd_alloc (bs : blocks) : bool :=
  match bs with
  | [] => true
  | (_, al) :: _ => al
  end.

Fixpoint last_alloc (bs : blocks) : bool :=
  match bs with
  | [] => true
  | (_, al) :: r => match r with [] => al | _ => last_alloc r end
  end.

(** No two neighbouring blocks are both free. *)
Fixpoint adj_ok (bs : blocks) : Prop :=
  match bs with
  | [] => True
  | (_, al) :: r => (al || hd_alloc r = true) /\ adj_ok r
  end.

Lemma span_app (l1 l2 : blocks) : span (l1 ++ l2) = span l1 + span l2.
Proof.
  induction l1 as [|[sz al] l1 IH]; cbn [span app]; [reflexivity|]. lia.
Qed.

Lemma sizes_ok_app (l1 l2 : blocks) :
  sizes_ok (l1 ++ l2) <-> sizes_ok l1 /\ sizes_ok l2.
Proof. unfold sizes_ok. apply Forall_app. Qed.

Lemma sizes_ok_cons (sz : Z) (al : bool) (l : blocks) :
  sizes_ok ((sz, al) :: l) <-> size_ok sz /\ sizes_ok l.
Proof. unfold sizes_ok. rewrite Forall_cons_iff. reflexivity. Qed.

Lemma span_nonneg (bs : blocks) : sizes_ok bs -> 0 <= span bs.
Proof.
  induction bs as [|[sz al] r IH]; intros H; cbn [span]; [lia|].
  apply sizes_ok_cons in H. destruct H as [[H1 _] H2]. specialize (IH H2). lia.
Qed.

Lemma span_mod16 (bs : blocks) : sizes_ok bs -> span bs mod 16 = 0.
Proof.
  induction bs as [|[sz al] r IH]; intros H; cbn [span]; [reflexivity|].
  apply sizes_ok_cons in H. destruct H as [[_ H1] H2]. specialize (IH H2).
  rewrite Z.add_mod by lia. rewrite IH.
  rewrite (Z.add_mod sz 16) by lia. rewrite H1. reflexivity.
Qed.

Lemma span_ge_length (bs : blocks) :
  sizes_ok bs -> 32 * Z.of_nat (length bs) <= span bs.
Proof.
  induction bs as [|[sz al] r IH]; intros H; cbn [span length]; [lia|].
  apply sizes_ok_cons in H. destruct H as [[H1 _] H2]. specialize (IH H2). lia.
Qed.

Lemma blocks_from_app (l1 l2 : blocks) : forall a,
  blocks_from a (l1 ++ l2) = blocks_from a l1 ++ blocks_from (a + span l1) l2.
Proof.
  induction l1 as [|[sz al] l1 IH]; intros a; cbn [blocks_from span app].
  - rewrite Z.add_0_r. reflexivity.
  - rewrite IH. do 3 f_equal. lia.
Qed.

Lemma free_addrs_app (l1 l2 : blocks) : forall a,
  free_addrs a (l1 ++ l2) = free_addrs a l1 ++ free_addrs (a + span l1) l2.
Proof.
  induction l1 as [|[sz al] l1 IH]; intros a; cbn [free_addrs span app].
  - rewrite Z.add_0_r. reflexivity.
  - rewrite IH. rewrite <- app_assoc. do 3 f_equal. lia.
Qed.

Lemma chain_app (m : Z -> Z) (l1 l2 : blocks) : forall a,
  chain m a (l1 ++ l2) <-> chain m a l1 /\ chain m (a + span l1) l2.
Proof.
  induction l1 as [|[sz al] l1 IH]; intros a; cbn [chain span app].
  - rewrite Z.add_0_r. tauto.
  - rewrite IH. replace (a + sz + 16 + span l1) with (a + (sz + 16 + span l1)) by lia.
    tauto.
Qed.

Lemma in_blocks_split (bs : blocks) : forall a b sz al,
  In (b, sz, al) (blocks_from a bs) ->
  exists l1 l2, bs = l1 ++ (sz, al) :: l2 /\ b = a + span l1.
Proof.
  induction bs as [|[sz0 al0] r IH]; intros a b sz al H; cbn [blocks_from] in H.
  - destruct H.
  - destruct H as [H|H].
    + inversion H; subst. exists [], r. cbn [app span]. split; [reflexivity|lia].
    + destruct (IH _ _ _ _ H) as (l1 & l2 & -> & ->).
      exists ((sz0, al0) :: l1), l2. cbn [app span]. split; [reflexivity|lia].
Qed.

Lemma in_blocks_mid (l1 l2 : blocks) (a sz : Z) (al : bool) :
  In (a + span l1, sz, al) (blocks_from a (l1 ++ (sz, al) :: l2)).
Proof.
  rewrite blocks_from_app. apply in_or_app. right. cbn [blocks_from]. left. reflexivity.
Qed.

Lemma in_free_blocks (bs : blocks) : forall a b,
  In b (free_addrs a bs) <-> exists sz, In (b, sz, false) (blocks_from a bs).
Proof.
  induction bs as [|[sz0 al0] r IH]; intros a b; cbn [free_addrs blocks_from].
  - split; [intros []|intros [? []]].
  - rewrite in_app_iff, IH. split.
    + intros [H|[sz H]].
      * destruct al0; [destruct H|]. destruct H as [->|[]].
        exists sz0. left. reflexivity.
      * exists sz. right. exact H.
    + intros [sz [H|H]].
      * inversion H; subst. left. left. reflexivity.
      * right. exists sz. exact H.
Qed.

(** Where the blocks of a run lie. *)
Lemma blocks_range (bs : blocks) : forall a b sz al,
  sizes_ok bs -> In (b, sz, al) (blocks_from a bs) ->
  a <= b /\ b + sz + 16 <= a + span bs /\ size_ok sz.
Proof.
  intros a b sz al Hs H.
  destruct (in_blocks_split _ _ _ _ _ H) as (l1 & l2 & -> & ->).
  apply sizes_ok_app in Hs. destruct Hs as [H1 H2].
  apply sizes_ok_cons in H2. destruct H2 as [H2 H3].
  rewrite span_app. cbn [span].
  pose proof (span_nonneg _ H1). pose proof (span_nonneg _ H3).
  destruct H2. repeat split; try lia; assumption.
Qed.

Lemma free_addrs_range (bs : blocks) (a b : Z) :
  sizes_ok bs -> In b (free_addrs a bs) -> a <= b /\ b + 32 <= a + span bs.
Proof.
  intros Hs H. apply in_free_blocks in H. destruct H as [sz H].
  destruct (blocks_range _ _ _ _ _ Hs H) as (H1 & H2 & H3 & _). lia.
Qed.

(** Two blocks of a run are the same block or do not overlap. *)
Lemma blocks_sep (bs : blocks) : forall a b sz al b' sz' al',
  sizes_ok bs ->
  In (b, sz, al) (blocks_from a bs) -> In (b', sz', al') (blocks_from a bs) ->
  (b = b' /\ sz = sz' /\ al = al') \/ b + sz + 16 <= b' \/ b' + sz' + 16 <= b.
Proof.
  induction bs as [|[sz0 al0] r IH]; intros a b sz al b' sz' al' Hs H H';
    cbn [blocks_from] in H, H'.
  - destruct H.
  - apply sizes_ok_cons in Hs. destruct Hs as [Hs0 Hs].
    destruct H as [H|H]; destruct H' as [H'|H'].
    + inversion H; inversion H'; subst. left. repeat split; reflexivity.
    + inversion H; subst.
      destruct (blocks_range _ _ _ _ _ Hs H') as (? & ? & ?). right. left. lia.
    + inversion H'; subst.
      destruct (blocks_range _ _ _ _ _ Hs H) as (? & ? & ?). right. right. lia.
    + exact (IH _ _ _ _ _ _ _ Hs H H').
Qed.

Lemma free_addrs_NoDup (bs : blocks) : forall a,
  sizes_ok bs -> NoDup (free_addrs a bs).
Proof.
  induction bs as [|[sz al] r IH]; intros a Hs; cbn [free_addrs].
  - constructor.
  - apply sizes_ok_cons in Hs. destruct Hs as [Hs0 Hs].
    destruct al; cbn [app]; [apply IH; exact Hs|].
    constructor; [|apply IH; exact Hs].
    intros H. apply (free_addrs_range _ _ _ Hs) in H. destruct Hs0. lia.
Qed.

Lemma chain_frame (m m' : Z -> Z) (bs : blocks) : forall a,
  chain m a bs ->
  (forall b sz al, In (b, sz, al) (blocks_from a bs) ->
     ldw m' b = ldw m b /\ ldw m' (b + sz + 8) = ldw m (b + sz + 8)) ->
  chain m' a bs.
Proof.
  induction bs as [|[sz al] r IH]; intros a H F; cbn [chain blocks_from] in *.
  - exact I.
  - destruct H as (H1 & H2 & H3).
    destruct (F a sz al (or_introl eq_refl)) as [E1 E2].
    rewrite E1, E2. repeat split; try assumption.
    apply IH; [exact H3|]. intros b sz' al' Hin. apply (F b sz' al'). right. exact Hin.
Qed.

(** A store outside a run's extent leaves its tags alone. *)
Lemma chain_stw_out (m : Z -> Z) (bs : blocks) (a y v : Z) :
  sizes_ok bs -> chain m a bs ->
  y + 8 <= a \/ a + span bs <= y ->
  chain (stw m y v) a bs.
Proof.
  intros Hs H Hy. apply (chain_frame m); [exact H|].
  intros b sz al Hin.
  destruct (blocks_range _ _ _ _ _ Hs Hin) as (H1 & H2 & H3 & _).
  split; apply ldw_stw_far; unfold far; lia.
Qed.

Lemma adj_ok_app (l1 l2 : blocks) :
  adj_ok (l1 ++ l2) <->
  adj_ok l1 /\ adj_ok l2 /\ (last_alloc l1 || hd_alloc l2 = true).
Proof.
  induction l1 as [|[sz al] l1 IH]; cbn [adj_ok app last_alloc].
  - cbn [orb]. intuition auto.
  - rewrite IH. destruct l1 as [|[sz1 al1] l1]; cbn [app hd_alloc last_alloc adj_ok].
    + destruct l2 as [|[sz2 al2] l2]; cbn [hd_alloc];
        rewrite ?orb_true_r; cbn [orb adj_ok]; intuition auto.
    + intuition auto.
Qed.

Lemma last_alloc_snoc (l : blocks) (sz : Z) (al : bool) :
  last_alloc (l ++ [(sz, al)]) = al.
Proof.
  induction l as [|[sz0 al0] l IH]; cbn [app last_alloc]; [reflexivity|].
  destruct l; cbn [app] in *; exact IH.
Qed.

(** Either a run is empty or it ends with some block. *)
Lemma blocks_snoc_cases (l : blocks) :
  l = [] \/ exists l' sz al, l = l' ++ [(sz, al)].
Proof.
  induction l as [|[sz al] l' _] using rev_ind.
  - left. reflexivity.
  - right. exists l', sz, al. reflexivity.
Qed.

(** ** The free list as a list of header addresses *)

(** Address of the node of the first block of [fl], or [d] for an empty run. *)
Definition hd_node (fl : list Z) (d : Z) : Z :=
  match fl with
  | [] => d
  | c :: _ => c + 8
  end.

(** Address of the node of the last block of [fl], or [p] for an empty run. *)
Fixpoint last_node (fl : list Z) (p : Z) : Z :=
  match fl with
  | [] => p
  | c :: r => last_node r (c + 8)
  end.

(** The blocks [fl] are linked in this order, entered from [p] and leaving to
    [n]: each block holds [next] at offset 8 and [prev] at offset 16. *)
Fixpoint dllseg (m : Z -> Z) (p : Z) (fl : list Z) (n : Z) : Prop :=
  match fl with
  | [] => True
  | c :: r =>
      ldw m (c + 8) = hd_node r n /\ ldw m (c + 16) = p /\ dllseg m (c + 8) r n
  end.

(** The node cells of distinct blocks do not overlap. *)
Definition sparse (fl : list Z) : Prop :=
  forall c c', In c fl -> In c' fl -> c = c' \/ c + 16 <= c' \/ c' + 16 <= c.

Lemma dllseg_cons (m : Z -> Z) (p c : Z) (r : list Z) (n : Z) :
  ldw m (c + 8) = hd_node r n -> ldw m (c + 16) = p -> dllseg m (c + 8) r n ->
  dllseg m p (c :: r) n.
Proof. intros H1 H2 H3. cbn [dllseg]. auto. Qed.

Lemma hd_node_app (f1 f2 : list Z) (d : Z) :
  hd_node (f1 ++ f2) d = hd_node f1 (hd_node f2 d).
Proof. destruct f1; reflexivity. Qed.

Lemma last_node_app (f1 f2 : list Z) : forall p,
  last_node (f1 ++ f2) p = last_node f2 (last_node f1 p).
Proof. induction f1 as [|c f1 IH]; intros p; cbn [last_node app]; auto. Qed.

Lemma last_node_in (fl : list Z) : forall p,
  fl <> [] -> exists c, In c fl /\ last_node fl p = c + 8.
Proof.
  induction fl as [|c r IH]; intros p H; [congruence|].
  cbn [last_node]. destruct r as [|c' r].
  - exists c. split; [left; reflexivity|reflexivity].
  - destruct (IH (c + 8) ltac:(discriminate)) as (d & Hd & E).
    exists d. split; [right; exact Hd|exact E].
Qed.

Lemma dllseg_app (m : Z -> Z) (f1 f2 : list Z) (n : Z) : forall p,
  dllseg m p (f1 ++ f2) n <->
  dllseg m p f1 (hd_node f2 n) /\ dllseg m (last_node f1 p) f2 n.
Proof.
  induction f1 as [|c f1 IH]; intros p; cbn [dllseg app last_node].
  - tauto.
  - rewrite IH. rewrite hd_node_app. tauto.
Qed.

Lemma dllseg_frame (m m' : Z -> Z) (fl : list Z) (n : Z) : forall p,
  dllseg m p fl n ->
  (forall c, In c fl ->
     ldw m' (c + 8) = ldw m (c + 8) /\ ldw m' (c + 16) = ldw m (c + 16)) ->
  dllseg m' p fl n.
Proof.
  induction fl as [|c r IH]; intros p H F; cbn [dllseg] in *; [exact I|].
  destruct H as (H1 & H2 & H3).
  destruct (F c (or_introl eq_refl)) as [E1 E2]. rewrite E1, E2.
  repeat split; try assumption.
  apply IH; [exact H3|]. intros d Hd. apply F. right. exact Hd.
Qed.

(** Redirecting the [next] field of the last block. *)
Lemma dllseg_set_next (m m' : Z -> Z) (fl : list Z) (n n' : Z) : forall p,
  fl <> [] -> NoDup fl ->
  dllseg m p fl n ->
  ldw m' (last_node fl p) = n' ->
  (forall c, In c fl ->
     ldw m' (c + 16) = ldw m (c + 16) /\
     (c + 8 <> last_node fl p -> ldw m' (c + 8) = ldw m (c + 8))) ->
  dllseg m' p fl n'.
Proof.
  induction fl as [|c r IH]; intros p Hne Hnd H E F; [congruence|].
  cbn [dllseg last_node] in *. destruct H as (H1 & H2 & H3).
  apply NoDup_cons_iff in Hnd. destruct Hnd as [Hnotin Hnd'].
  destruct (F c (or_introl eq_refl)) as [F1 F2].
  destruct r as [|c' r].
  - cbn [last_node hd_node dllseg] in *. rewrite E, F1. auto.
  - destruct (last_node_in (c' :: r) (c + 8) ltac:(discriminate)) as (d & Hd & Ed).
    rewrite F1. rewrite F2.
    + split; [exact H1|]. split; [exact H2|].
      apply IH; try assumption; [discriminate|].
      intros e He. apply F. right. exact He.
    + rewrite Ed. intros Heq. apply Hnotin. replace c with d by lia. exact Hd.
Qed.

(** Redirecting the [prev] field of the first block. *)
Lemma dllseg_set_prev (m m' : Z -> Z) (c : Z) (r : list Z) (p p' n : Z) :
  dllseg m p (c :: r) n ->
  ldw m' (c + 16) = p' ->
  ldw m' (c + 8) = ldw m (c + 8) ->
  (forall d, In d r ->
     ldw m' (d + 8) = ldw m (d + 8) /\ ldw m' (d + 16) = ldw m (d + 16)) ->
  dllseg m' p' (c :: r) n.
Proof.
  intros (H1 & H2 & H3) E1 E2 F. cbn [dllseg]. rewrite E1, E2.
  repeat split; try assumption. apply (dllseg_frame m); assumption.
Qed.

(** ** Running single steps *)

Definition same_heap (s s' : state) : Prop :=
  heap_lo s' = heap_lo s /\ heap_brk s' = heap_brk s /\ heap_max s' = heap_max s.

Lemma same_heap_refl (s : state) : same_heap s s.
Proof. repeat split. Qed.

Lemma same_heap_trans (s1 s2 s3 : state) :
  same_heap s1 s2 -> same_heap s2 s3 -> same_heap s1 s3.
Proof. unfold same_heap. intros (? & ? & ?) (? & ? & ?). repeat split; congruence. Qed.

Lemma in_heap_true (s : state) (a n : Z) :
  heap_lo s <= a -> a + n <= heap_brk s -> in_heap s a n = true.
Proof.
  intros H1 H2. unfold in_heap. apply andb_true_intro.
  split; apply Z.leb_le; assumption.
Qed.

Lemma load_ok (s : state) (a : Z) :
  heap_lo s <= a -> a + 8 <= heap_brk s -> load s a = Some (ldw (mem s) a).
Proof. intros H1 H2. unfold load. rewrite in_heap_true by assumption. reflexivity. Qed.

Lemma store_ok (s : state) (a v : Z) :
  heap_lo s <= a -> a + 8 <= heap_brk s ->
  store s a v = Some (set_mem s (stw (mem s) a v)).
Proof. intros H1 H2. unfold store. rewrite in_heap_true by assumption. reflexivity. Qed.

Lemma get_size_ok (s : state) (a sz : Z) (al : bool) :
  heap_lo s <= a -> a + 8 <= heap_brk s ->
  ldw (mem s) a = tag sz al -> sz mod 16 = 0 -> 0 <= sz -> sz + 16 <= W ->
  get_size s a = Some sz.
Proof.
  intros H1 H2 E Hm H0 Hw. unfold get_size. rewrite load_ok by assumption.
  cbn [bind]. rewrite E, tag_size by assumption. reflexivity.
Qed.

Lemma get_allocated_ok (s : state) (a sz : Z) (al : bool) :
  a <> 0 -> heap_lo s <= a -> a + 8 <= heap_brk s ->
  ldw (mem s) a = tag sz al -> sz mod 16 = 0 ->
  get_allocated s a = Some al.
Proof.
  intros Hn H1 H2 E Hm. unfold get_allocated, NULL.
  apply Z.eqb_neq in Hn. rewrite Hn. rewrite load_ok by assumption.
  cbn [bind]. rewrite E, tag_alloc by assumption. reflexivity.
Qed.

(** Reading through a stack of stores. *)
Ltac mem_simpl :=
  repeat first
    [ rewrite ldw_stw_same
    | rewrite ldw_stw_far by (unfold far; lia)
    | rewrite wrap_small by lia ].

Ltac st_simpl :=
  cbn [mem heap_lo heap_brk heap_max first set_mem set_first set_brk bind] in *.

Lemma NoDup_mid (f1 f2 : list Z) (b : Z) :
  NoDup (f1 ++ b :: f2) ->
  (forall x, In x f1 -> x <> b) /\ (forall x, In x f2 -> x <> b) /\
  (forall x, In x f1 -> In x f2 -> False) /\
  NoDup f1 /\ NoDup f2 /\ NoDup (f1 ++ f2).
Proof.
  intros H. pose proof (NoDup_remove_1 _ _ _ H) as H1.
  pose proof (NoDup_remove_2 _ _ _ H) as H2.
  assert (Hl : NoDup f1 /\ NoDup f2 /\ (forall x, In x f1 -> In x f2 -> False)).
  { clear H H2. induction f1 as [|a f1 IH]; cbn [app] in *.
    - split; [constructor|]. split; [exact H1|]. intros x [].
    - apply NoDup_cons_iff in H1. destruct H1 as [Ha H1].
      destruct (IH H1) as (I1 & I2 & I3).
      split; [constructor; [|exact I1]|].
      + intros Hin. apply Ha. apply in_or_app. left. exact Hin.
      + split; [exact I2|]. intros x [->|Hx] Hx2.
        * apply Ha. apply in_or_app. right. exact Hx2.
        * exact (I3 x Hx Hx2). }
  destruct Hl as (L1 & L2 & L3).
  repeat split; try assumption.
  - intros x Hx ->. apply H2. apply in_or_app. left. exact Hx.
  - intros x Hx ->. apply H2. apply in_or_app. right. exact Hx.
Qed.

(** ** [add_node] and [remove_node] on a well-formed list *)

Section ListOps.

Variable s : state.
Hypothesis lo_pos : 0 < heap_lo s.
Hypothesis brk_max : heap_brk s <= W.

Definition nodes_in (fl : list Z) : Prop :=
  forall c, In c fl -> heap_lo s <= c /\ c + 24 <= heap_brk s.

Lemma add_node_spec (fl : list Z) (b : Z) :
  dllseg (mem s) 0 fl 0 -> first s = hd_node fl 0 ->
  NoDup fl -> sparse fl ->
  nodes_in fl -> heap_lo s <= b -> b + 24 <= heap_brk s ->
  (forall c, In c fl -> c + 16 <= b \/ b + 16 <= c) ->
  exists s', add_node s b = Some s' /\ same_heap s s' /\
    first s' = b + 8 /\ dllseg (mem s') 0 (b :: fl) 0 /\
    (forall y, far y (b + 8) -> far y (b + 16) ->
       (forall c, In c fl -> far y (c + 16)) ->
       ldw (mem s') y = ldw (mem s) y).
Proof.
  intros Hd Hf Hnd Hsp Hn Hb1 Hb2 Hsep.
  unfold add_node, node_of, next_field, prev_field, NULL, BLK.
  rewrite (padd_small b 8) by lia. rewrite (padd_small (b + 8) 8) by lia.
  rewrite store_ok by lia. st_simpl.
  rewrite store_ok by (st_simpl; lia). st_simpl.
  destruct fl as [|c r].
  - cbn [hd_node] in Hf. rewrite Hf. cbn [negb Z.eqb]. st_simpl.
    eexists. split; [reflexivity|]. st_simpl.
    split; [repeat split|]. split; [reflexivity|].
    replace (b + 8 + 8) with (b + 16) by lia.
    split.
    + cbn [dllseg hd_node]. mem_simpl. auto.
    + intros y Y1 Y2 _. unfold far in *. mem_simpl. reflexivity.
  - cbn [hd_node] in Hf. rewrite Hf.
    destruct (Hn c (or_introl eq_refl)) as [Hc1 Hc2].
    replace (c + 8 =? 0) with false by (symmetry; apply Z.eqb_neq; lia).
    cbn [negb]. rewrite (padd_small (c + 8) 8) by lia.
    rewrite store_ok by (st_simpl; lia). st_simpl.
    eexists. split; [reflexivity|]. st_simpl.
    split; [repeat split|]. split; [reflexivity|].
    pose proof (Hsep c (or_introl eq_refl)) as Hcb.
    replace (b + 8 + 8) with (b + 16) by lia.
    replace (c + 8 + 8) with (c + 16) by lia.
    split.
    + apply dllseg_cons; [mem_simpl; reflexivity|mem_simpl; reflexivity|].
      apply (dllseg_set_prev (mem s) _ c r 0 (b + 8) 0).
      * exact Hd.
      * mem_simpl. reflexivity.
      * mem_simpl. reflexivity.
      * intros d Hdin.
        pose proof (Hsep d (or_intror Hdin)).
        apply NoDup_cons_iff in Hnd. destruct Hnd as [Hnotin _].
        assert (d <> c) by (intros ->; contradiction).
        destruct (Hsp d c (or_intror Hdin) (or_introl eq_refl)) as [?|?];
          [contradiction|].
        split; mem_simpl; reflexivity.
    + intros y Y1 Y2 Y3. specialize (Y3 c (or_introl eq_refl)).
      unfold far in *. mem_simpl. reflexivity.
Qed.

Lemma remove_node_spec (f1 f2 : list Z) (b : Z) :
  dllseg (mem s) 0 (f1 ++ b :: f2) 0 -> first s = hd_node (f1 ++ b :: f2) 0 ->
  NoDup (f1 ++ b :: f2) -> sparse (f1 ++ b :: f2) -> nodes_in (f1 ++ b :: f2) ->
  exists s', remove_node s b = Some s' /\ same_heap s s' /\
    first s' = hd_node (f1 ++ f2) 0 /\ dllseg (mem s') 0 (f1 ++ f2) 0 /\
    (forall y, (forall c, In c (f1 ++ f2) -> far y (c + 8) /\ far y (c + 16)) ->
       ldw (mem s') y = ldw (mem s) y).
Proof.
  intros Hd Hf Hnd Hsp Hn.
  destruct (NoDup_mid _ _ _ Hnd) as (N1 & N2 & N3 & N4 & N5 & N6).
  apply dllseg_app in Hd. cbn [hd_node] in Hd. destruct Hd as [D1 D2].
  pose proof D2 as D2'. cbn [dllseg] in D2'. destruct D2' as (En & Ep & D3).
  assert (Hb : heap_lo s <= b /\ b + 24 <= heap_brk s).
  { apply Hn. apply in_or_app. right. left. reflexivity. }
  assert (In1 : forall x, In x f1 -> In x (f1 ++ b :: f2)).
  { intros x Hx. apply in_or_app. left. exact Hx. }
  assert (In2 : forall x, In x f2 -> In x (f1 ++ b :: f2)).
  { intros x Hx. apply in_or_app. right. right. exact Hx. }
  assert (Inb : In b (f1 ++ b :: f2)).
  { apply in_or_app. right. left. reflexivity. }
  unfold remove_node, node_of, next_field, prev_field, NULL, BLK.
  rewrite (padd_small b 8) by lia. rewrite (padd_small (b + 8) 8) by lia.
  replace (b + 8 + 8) with (b + 16) by lia.
  rewrite !load_ok by lia. st_simpl. rewrite En, Ep.
  destruct f1 as [|a0 g1]; destruct f2 as [|c r].
  - (* sole element *)
    cbn [last_node hd_node app]. cbn [Z.eqb negb andb].
    eexists. split; [reflexivity|]. st_simpl.
    split; [repeat split|]. split; [reflexivity|]. split; [exact I|].
    intros y _. reflexivity.
  - (* head *)
    cbn [last_node hd_node app] in *.
    destruct (Hn c (In2 c (or_introl eq_refl))) as [Hc1 Hc2].
    replace (c + 8 =? 0) with false by (symmetry; apply Z.eqb_neq; lia).
    cbn [Z.eqb negb andb].
    rewrite (padd_small (c + 8) 8) by lia. replace (c + 8 + 8) with (c + 16) by lia.
    rewrite store_ok by lia. st_simpl.
    assert (Hcb : c + 16 <= b \/ b + 16 <= c).
    { destruct (Hsp c b (In2 c (or_introl eq_refl)) Inb) as [E|E]; [|exact E].
      exfalso. exact (N2 c (or_introl eq_refl) E). }
    rewrite load_ok by (st_simpl; lia). st_simpl. mem_simpl. rewrite En.
    eexists. split; [reflexivity|]. st_simpl.
    split; [repeat split|]. split; [reflexivity|]. split.
    + apply (dllseg_set_prev (mem s) _ c r (b + 8) 0 0).
      * exact D3.
      * mem_simpl. reflexivity.
      * mem_simpl. reflexivity.
      * intros d Hdin. apply NoDup_cons_iff in N5. destruct N5 as [Hnotin _].
        assert (d <> c) by (intros ->; contradiction).
        destruct (Hsp d c (In2 d (or_intror Hdin)) (In2 c (or_introl eq_refl)))
          as [?|?]; [contradiction|].
        split; mem_simpl; reflexivity.
    + intros y Y. destruct (Y c (or_introl eq_refl)) as [Y1 Y2].
      unfold far in *. mem_simpl. reflexivity.
  - (* tail *)
    destruct (last_node_in (a0 :: g1) 0 ltac:(discriminate)) as (a & Ha & Ea).
    rewrite Ea in *. cbn [hd_node] in *.
    destruct (Hn a (In1 a Ha)) as [Ha1 Ha2].
    replace (a + 8 =? 0) with false by (symmetry; apply Z.eqb_neq; lia).
    cbn [Z.eqb negb andb].
    rewrite store_ok by lia. st_simpl.
    eexists. split; [reflexivity|]. st_simpl.
    split; [repeat split|]. split; [exact Hf|]. rewrite app_nil_r. split.
    + apply (dllseg_set_next (mem s) _ (a0 :: g1) (b + 8) 0 0);
        [discriminate|exact N4|exact D1|rewrite Ea; mem_simpl; reflexivity|].
      intros d Hdin. rewrite Ea.
      destruct (Hsp d a (In1 d Hdin) (In1 a Ha)) as [->|E].
      * split; [mem_simpl; reflexivity|]. intros Hc. congruence.
      * split; [mem_simpl; reflexivity|]. intros _. mem_simpl. reflexivity.
    + intros y Y. destruct (Y a Ha) as [Y1 Y2].
      unfold far in *. mem_simpl. reflexivity.
  - (* interior *)
    destruct (last_node_in (a0 :: g1) 0 ltac:(discriminate)) as (a & Ha & Ea).
    rewrite Ea in *. cbn [hd_node] in En. cbn [hd_node].
    destruct (Hn a (In1 a Ha)) as [Ha1 Ha2].
    destruct (Hn c (In2 c (or_introl eq_refl))) as [Hc1 Hc2].
    replace (a + 8 =? 0) with false by (symmetry; apply Z.eqb_neq; lia).
    replace (c + 8 =? 0) with false by (symmetry; apply Z.eqb_neq; lia).
    cbn [negb andb]. st_simpl.
    assert (Hab : a + 16 <= b \/ b + 16 <= a).
    { destruct (Hsp a b (In1 a Ha) Inb) as [E|E]; [|exact E].
      exfalso. exact (N1 a Ha E). }
    assert (Hcb : c + 16 <= b \/ b + 16 <= c).
    { destruct (Hsp c b (In2 c (or_introl eq_refl)) Inb) as [E|E]; [|exact E].
      exfalso. exact (N2 c (or_introl eq_refl) E). }
    assert (Hac : a + 16 <= c \/ c + 16 <= a).
    { destruct (Hsp a c (In1 a Ha) (In2 c (or_introl eq_refl))) as [E|E]; [|exact E].
      exfalso. subst c. exact (N3 a Ha (or_introl eq_refl)). }
    rewrite store_ok by lia. st_simpl.
    rewrite load_ok by (st_simpl; lia). st_simpl. mem_simpl. rewrite Ep.
    rewrite (padd_small (c + 8) 8) by lia. replace (c + 8 + 8) with (c + 16) by lia.
    rewrite store_ok by (st_simpl; lia). st_simpl.
    eexists. split; [reflexivity|]. st_simpl.
    split; [repeat split|]. split; [rewrite Hf; reflexivity|].
    split.
    + apply dllseg_app. rewrite Ea. cbn [hd_node]. split.
      * apply (dllseg_set_next (mem s) _ (a0 :: g1) (b + 8) (c + 8) 0);
          [discriminate|exact N4|exact D1|rewrite Ea; mem_simpl; reflexivity|].
        intros d Hdin. rewrite Ea.
        assert (Hdc : d + 16 <= c \/ c + 16 <= d).
        { destruct (Hsp d c (In1 d Hdin) (In2 c (or_introl eq_refl))) as [E|E];
            [|exact E].
          exfalso. subst c. exact (N3 d Hdin (or_introl eq_refl)). }
        destruct (Hsp d a (In1 d Hdin) (In1 a Ha)) as [->|E].
        -- split; [mem_simpl; reflexivity|]. intros Hc. congruence.
        -- split; [mem_simpl; reflexivity|]. intros _. mem_simpl. reflexivity.
      * apply (dllseg_set_prev (mem s) _ c r (b + 8) (a + 8) 0).
        -- exact D3.
        -- mem_simpl. reflexivity.
        -- mem_simpl. reflexivity.
        -- intros d Hdin. apply NoDup_cons_iff in N5. destruct N5 as [Hnotin _].
           assert (d <> c) by (intros ->; contradiction).
           destruct (Hsp d c (In2 d (or_intror Hdin)) (In2 c (or_introl eq_refl)))
             as [?|?]; [contradiction|].
           assert (Hda : d + 16 <= a \/ a + 16 <= d).
           { destruct (Hsp d a (In2 d (or_intror Hdin)) (In1 a Ha)) as [E|E];
               [|exact E].
             exfalso. subst d. exact (N3 a Ha (or_intror Hdin)). }
           split; mem_simpl; reflexivity.
    + intros y Y.
      destruct (Y a (in_or_app _ _ _ (or_introl Ha))) as [Y1 Y2].
      destruct (Y c (in_or_app (a0 :: g1) (c :: r) c
                       (or_intror (or_introl eq_refl)))) as [Y3 Y4].
      unfold far in *. mem_simpl. reflexivity.
Qed.

End ListOps.

(** ** Well-formed heaps *)

(** The heap is tiled by the blocks [bs] between the two sentinel words. *)
Record tiled (s : state) (bs : blocks) : Prop := mkTiled {
  T_lo : 0 < heap_lo s;
  T_lo16 : heap_lo s mod 16 = 0;
  T_brk : heap_brk s <= heap_max s;
  T_max : heap_max s < W;
  T_end : heap_lo s + 8 + span bs = heap_brk s - 8;
  T_pro : ldw (mem s) (heap_lo s) = tag 0 true;
  T_epi : ldw (mem s) (heap_brk s - 8) = tag 0 true;
  T_sizes : sizes_ok bs;
  T_chain : chain (mem s) (heap_lo s + 8) bs
}.

(** [first] heads a well-formed doubly-linked list of the blocks [fl]. *)
Record linked (s : state) (fl : list Z) : Prop := mkLinked {
  K_links : dllseg (mem s) 0 fl 0;
  K_first : first s = hd_node fl 0;
  K_nodup : NoDup fl
}.

(** The allocator's invariant: the heap is tiled, the free list holds exactly
    the free blocks, no two neighbours are both free and there is a block. *)
Record layout (s : state) (bs : blocks) (fl : list Z) : Prop := mkLayout {
  L_tiled : tiled s bs;
  L_linked : linked s fl;
  L_free : forall c, In c fl <-> In c (free_addrs (heap_lo s + 8) bs);
  L_adj : adj_ok bs;
  L_ne : bs <> []
}.

Definition heap_ok (s : state) : Prop := exists bs fl, layout s bs fl.

(** [c] is the header address of some block of the run. *)
Definition is_block (a : Z) (bs : blocks) (c : Z) : Prop :=
  exists sz al, In (c, sz, al) (blocks_from a bs).

Lemma is_block_app (a : Z) (l1 l2 : blocks) (c : Z) :
  is_block a (l1 ++ l2) c <-> is_block a l1 c \/ is_block (a + span l1) l2 c.
Proof.
  unfold is_block. rewrite blocks_from_app. split.
  - intros (sz & al & H). apply in_app_or in H. destruct H as [H|H]; eauto.
  - intros [(sz & al & H)|(sz & al & H)]; exists sz, al; apply in_or_app; auto.
Qed.

Lemma is_block_cons (a sz : Z) (al : bool) (l : blocks) (c : Z) :
  is_block a ((sz, al) :: l) c <-> c = a \/ is_block (a + sz + 16) l c.
Proof.
  unfold is_block. cbn [blocks_from]. split.
  - intros (sz' & al' & [H|H]); [left; congruence|right; eauto].
  - intros [->|(sz' & al' & H)]; [exists sz, al; left; reflexivity|].
    exists sz', al'. right. exact H.
Qed.

Lemma free_is_block (a : Z) (bs : blocks) (c : Z) :
  In c (free_addrs a bs) -> is_block a bs c.
Proof. intros H. apply in_free_blocks in H. destruct H as [sz H]. exists sz, false. exact H. Qed.

Lemma is_block_range (a : Z) (bs : blocks) (c : Z) :
  sizes_ok bs -> is_block a bs c -> a <= c /\ c + 32 <= a + span bs.
Proof.
  intros Hs (sz & al & H).
  destruct (blocks_range _ _ _ _ _ Hs H) as (H1 & H2 & H3 & _). lia.
Qed.

Lemma is_block_sep (a : Z) (bs : blocks) (c c' : Z) :
  sizes_ok bs -> is_block a bs c -> is_block a bs c' ->
  c = c' \/ c + 32 <= c' \/ c' + 32 <= c.
Proof.
  intros Hs (sz & al & H) (sz' & al' & H').
  destruct (blocks_range _ _ _ _ _ Hs H) as (_ & _ & H3 & _).
  destruct (blocks_range _ _ _ _ _ Hs H') as (_ & _ & H3' & _).
  destruct (blocks_sep _ _ _ _ _ _ _ _ Hs H H') as [(E & _)|[E|E]]; [left; exact E|lia|lia].
Qed.

(** A set of blocks is where list nodes may live, relative to a run: each is a
    block of the run or lies outside the run's extent. *)
Definition compat (a : Z) (bs : blocks) (S : list Z) : Prop :=
  forall c, In c S -> is_block a bs c \/ c + 24 <= a \/ a + span bs <= c + 8.

(** Writes confined to node cells keep all tags of a run. *)
Lemma chain_nodes_frame (m m' : Z -> Z) (a : Z) (bs : blocks) (S : list Z) :
  sizes_ok bs -> chain m a bs -> compat a bs S ->
  (forall y, (forall c, In c S -> far y (c + 8) /\ far y (c + 16)) ->
     ldw m' y = ldw m y) ->
  chain m' a bs.
Proof.
  intros Hs Hc Hcomp F. apply (chain_frame m); [exact Hc|].
  intros d dsz dal Hd.
  destruct (blocks_range _ _ _ _ _ Hs Hd) as (R1 & R2 & R3 & _).
  split; apply F; intros c Hin; destruct (Hcomp c Hin) as [(csz & cal & Hb)|Hout].
  - destruct (blocks_range _ _ _ _ _ Hs Hb) as (_ & _ & R3' & _).
    destruct (blocks_sep _ _ _ _ _ _ _ _ Hs Hd Hb) as [(E & _)|E];
      unfold far; lia.
  - unfold far; lia.
  - destruct (blocks_range _ _ _ _ _ Hs Hb) as (_ & _ & R3' & _).
    destruct (blocks_sep _ _ _ _ _ _ _ _ Hs Hd Hb) as [(E & E' & _)|E];
      unfold far; lia.
  - unfold far; lia.
Qed.

Lemma compat_app_l (a : Z) (l1 l2 : blocks) (S : list Z) :
  sizes_ok (l1 ++ l2) -> compat a (l1 ++ l2) S -> compat a l1 S.
Proof.
  intros Hs H c Hin. apply sizes_ok_app in Hs. destruct Hs as [H1 H2].
  pose proof (span_nonneg _ H1). pose proof (span_nonneg _ H2).
  destruct (H c Hin) as [Hb|Hout].
  - apply is_block_app in Hb. destruct Hb as [Hb|Hb]; [left; exact Hb|].
    apply (is_block_range _ _ _ H2) in Hb. right. lia.
  - rewrite span_app in Hout. right. lia.
Qed.

Lemma compat_app_r (a : Z) (l1 l2 : blocks) (S : list Z) :
  sizes_ok (l1 ++ l2) -> compat a (l1 ++ l2) S -> compat (a + span l1) l2 S.
Proof.
  intros Hs H c Hin. apply sizes_ok_app in Hs. destruct Hs as [H1 H2].
  pose proof (span_nonneg _ H1). pose proof (span_nonneg _ H2).
  destruct (H c Hin) as [Hb|Hout].
  - apply is_block_app in Hb. destruct Hb as [Hb|Hb]; [|left; exact Hb].
    apply (is_block_range _ _ _ H1) in Hb. right. lia.
  - rewrite span_app in Hout. right. lia.
Qed.

(** What a tiling says around one of its blocks. *)
Lemma tiled_mid (s : state) (l1 l2 : blocks) (sz : Z) (al : bool) :
  tiled s (l1 ++ (sz, al) :: l2) ->
  let b := heap_lo s + 8 + span l1 in
  sizes_ok l1 /\ size_ok sz /\ sizes_ok l2 /\
  0 <= span l1 /\ 0 <= span l2 /\
  b + sz + 16 + span l2 = heap_brk s - 8 /\
  chain (mem s) (heap_lo s + 8) l1 /\
  ldw (mem s) b = tag sz al /\ ldw (mem s) (b + sz + 8) = tag sz al /\
  chain (mem s) (b + sz + 16) l2.
Proof.
  intros T b. destruct T as [? ? ? ? Hend ? ? Hs Hc].
  apply sizes_ok_app in Hs. destruct Hs as [H1 H2].
  apply sizes_ok_cons in H2. destruct H2 as [H2 H3].
  apply chain_app in Hc. destruct Hc as [C1 C2].
  cbn [chain] in C2. destruct C2 as (C2 & C3 & C4).
  rewrite span_app in Hend. cbn [span] in Hend.
  pose proof (span_nonneg _ H1). pose proof (span_nonneg _ H3).
  subst b. destruct H2 as [H2 H2'].
  repeat split; try assumption; try lia.
Qed.

(** The footer in front of a block: the prologue or the previous footer. *)
Lemma tiled_block (s : state) (bs : blocks) (c csz : Z) (al : bool) :
  tiled s bs -> In (c, csz, al) (blocks_from (heap_lo s + 8) bs) ->
  ldw (mem s) c = tag csz al /\ ldw (mem s) (c + csz + 8) = tag csz al /\
  size_ok csz /\ heap_lo s + 8 <= c /\ c + csz + 16 <= heap_brk s - 8.
Proof.
  intros T H. destruct (in_blocks_split _ _ _ _ _ H) as (l1 & l2 & -> & ->).
  destruct (tiled_mid _ _ _ _ _ T) as
    (S1 & Sz & S2 & P1 & P2 & P3 & C1 & C2 & C3 & C4).
  repeat split; try assumption; try apply Sz; lia.
Qed.

Lemma tiled_before (s : state) (l1 l2 : blocks) :
  tiled s (l1 ++ l2) ->
  let b := heap_lo s + 8 + span l1 in
  (l1 = [] /\ ldw (mem s) (b - 8) = tag 0 true) \/
  (exists l1' psz pal, l1 = l1' ++ [(psz, pal)] /\ size_ok psz /\
     b - psz - 16 = heap_lo s + 8 + span l1' /\ 0 <= span l1' /\
     ldw (mem s) (b - 8) = tag psz pal /\
     ldw (mem s) (b - psz - 16) = tag psz pal).
Proof.
  intros T b. destruct (blocks_snoc_cases l1) as [->|(l1' & psz & pal & ->)].
  - left. split; [reflexivity|]. subst b. cbn [span].
    replace (heap_lo s + 8 + 0 - 8) with (heap_lo s) by lia. apply T.
  - right. exists l1', psz, pal. rewrite <- app_assoc in T. cbn [app] in T.
    destruct (tiled_mid _ _ _ _ _ T) as (H1 & H2 & H3 & H4 & H5 & H6 & C1 & C2 & C3 & C4).
    subst b. rewrite span_app. cbn [span].
    split; [reflexivity|]. split; [exact H2|]. split; [lia|]. split; [lia|].
    split.
    + rewrite <- C3. f_equal. lia.
    + rewrite <- C2. f_equal. lia.
Qed.

(** The header after a block: the next header or the epilogue. *)
Lemma tiled_after (s : state) (l1 l2 : blocks) :
  tiled s (l1 ++ l2) ->
  let e := heap_lo s + 8 + span l1 in
  exists nsz, ldw (mem s) e = tag nsz (hd_alloc l2) /\ nsz mod 16 = 0 /\
    0 <= nsz /\ e + 8 <= heap_brk s /\
    (l2 = [] -> e = heap_brk s - 8).
Proof.
  intros T e. destruct l2 as [|[nsz nal] l2].
  - exists 0. rewrite app_nil_r in T. destruct T as [? ? ? ? Hend ? Hepi ? ?].
    subst e. rewrite Hend. cbn [hd_alloc].
    split; [exact Hepi|]. split; [reflexivity|]. split; lia.
  - destruct (tiled_mid _ _ _ _ _ T) as (H1 & [H2 H2'] & H3 & H4 & H5 & H6 & C1 & C2 & C3 & C4).
    exists nsz. cbn [hd_alloc]. subst e.
    split; [exact C2|]. split; [exact H2'|]. split; [lia|]. split; [lia|].
    discriminate.
Qed.

Lemma neighbours_spec (s : state) (l1 l2 : blocks) (sz : Z) (al : bool) :
  tiled s (l1 ++ (sz, al) :: l2) ->
  let b := heap_lo s + 8 + span l1 in
  exists pb, neighbours s b = Some (pb, b + sz + 16) /\
    get_allocated s pb = Some (last_alloc l1) /\
    get_allocated s (b + sz + 16) = Some (hd_alloc l2) /\
    (forall l1' psz pal, l1 = l1' ++ [(psz, pal)] -> pb = b - psz - 16).
Proof.
  intros T b.
  pose proof (T_lo _ _ T) as Hlo. pose proof (T_brk _ _ T) as Hbrk.
  pose proof (T_max _ _ T) as Hmax.
  destruct (tiled_mid _ _ _ _ _ T) as
    (H1 & [H2 H2'] & H3 & H4 & H5 & H6 & C1 & C2 & C3 & C4).
  fold b in H6, C2, C3, C4.
  assert (Hnext : get_allocated s (b + sz + 16) = Some (hd_alloc l2)).
  { assert (T' : tiled s ((l1 ++ [(sz, al)]) ++ l2)).
    { rewrite <- app_assoc. exact T. }
    destruct (tiled_after _ _ _ T') as (nsz & E & M & N & B & _).
    rewrite span_app in E, B. cbn [span] in E, B.
    replace (heap_lo s + 8 + (span l1 + (sz + 16 + 0))) with (b + sz + 16) in E, B
      by (subst b; lia).
    apply (get_allocated_ok _ _ nsz); try assumption; subst b; lia. }
  assert (Hnb : next_blk s b = Some (b + sz + 16)).
  { unfold next_blk. rewrite (get_size_ok _ _ sz al) by (try assumption; subst b; lia).
    cbn [bind]. unfold BLK. rewrite padd_small by (subst b; lia).
    f_equal. lia. }
  unfold neighbours, BLK. cbn [Z.opp].
  rewrite (padd_small b (-8)) by (subst b; lia).
  destruct (tiled_before _ _ _ T) as [(-> & E)|(l1' & psz & pal & -> & [P1 P2] & Eb & P3 & E1 & E2)];
    fold b in E || fold b in Eb, E1, E2.
  - rewrite (get_size_ok _ _ 0 true) by (try assumption; try reflexivity; subst b; cbn [span]; lia).
    cbn [bind Z.eqb]. rewrite Hnb. cbn [bind]. unfold NULL.
    exists 0. split; [reflexivity|]. split; [reflexivity|]. split; [exact Hnext|].
    intros l1' psz pal Hc. destruct l1'; discriminate.
  - replace (b + -8) with (b - 8) by lia.
    rewrite (get_size_ok _ _ psz pal) by (try assumption; subst b; lia).
    cbn [bind].
    replace (psz =? 0) with false by (symmetry; apply Z.eqb_neq; lia).
    rewrite (get_size_ok _ _ sz al) by (try assumption; subst b; lia).
    cbn [bind]. rewrite (padd_small b (sz + 8)) by (subst b; lia).
    replace (b + (sz + 8)) with (b + sz + 8) by lia.
    rewrite (get_size_ok _ _ sz al) by (try assumption; subst b; lia).
    cbn [bind].
    replace (sz =? 0) with false by (symmetry; apply Z.eqb_neq; lia).
    rewrite Hnb. cbn [bind].
    unfold prev_blk, BLK. cbn [Z.opp]. rewrite (padd_small b (-8)) by (subst b; lia).
    replace (b + -8) with (b - 8) by lia.
    rewrite (get_size_ok _ _ psz pal) by (try assumption; subst b; lia).
    cbn [bind]. rewrite padd_small by (subst b; lia).
    replace (b + (- psz - 2 * 8)) with (b - psz - 16) by lia.
    exists (b - psz - 16). split; [reflexivity|]. split.
    + rewrite last_alloc_snoc.
      apply (get_allocated_ok _ _ psz); try assumption; lia.
    + split; [exact Hnext|].
      intros l1'' psz' pal' Hc. apply app_inj_tail in Hc.
      destruct Hc as [_ Hc]. inversion Hc. reflexivity.
Qed.

(** ** Geometry shared by the intermediate states of an operation *)

Definition geo (s : state) (bs : blocks) : Prop :=
  0 < heap_lo s /\ heap_lo s mod 16 = 0 /\
  heap_brk s <= heap_max s /\ heap_max s < W /\
  sizes_ok bs /\ heap_lo s + 8 + span bs = heap_brk s - 8.

Lemma tiled_geo (s : state) (bs : blocks) : tiled s bs -> geo s bs.
Proof. intros T. destruct T. repeat split; assumption. Qed.

Lemma geo_same_heap (s s' : state) (bs : blocks) :
  geo s bs -> same_heap s s' -> geo s' bs.
Proof.
  unfold geo, same_heap. intros (? & ? & ? & ? & ? & ?) (E1 & E2 & E3).
  rewrite E1, E2, E3. repeat split; assumption.
Qed.

(** Only node cells of the blocks [S] differ between the two memories. *)
Definition node_frame (S : list Z) (m m' : Z -> Z) : Prop :=
  forall y, (forall c, In c S -> far y (c + 8) /\ far y (c + 16)) ->
    ldw m' y = ldw m y.

Definition members (s : state) (bs : blocks) (fl : list Z) : Prop :=
  forall c, In c fl -> is_block (heap_lo s + 8) bs c.

Lemma members_same_heap (s s' : state) (bs : blocks) (fl : list Z) :
  members s bs fl -> same_heap s s' -> members s' bs fl.
Proof. unfold members. intros H (E & _) c Hc. rewrite E. apply H. exact Hc. Qed.

Lemma members_nodes (s : state) (bs : blocks) (fl : list Z) :
  geo s bs -> members s bs fl -> nodes_in s fl /\ sparse fl.
Proof.
  intros (G1 & G2 & G3 & G4 & G5 & G6) M. split.
  - intros c Hc. pose proof (is_block_range _ _ _ G5 (M c Hc)). lia.
  - intros c c' Hc Hc'.
    destruct (is_block_sep _ _ _ _ G5 (M c Hc) (M c' Hc')) as [E|E]; [left; exact E|right; lia].
Qed.

Lemma members_compat (s : state) (bs : blocks) (fl : list Z) :
  members s bs fl -> compat (heap_lo s + 8) bs fl.
Proof. intros M c Hc. left. apply M. exact Hc. Qed.

(** Unlinking a block of the list. *)
Lemma unlink_spec (s : state) (bs : blocks) (fl : list Z) (x : Z) :
  geo s bs -> linked s fl -> members s bs fl -> In x fl ->
  exists s1 fl1, remove_node s x = Some s1 /\ same_heap s s1 /\
    linked s1 fl1 /\ (forall c, In c fl1 <-> In c fl /\ c <> x) /\
    node_frame fl1 (mem s) (mem s1).
Proof.
  intros G [K1 K2 K3] M Hx.
  destruct (members_nodes _ _ _ G M) as [Hn Hsp].
  destruct G as (G1 & G2 & G3 & G4 & G5 & G6).
  destruct (in_split _ _ Hx) as (f1 & f2 & ->).
  destruct (remove_node_spec s G1 ltac:(lia) f1 f2 x K1 K2 K3 Hsp Hn)
    as (s1 & E & SH & F1 & D1 & Fr).
  destruct (NoDup_mid _ _ _ K3) as (N1 & N2 & N3 & N4 & N5 & N6).
  exists s1, (f1 ++ f2). split; [exact E|]. split; [exact SH|].
  split; [constructor; assumption|]. split; [|exact Fr].
  intros c. rewrite !in_app_iff. cbn [In]. split.
  - intros [H|H]; split; auto.
  - intros [[H|[H|H]] Hne]; auto. congruence.
Qed.

(** Pushing a block on the list. *)
Lemma push_spec (s : state) (bs : blocks) (fl : list Z) (b : Z) :
  geo s bs -> linked s fl -> members s bs fl ->
  is_block (heap_lo s + 8) bs b -> ~ In b fl ->
  exists s1, add_node s b = Some s1 /\ same_heap s s1 /\
    linked s1 (b :: fl) /\ node_frame (b :: fl) (mem s) (mem s1).
Proof.
  intros G [K1 K2 K3] M Hb Hnin.
  destruct (members_nodes _ _ _ G M) as [Hn Hsp].
  destruct G as (G1 & G2 & G3 & G4 & G5 & G6).
  pose proof (is_block_range _ _ _ G5 Hb) as Rb.
  assert (Hsep : forall c, In c fl -> c + 16 <= b \/ b + 16 <= c).
  { intros c Hc. destruct (is_block_sep _ _ _ _ G5 (M c Hc) Hb) as [E|E]; [|lia].
    subst c. contradiction. }
  destruct (add_node_spec s G1 ltac:(lia) fl b K1 K2 K3 Hsp Hn ltac:(lia) ltac:(lia) Hsep)
    as (s1 & E & SH & F1 & D1 & Fr).
  exists s1. split; [exact E|]. split; [exact SH|].
  split.
  - constructor; [exact D1|exact F1|]. constructor; assumption.
  - intros y Y. destruct (Y b (or_introl eq_refl)) as [Y1 Y2].
    apply Fr; [exact Y1|exact Y2|].
    intros c Hc. apply (Y c (or_intror Hc)).
Qed.

(** Node writes inside blocks of a tiling keep the tiling. *)
Lemma tiled_node_frame (s s1 : state) (bs : blocks) (S : list Z) :
  tiled s bs -> same_heap s s1 -> members s bs S ->
  node_frame S (mem s) (mem s1) -> tiled s1 bs.
Proof.
  intros T (E1 & E2 & E3) M Fr.
  pose proof (tiled_geo _ _ T) as (G1 & G2 & G3 & G4 & G5 & G6).
  destruct T as [? ? ? ? ? Hp He ? Hc].
  constructor; rewrite ?E1, ?E2, ?E3; try assumption.
  - rewrite Fr; [exact Hp|]. intros c Hc'.
    pose proof (is_block_range _ _ _ G5 (M c Hc')). unfold far. lia.
  - rewrite Fr; [exact He|]. intros c Hc'.
    pose proof (is_block_range _ _ _ G5 (M c Hc')). unfold far. lia.
  - apply (chain_nodes_frame (mem s) _ _ _ S); try assumption.
    apply members_compat. exact M.
Qed.

(** A tag write away from all node cells keeps the list. *)
Lemma linked_stw (s : state) (fl : list Z) (y v : Z) :
  linked s fl ->
  (forall c, In c fl -> far y (c + 8) /\ far y (c + 16)) ->
  linked (set_mem s (stw (mem s) y v)) fl.
Proof.
  intros [K1 K2 K3] F. constructor; st_simpl; try assumption.
  apply (dllseg_frame (mem s)); [exact K1|].
  intros c Hc. destruct (F c Hc) as [F1 F2]. unfold far in *.
  split; mem_simpl; reflexivity.
Qed.

Lemma linked_node_frame_id (s s' : state) (fl : list Z) :
  linked s fl -> first s' = first s ->
  (forall c, In c fl ->
     ldw (mem s') (c + 8) = ldw (mem s) (c + 8) /\
     ldw (mem s') (c + 16) = ldw (mem s) (c + 16)) ->
  linked s' fl.
Proof.
  intros [K1 K2 K3] E F. constructor; try assumption; [|congruence].
  apply (dllseg_frame (mem s)); assumption.
Qed.

(** Rewriting the tags of a run of blocks as one block of the same extent. *)
Lemma retag_tiled (s : state) (l1 mid l2 : blocks) (sz' : Z) (al' : bool) :
  tiled s (l1 ++ mid ++ l2) -> mid <> [] -> sz' = span mid - 16 ->
  let b := heap_lo s + 8 + span l1 in
  let v := tag sz' al' in
  tiled (set_mem s (stw (stw (mem s) b v) (b + sz' + 8) v))
        (l1 ++ (sz', al') :: l2).
Proof.
  intros T Hne -> b v.
  pose proof (tiled_geo _ _ T) as (G1 & G2 & G3 & G4 & G5 & G6).
  apply sizes_ok_app in G5. destruct G5 as [S1 S23].
  apply sizes_ok_app in S23. destruct S23 as [S2 S3].
  pose proof (span_nonneg _ S1). pose proof (span_nonneg _ S3).
  pose proof (span_mod16 _ S2) as Hm.
  assert (Hge : 32 <= span mid).
  { pose proof (span_ge_length _ S2). destruct mid; [congruence|]. cbn [length] in *. lia. }
  rewrite !span_app in G6.
  assert (Hso : size_ok (span mid - 16)).
  { split; [lia|]. rewrite Zminus_mod, Hm. reflexivity. }
  destruct T as [? ? ? ? ? Hp He ? Hc].
  apply chain_app in Hc. destruct Hc as [C1 C23].
  apply chain_app in C23. destruct C23 as [C2 C3].
  assert (Hv : 0 <= v < W).
  { apply tag_range; [apply Hso|lia|lia]. }
  constructor; st_simpl; try assumption.
  - rewrite span_app. cbn [span]. lia.
  - subst b. mem_simpl. exact Hp.
  - subst b. mem_simpl. exact He.
  - apply sizes_ok_app. split; [exact S1|]. apply sizes_ok_cons. split; assumption.
  - apply chain_app. split.
    + apply chain_stw_out; [exact S1| |subst b; lia].
      apply chain_stw_out; [exact S1|exact C1|subst b; lia].
    + cbn [chain]. fold b. split; [|split].
      * mem_simpl. reflexivity.
      * mem_simpl. reflexivity.
      * replace (b + (span mid - 16) + 16) with (heap_lo s + 8 + span l1 + span mid)
          by (subst b; lia).
        apply chain_stw_out; [exact S3| |subst b; lia].
        apply chain_stw_out; [exact S3|exact C3|subst b; lia].
Qed.

(** Header addresses and sizes of the allocated blocks. *)
Fixpoint alloc_blocks (a : Z) (bs : blocks) : list (Z * Z) :=
  match bs with
  | [] => []
  | (sz, al) :: r =>
      (if al then [(a, sz)] else []) ++ alloc_blocks (a + sz + 16) r
  end.

Lemma alloc_blocks_app (l1 l2 : blocks) : forall a,
  alloc_blocks a (l1 ++ l2) = alloc_blocks a l1 ++ alloc_blocks (a + span l1) l2.
Proof.
  induction l1 as [|[sz al] l1 IH]; intros a; cbn [alloc_blocks span app].
  - rewrite Z.add_0_r. reflexivity.
  - rewrite IH. rewrite <- app_assoc. do 3 f_equal. lia.
Qed.

Lemma in_alloc_blocks (bs : blocks) : forall a c csz,
  In (c, csz) (alloc_blocks a bs) <-> In (c, csz, true) (blocks_from a bs).
Proof.
  induction bs as [|[sz al] r IH]; intros a c csz; cbn [alloc_blocks blocks_from].
  - tauto.
  - rewrite in_app_iff, IH. cbn [In]. split.
    + intros [H|H]; [|right; exact H].
      destruct al; [|destruct H]. destruct H as [H|[]]. inversion H. left. reflexivity.
    + intros [H|H]; [|right; exact H].
      inversion H; subst. left. left. reflexivity.
Qed.

(** The list holds exactly the free blocks of the runs on both sides of a
    region that ends at [e]. *)
Definition around (s : state) (l1 : blocks) (e : Z) (l2 : blocks) (fl : list Z) : Prop :=
  forall c, In c fl <->
    In c (free_addrs (heap_lo s + 8) l1) \/ In c (free_addrs e l2).

Lemma around_located (s : state) (l1 mid l2 : blocks) (fl : list Z) :
  geo s (l1 ++ mid ++ l2) ->
  around s l1 (heap_lo s + 8 + span l1 + span mid) l2 fl ->
  members s (l1 ++ mid ++ l2) fl /\
  (forall c, In c fl ->
     (heap_lo s + 8 <= c /\ c + 32 <= heap_lo s + 8 + span l1) \/
     (heap_lo s + 8 + span l1 + span mid <= c /\ c + 32 <= heap_brk s - 8)).
Proof.
  intros (G1 & G2 & G3 & G4 & G5 & G6) A.
  apply sizes_ok_app in G5. destruct G5 as [S1 S23].
  apply sizes_ok_app in S23. destruct S23 as [S2 S3].
  rewrite !span_app in G6.
  split.
  - intros c Hc. apply A in Hc. apply is_block_app. destruct Hc as [Hc|Hc].
    + left. apply free_is_block. exact Hc.
    + right. apply is_block_app. right.
      apply free_is_block. exact Hc.
  - intros c Hc. apply A in Hc. destruct Hc as [Hc|Hc].
    + left. apply (free_addrs_range _ _ _ S1) in Hc. lia.
    + right. apply (free_addrs_range _ _ _ S3) in Hc. lia.
Qed.

(** Case 1 of [coalesce], and the last step of the other three: the block
    goes to the head of the list. *)
Lemma insert_frame (s : state) (l1 l2 : blocks) (sz : Z) (fl : list Z) :
  tiled s (l1 ++ (sz, false) :: l2) -> linked s fl ->
  let b := heap_lo s + 8 + span l1 in
  around s l1 (b + sz + 16) l2 fl ->
  adj_ok l1 -> adj_ok l2 -> last_alloc l1 = true -> hd_alloc l2 = true ->
  exists s', add_node s b = Some s' /\ same_heap s s' /\
    layout s' (l1 ++ (sz, false) :: l2) (b :: fl) /\
    node_frame (b :: fl) (mem s) (mem s').
Proof.
  intros T K b A A1 A2 La Ha.
  pose proof (tiled_geo _ _ T) as G.
  change (l1 ++ (sz, false) :: l2) with (l1 ++ [(sz, false)] ++ l2) in G.
  assert (A' : around s l1 (heap_lo s + 8 + span l1 + span [(sz, false)]) l2 fl).
  { cbn [span]. replace (heap_lo s + 8 + span l1 + (sz + 16 + 0)) with (b + sz + 16)
      by (subst b; lia). exact A. }
  destruct (around_located _ _ _ _ _ G A') as [M Loc].
  cbn [span app] in *.
  assert (Hb : is_block (heap_lo s + 8) (l1 ++ (sz, false) :: l2) b).
  { exists sz, false. apply in_blocks_mid. }
  assert (Hnin : ~ In b fl).
  { intros Hin. destruct (Loc b Hin); subst b.
    - lia.
    - destruct G as (_ & _ & _ & _ & G5 & _). apply sizes_ok_app in G5.
      destruct G5 as [_ G5]. apply sizes_ok_cons in G5. destruct G5 as [[? ?] _]. lia. }
  destruct (push_spec _ _ _ _ G K M Hb Hnin) as (s' & E & SH & K' & Fr).
  exists s'. split; [exact E|]. split; [exact SH|].
  assert (M' : members s (l1 ++ (sz, false) :: l2) (b :: fl)).
  { intros c [<-|Hc]; [exact Hb|apply M; exact Hc]. }
  split; [|exact Fr].
  constructor.
  - apply (tiled_node_frame s s' _ (b :: fl)); assumption.
  - exact K'.
  - destruct SH as (E1 & _). rewrite E1.
    intros c. rewrite free_addrs_app. cbn [free_addrs In app].
    rewrite in_app_iff. cbn [In]. fold b. rewrite (A c). tauto.
  - apply adj_ok_app. cbn [adj_ok hd_alloc orb]. rewrite La, Ha. auto.
  - destruct l1; discriminate.
Qed.

Lemma insert_spec (s : state) (l1 l2 : blocks) (sz : Z) (fl : list Z) :
  tiled s (l1 ++ (sz, false) :: l2) -> linked s fl ->
  let b := heap_lo s + 8 + span l1 in
  around s l1 (b + sz + 16) l2 fl ->
  adj_ok l1 -> adj_ok l2 -> last_alloc l1 = true -> hd_alloc l2 = true ->
  exists s', add_node s b = Some s' /\ same_heap s s' /\
    layout s' (l1 ++ (sz, false) :: l2) (b :: fl).
Proof.
  intros T K b A A1 A2 La Ha.
  destruct (insert_frame s l1 l2 sz fl T K A A1 A2 La Ha) as (s' & E & SH & L & _).
  exists s'. auto.
Qed.

(** Cases 2 to 4 of [coalesce] after the neighbours have left the list: the
    merged block gets its tags and goes to the head of the list. *)
Lemma merge_frame (s : state) (l1 mid l2 : blocks) (sz' : Z) (fl : list Z) :
  tiled s (l1 ++ mid ++ l2) -> mid <> [] -> sz' = span mid - 16 ->
  linked s fl ->
  let b := heap_lo s + 8 + span l1 in
  around s l1 (b + span mid) l2 fl ->
  adj_ok l1 -> adj_ok l2 -> last_alloc l1 = true -> hd_alloc l2 = true ->
  exists s',
    (s2 <- write_value s b (lsb_a sz' 0) ;;
     s3 <- write_value s2 (padd b (sz' + BLK)) (lsb_a sz' 0) ;;
     add_node s3 b) = Some s' /\
    same_heap s s' /\ layout s' (l1 ++ (sz', false) :: l2) (b :: fl) /\
    (forall y, far y b -> far y (b + sz' + 8) ->
       (forall c, In c (b :: fl) -> far y (c + 8) /\ far y (c + 16)) ->
       ldw (mem s') y = ldw (mem s) y).
Proof.
  intros T Hne Esz K b A A1 A2 La Ha.
  pose proof (tiled_geo _ _ T) as G.
  destruct (around_located _ _ _ _ _ G A) as [M Loc].
  pose proof G as (G1 & G2 & G3 & G4 & G5 & G6).
  apply sizes_ok_app in G5. destruct G5 as [S1 S23].
  apply sizes_ok_app in S23. destruct S23 as [S2 S3].
  pose proof (span_nonneg _ S1). pose proof (span_nonneg _ S3).
  assert (Hge : 32 <= span mid).
  { pose proof (span_ge_length _ S2). destruct mid; [congruence|]. cbn [length] in *. lia. }
  rewrite !span_app in G6.
  pose proof (retag_tiled s l1 mid l2 sz' false T Hne Esz) as T'.
  cbv zeta in T'. fold b in T'.
  unfold write_value, BLK. change (lsb_a sz' 0) with (tag sz' false).
  rewrite store_ok by (subst b; lia). st_simpl.
  rewrite padd_small by (subst b; lia).
  replace (b + (sz' + 8)) with (b + sz' + 8) by lia.
  rewrite store_ok by (st_simpl; subst b; lia). st_simpl.
  set (s3 := set_mem (set_mem s (stw (mem s) b (tag sz' false)))
               (stw (stw (mem s) b (tag sz' false)) (b + sz' + 8) (tag sz' false))).
  assert (K3 : linked s3 fl).
  { subst s3. apply linked_stw.
    - apply linked_stw; [exact K|].
      intros c Hc. destruct (Loc c Hc); unfold far; subst b; lia.
    - intros c Hc. destruct (Loc c Hc); unfold far; subst b; lia. }
  assert (T3 : tiled s3 (l1 ++ (sz', false) :: l2)) by exact T'.
  assert (A3 : around s3 l1 (heap_lo s3 + 8 + span l1 + sz' + 16) l2 fl).
  { subst s3. st_simpl. replace (heap_lo s + 8 + span l1 + sz' + 16) with (b + span mid)
      by (subst b; lia). exact A. }
  destruct (insert_frame s3 l1 l2 sz' fl T3 K3 A3 A1 A2 La Ha) as (s' & E & SH & L & Fr).
  exists s'. split; [exact E|]. split; [exact SH|]. split; [exact L|].
  intros y Y1 Y2 Y3. change (heap_lo s3) with (heap_lo s) in Fr. fold b in Fr.
  rewrite (Fr y Y3). subst s3. st_simpl. unfold far in Y1, Y2.
  mem_simpl. reflexivity.
Qed.

Lemma merge_spec (s : state) (l1 mid l2 : blocks) (sz' : Z) (fl : list Z) :
  tiled s (l1 ++ mid ++ l2) -> mid <> [] -> sz' = span mid - 16 ->
  linked s fl ->
  let b := heap_lo s + 8 + span l1 in
  around s l1 (b + span mid) l2 fl ->
  adj_ok l1 -> adj_ok l2 -> last_alloc l1 = true -> hd_alloc l2 = true ->
  exists s',
    (s2 <- write_value s b (lsb_a sz' 0) ;;
     s3 <- write_value s2 (padd b (sz' + BLK)) (lsb_a sz' 0) ;;
     add_node s3 b) = Some s' /\
    same_heap s s' /\ layout s' (l1 ++ (sz', false) :: l2) (b :: fl).
Proof.
  intros T Hne Esz K b A A1 A2 La Ha.
  destruct (merge_frame s l1 mid l2 sz' fl T Hne Esz K A A1 A2 La Ha)
    as (s' & E & SH & L & _).
  exists s'. auto.
Qed.

Lemma last_alloc_false (l : blocks) :
  last_alloc l = false -> exists l' psz, l = l' ++ [(psz, false)].
Proof.
  intros H. destruct (blocks_snoc_cases l) as [->|(l' & psz & pal & ->)].
  - discriminate.
  - rewrite last_alloc_snoc in H. subst pal. exists l', psz. reflexivity.
Qed.

Lemma hd_alloc_false (l : blocks) :
  hd_alloc l = false -> exists nsz l', l = (nsz, false) :: l'.
Proof.
  destruct l as [|[nsz nal] l']; cbn [hd_alloc]; intros H; [discriminate|].
  subst nal. exists nsz, l'. reflexivity.
Qed.

Lemma adj_ok_snoc_free (l : blocks) (psz : Z) :
  adj_ok (l ++ [(psz, false)]) -> adj_ok l /\ last_alloc l = true.
Proof.
  intros H. apply adj_ok_app in H. destruct H as (H1 & _ & H3).
  cbn [hd_alloc] in H3. rewrite orb_false_r in H3. auto.
Qed.

Lemma adj_ok_cons_free (l : blocks) (nsz : Z) :
  adj_ok ((nsz, false) :: l) -> adj_ok l /\ hd_alloc l = true.
Proof. cbn [adj_ok orb]. tauto. Qed.

(** [coalesce] on a free block that is not in the list, in a heap that is
    well formed on both sides of it: the block and its free neighbours become
    one block at the head of the list. *)
Lemma coalesce_frame (s : state) (l1 l2 : blocks) (sz : Z) (fl : list Z) :
  tiled s (l1 ++ (sz, false) :: l2) -> linked s fl ->
  let b := heap_lo s + 8 + span l1 in
  around s l1 (b + sz + 16) l2 fl ->
  adj_ok l1 -> adj_ok l2 ->
  exists s' bs' fl' b' sz',
    coalesce s b = Some s' /\ same_heap s s' /\ layout s' bs' fl' /\
    hd_node fl' 0 = b' + 8 /\
    In (b', sz', false) (blocks_from (heap_lo s + 8) bs') /\ sz <= sz' /\
    (last_alloc l1 = true -> b' = b) /\
    (forall l1' psz, l1 = l1' ++ [(psz, false)] -> b' = b - psz - 16) /\
    alloc_blocks (heap_lo s + 8) bs' =
      alloc_blocks (heap_lo s + 8) (l1 ++ (sz, false) :: l2) /\
    b' <= b /\
    (hd_alloc l2 = true -> b' + sz' = b + sz) /\
    (forall nsz l2', l2 = (nsz, false) :: l2' -> b' + sz' = b + sz + nsz + 16) /\
    (exists m1 m2, bs' = m1 ++ (sz', false) :: m2 /\
       span m1 = b' - (heap_lo s + 8) /\
       (last_alloc l1 = true -> m1 = l1) /\
       (hd_alloc l2 = true -> m2 = l2) /\
       (forall l1' psz, l1 = l1' ++ [(psz, false)] -> m1 = l1') /\
       (forall nsz l2', l2 = (nsz, false) :: l2' -> m2 = l2')) /\
    (forall c, In c fl' -> c = b' \/ In c fl) /\
    (forall y, far y b' -> far y (b' + sz' + 8) ->
       (forall c, In c (b :: fl) -> far y (c + 8) /\ far y (c + 16)) ->
       ldw (mem s') y = ldw (mem s) y).
Proof.
  intros T K b A A1 A2.
  pose proof (tiled_geo _ _ T) as G.
  pose proof G as (G1 & G2 & G3 & G4 & G5 & G6).
  destruct (tiled_mid _ _ _ _ _ T) as
    (S1 & [Sz1 Sz2] & S2 & P1 & P2 & P3 & C1 & C2 & C3 & C4).
  fold b in P3, C2, C3, C4.
  destruct (neighbours_spec _ _ _ _ _ T) as (pb & En & Eprev & Enext & Hpb).
  fold b in En, Eprev, Enext, Hpb.
  assert (Esz : get_size s b = Some sz).
  { apply (get_size_ok _ _ sz false); try assumption; subst b; lia. }
  assert (A' : around s l1 (heap_lo s + 8 + span l1 + span [(sz, false)]) l2 fl).
  { cbn [span]. replace (heap_lo s + 8 + span l1 + (sz + 16 + 0)) with (b + sz + 16)
      by (subst b; lia). exact A. }
  change (l1 ++ (sz, false) :: l2) with (l1 ++ [(sz, false)] ++ l2) in G.
  destruct (around_located _ _ _ _ _ G A') as [M Loc].
  cbn [app span] in M, Loc, G. clear A'.
  destruct (last_alloc l1) eqn:La; destruct (hd_alloc l2) eqn:Ha.
  - (* both neighbours allocated *)
    destruct (insert_frame s l1 l2 sz fl T K A A1 A2 La Ha) as (s' & E & SH & L & Fr).
    fold b in E, L, Fr.
    exists s', (l1 ++ (sz, false) :: l2), (b :: fl), b, sz.
    split.
    { unfold coalesce. rewrite En. cbn [bind]. rewrite Esz, Eprev, Enext.
      cbn [bind andb]. exact E. }
    split; [exact SH|]. split; [exact L|].
    split; [reflexivity|]. split; [apply in_blocks_mid|]. split; [lia|]. split; [reflexivity|].
    split.
    { intros l1' psz Hl. subst l1. rewrite last_alloc_snoc in La. discriminate. }
    split; [reflexivity|]. split; [lia|]. split; [intros _; lia|].
    split; [intros nsz l2' Hl; subst l2; discriminate|].
    split.
    { exists l1, l2. split; [reflexivity|]. split; [subst b; lia|].
      split; [reflexivity|]. split; [reflexivity|]. split.
      - intros l1' psz Hl. subst l1. rewrite last_alloc_snoc in La. discriminate.
      - intros nsz l2' Hl. subst l2. discriminate. }
    split; [intros c [<-|Hc]; auto|].
    intros y _ _ Y3. apply Fr. exact Y3.
  - (* next free *)
    destruct (hd_alloc_false _ Ha) as (nsz & l2' & ->).
    destruct (adj_ok_cons_free _ _ A2) as [A2' Ha'].
    apply sizes_ok_cons in S2. destruct S2 as [[Sn1 Sn2] S2].
    cbn [chain] in C4. destruct C4 as (C4 & C5 & C6).
    cbn [span] in P2, P3. pose proof (span_nonneg _ S2).
    assert (Ensz : get_size s (b + sz + 16) = Some nsz).
    { apply (get_size_ok _ _ nsz false); try assumption; subst b; lia. }
    assert (Hnb : In (b + sz + 16) fl).
    { apply A. right. cbn [free_addrs app]. left. reflexivity. }
    destruct (unlink_spec _ _ _ _ G K M Hnb) as (s1 & fl1 & Er & SH1 & K1 & Mem1 & Fr1).
    assert (M1 : members s (l1 ++ (sz, false) :: (nsz, false) :: l2') fl1).
    { intros c Hc. apply M. apply Mem1 in Hc. apply Hc. }
    pose proof (tiled_node_frame _ _ _ _ T SH1 M1 Fr1) as T1.
    pose proof SH1 as (E1 & E2 & E3).
    assert (A1' : around s1 l1
              (heap_lo s1 + 8 + span l1 + span [(sz, false); (nsz, false)]) l2' fl1).
    { intros c. rewrite Mem1, (A c), E1. cbn [free_addrs app In span]. fold b.
      replace (b + (sz + 16 + (nsz + 16 + 0))) with (b + sz + 16 + nsz + 16) by lia.
      split.
      - intros [[H1|[H1|H1]] Hne]; [left; exact H1|congruence|right; exact H1].
      - intros [H1|H1].
        + split; [left; exact H1|].
          apply (free_addrs_range _ _ _ S1) in H1. subst b. lia.
        + split; [right; right; exact H1|].
          apply (free_addrs_range _ _ _ S2) in H1. lia. }
    destruct (merge_frame s1 l1 [(sz, false); (nsz, false)] l2' (sz + nsz + 16) fl1
                T1 ltac:(discriminate) ltac:(cbn [span]; lia) K1 A1' A1 A2' La Ha')
      as (s' & E & SH & L & Frm).
    rewrite E1 in E, Frm. fold b in E, Frm.
    exists s', (l1 ++ (sz + nsz + 16, false) :: l2'), (b :: fl1), b, (sz + nsz + 16).
    split.
    { unfold coalesce. rewrite En. cbn [bind]. rewrite Esz, Eprev, Enext.
      cbn [bind andb negb]. rewrite Ensz. cbn [bind]. rewrite Er. cbn [bind].
      unfold BLK in *. rewrite (wrap_small (nsz + 2 * 8)) by lia.
      rewrite (wrap_small (sz + (nsz + 2 * 8))) by (subst b; lia).
      replace (sz + (nsz + 2 * 8)) with (sz + nsz + 16) by lia. exact E. }
    split; [exact (same_heap_trans _ _ _ SH1 SH)|].
    split; [rewrite E1 in L; exact L|].
    split; [reflexivity|]. split; [apply in_blocks_mid|]. split; [lia|]. split; [reflexivity|].
    split.
    { intros l1' psz Hl. subst l1. rewrite last_alloc_snoc in La. discriminate. }
    split.
    { rewrite !alloc_blocks_app. cbn [alloc_blocks app]. do 2 f_equal. lia. }
    split; [lia|]. split; [intros Hx; discriminate|].
    split; [intros nsz0 l20 Hl; inversion Hl; lia|].
    split.
    { exists l1, l2'. split; [reflexivity|]. split; [subst b; lia|].
      split; [reflexivity|]. split; [intros Hx; discriminate|]. split.
      - intros l1' psz Hl. subst l1. rewrite last_alloc_snoc in La. discriminate.
      - intros nsz0 l20 Hl. inversion Hl. reflexivity. }
    split; [intros c [<-|Hc]; [left; reflexivity|right; apply Mem1 in Hc; apply Hc]|].
    intros y Y1 Y2 Y3.
    rewrite (Frm y Y1 Y2).
    + apply Fr1. intros c Hc. apply Y3. right. apply Mem1 in Hc. apply Hc.
    + intros c [<-|Hc]; [apply Y3; left; reflexivity|].
      apply Y3. right. apply Mem1 in Hc. apply Hc.
  - (* previous free *)
    destruct (last_alloc_false _ La) as (l1' & psz & ->).
    destruct (adj_ok_snoc_free _ _ A1) as [A1' La'].
    apply sizes_ok_app in S1. destruct S1 as [S1 Sp].
    apply sizes_ok_cons in Sp. destruct Sp as [[Sp1 Sp2] _].
    apply chain_app in C1. destruct C1 as [C0 Cp]. cbn [chain] in Cp.
    destruct Cp as (Cp1 & Cp2 & _).
    pose proof (span_nonneg _ S1).
    assert (Eb : b = heap_lo s + 8 + span l1' + psz + 16).
    { subst b. rewrite span_app. cbn [span]. lia. }
    specialize (Hpb l1' psz false eq_refl).
    remember (heap_lo s + 8 + span l1') as p eqn:Ep in *.
    assert (Epb : pb = p) by lia. clear Hpb. subst pb.
    assert (Epsz : get_size s p = Some psz).
    { apply (get_size_ok _ _ psz false); try assumption; subst p; lia. }
    assert (Hp : In p fl).
    { apply A. left. rewrite free_addrs_app. apply in_or_app. right.
      cbn [free_addrs app]. left. lia. }
    destruct (unlink_spec _ _ _ _ G K M Hp) as (s1 & fl1 & Er & SH1 & K1 & Mem1 & Fr1).
    assert (M1 : members s ((l1' ++ [(psz, false)]) ++ (sz, false) :: l2) fl1).
    { intros c Hc. apply M. apply Mem1 in Hc. apply Hc. }
    pose proof (tiled_node_frame _ _ _ _ T SH1 M1 Fr1) as T1.
    rewrite <- app_assoc in T1.
    pose proof SH1 as (E1 & E2 & E3).
    assert (A1'' : around s1 l1'
              (heap_lo s1 + 8 + span l1' + span [(psz, false); (sz, false)]) l2 fl1).
    { intros c. rewrite Mem1, (A c), E1. rewrite free_addrs_app.
      cbn [free_addrs app In span]. rewrite <- Ep. rewrite in_app_iff. cbn [In].
      replace (p + (psz + 16 + (sz + 16 + 0))) with (b + sz + 16) by lia.
      split.
      - intros [[[H1|[H1|H1]]|H1] Hne];
          [left; exact H1|congruence|destruct H1|right; exact H1].
      - intros [H1|H1].
        + split; [left; left; exact H1|].
          apply (free_addrs_range _ _ _ S1) in H1. subst p. lia.
        + split; [right; exact H1|].
          apply (free_addrs_range _ _ _ S2) in H1. lia. }
    destruct (merge_frame s1 l1' [(psz, false); (sz, false)] l2 (sz + psz + 16) fl1
                T1 ltac:(discriminate) ltac:(cbn [span]; lia) K1 A1'' A1' A2 La' Ha)
      as (s' & E & SH & L & Frm).
    rewrite E1, <- Ep in E, Frm.
    exists s', (l1' ++ (sz + psz + 16, false) :: l2), (p :: fl1), p, (sz + psz + 16).
    split.
    { unfold coalesce. rewrite En. cbn [bind]. rewrite Esz, Eprev, Enext.
      cbn [bind andb negb]. rewrite Epsz. cbn [bind]. rewrite Er. cbn [bind].
      unfold BLK in *. rewrite (wrap_small (psz + 2 * 8)) by lia.
      rewrite (wrap_small (sz + (psz + 2 * 8))) by (subst b; lia).
      replace (sz + (psz + 2 * 8)) with (sz + psz + 16) by lia. exact E. }
    split; [exact (same_heap_trans _ _ _ SH1 SH)|].
    split; [rewrite E1, <- Ep in L; exact L|].
    split; [reflexivity|]. split; [rewrite Ep; apply in_blocks_mid|]. split; [lia|]. split; [discriminate|].
    split.
    { intros l1'' psz' Hl. apply app_inj_tail in Hl. destruct Hl as [_ Hl].
      inversion Hl. lia. }
    split.
    { rewrite <- app_assoc. rewrite !alloc_blocks_app. cbn [alloc_blocks app span].
      do 2 f_equal. lia. }
    split; [lia|]. split; [intros _; lia|].
    split; [intros nsz0 l20 Hl; subst l2; discriminate|].
    split.
    { exists l1', l2. split; [reflexivity|]. split; [lia|].
      split; [intros Hx; discriminate|]. split; [reflexivity|]. split.
      - intros l1'' psz' Hl. apply app_inj_tail in Hl. destruct Hl as [Hl _].
        exact Hl.
      - intros nsz0 l20 Hl. subst l2. discriminate. }
    split; [intros c [<-|Hc]; [left; reflexivity|right; apply Mem1 in Hc; apply Hc]|].
    intros y Y1 Y2 Y3.
    rewrite (Frm y Y1 Y2).
    + apply Fr1. intros c Hc. apply Y3. right. apply Mem1 in Hc. apply Hc.
    + intros c [<-|Hc]; [apply Y3; right; exact Hp|].
      apply Y3. right. apply Mem1 in Hc. apply Hc.
  - (* both free *)
    destruct (last_alloc_false _ La) as (l1' & psz & ->).
    destruct (adj_ok_snoc_free _ _ A1) as [A1' La'].
    destruct (hd_alloc_false _ Ha) as (nsz & l2' & ->).
    destruct (adj_ok_cons_free _ _ A2) as [A2' Ha'].
    apply sizes_ok_cons in S2. destruct S2 as [[Sn1 Sn2] S2].
    cbn [chain] in C4. destruct C4 as (C4 & C5 & C6).
    cbn [span] in P2, P3. pose proof (span_nonneg _ S2).
    apply sizes_ok_app in S1. destruct S1 as [S1 Sp].
    apply sizes_ok_cons in Sp. destruct Sp as [[Sp1 Sp2] _].
    apply chain_app in C1. destruct C1 as [C0 Cp]. cbn [chain] in Cp.
    destruct Cp as (Cp1 & Cp2 & _).
    pose proof (span_nonneg _ S1).
    assert (Eb : b = heap_lo s + 8 + span l1' + psz + 16).
    { subst b. rewrite span_app. cbn [span]. lia. }
    specialize (Hpb l1' psz false eq_refl).
    remember (heap_lo s + 8 + span l1') as p eqn:Ep in *.
    assert (Epb : pb = p) by lia. clear Hpb. subst pb.
    assert (Epsz : get_size s p = Some psz).
    { apply (get_size_ok _ _ psz false); try assumption; subst p; lia. }
    assert (Ensz : get_size s (b + sz + 16) = Some nsz).
    { apply (get_size_ok _ _ nsz false); try assumption; subst b; lia. }
    assert (Hp : In p fl).
    { apply A. left. rewrite free_addrs_app. apply in_or_app. right.
      cbn [free_addrs app]. left. lia. }
    assert (Hnb : In (b + sz + 16) fl).
    { apply A. right. cbn [free_addrs app]. left. reflexivity. }
    destruct (unlink_spec _ _ _ _ G K M Hp) as (s1 & fl1 & Er & SH1 & K1 & Mem1 & Fr1).
    set (T0 := (l1' ++ [(psz, false)]) ++ (sz, false) :: (nsz, false) :: l2') in *.
    assert (M1 : members s T0 fl1).
    { intros c Hc. apply M. apply Mem1 in Hc. apply Hc. }
    pose proof (tiled_node_frame _ _ _ _ T SH1 M1 Fr1) as T1.
    pose proof SH1 as (E1 & E2 & E3).
    assert (Hnb1 : In (b + sz + 16) fl1).
    { apply Mem1. split; [exact Hnb|]. lia. }
    destruct (unlink_spec s1 T0 fl1 (b + sz + 16)
                (geo_same_heap _ _ _ G SH1) K1
                (members_same_heap _ _ _ _ M1 SH1) Hnb1)
      as (s2 & fl2 & Er2 & SH2 & K2 & Mem2 & Fr2).
    assert (M2 : members s1 T0 fl2).
    { intros c Hc. apply (members_same_heap _ _ _ _ M1 SH1). apply Mem2 in Hc. apply Hc. }
    pose proof (tiled_node_frame _ _ _ _ T1 SH2 M2 Fr2) as T2.
    subst T0. rewrite <- app_assoc in T2.
    pose proof SH2 as (E1' & E2' & E3').
    assert (A2'' : around s2 l1'
              (heap_lo s2 + 8 + span l1' +
                 span [(psz, false); (sz, false); (nsz, false)]) l2' fl2).
    { intros c. rewrite Mem2, Mem1, (A c), E1', E1. rewrite free_addrs_app.
      cbn [free_addrs app In span]. rewrite <- Ep. rewrite in_app_iff. cbn [In].
      replace (p + (psz + 16 + (sz + 16 + (nsz + 16 + 0))))
        with (b + sz + 16 + nsz + 16) by lia.
      split.
      - intros [[[[H1|[H1|H1]]|[H1|H1]] Hne] Hne'];
          [left; exact H1|congruence|destruct H1|congruence|right; exact H1].
      - intros [H1|H1].
        + pose proof (free_addrs_range _ _ _ S1 H1).
          split; [split; [left; left; exact H1|]|]; lia.
        + pose proof (free_addrs_range _ _ _ S2 H1).
          split; [split; [right; right; exact H1|]|]; lia. }
    destruct (merge_frame s2 l1' [(psz, false); (sz, false); (nsz, false)] l2'
                (sz + psz + nsz + 32) fl2
                T2 ltac:(discriminate) ltac:(cbn [span]; lia) K2 A2'' A1' A2' La' Ha')
      as (s' & E & SH & L & Frm).
    rewrite E1', E1, <- Ep in E, Frm.
    exists s', (l1' ++ (sz + psz + nsz + 32, false) :: l2'), (p :: fl2), p,
           (sz + psz + nsz + 32).
    split.
    { unfold coalesce. rewrite En. cbn [bind]. rewrite Esz, Eprev, Enext.
      cbn [bind andb negb]. rewrite Epsz. cbn [bind]. rewrite Ensz. cbn [bind].
      rewrite Er. cbn [bind]. rewrite Er2. cbn [bind].
      unfold BLK in *. rewrite (wrap_small (psz + nsz)) by lia.
      rewrite (wrap_small (psz + nsz + 4 * 8)) by lia.
      rewrite (wrap_small (sz + (psz + nsz + 4 * 8))) by (subst b; lia).
      replace (sz + (psz + nsz + 4 * 8)) with (sz + psz + nsz + 32) by lia. exact E. }
    split; [exact (same_heap_trans _ _ _ (same_heap_trans _ _ _ SH1 SH2) SH)|].
    split; [rewrite E1', E1, <- Ep in L; exact L|].
    split; [reflexivity|]. split; [rewrite Ep; apply in_blocks_mid|]. split; [lia|]. split; [discriminate|].
    split.
    { intros l1'' psz' Hl. apply app_inj_tail in Hl. destruct Hl as [_ Hl].
      inversion Hl. lia. }
    split.
    { rewrite <- app_assoc. rewrite !alloc_blocks_app. cbn [alloc_blocks app span].
      do 2 f_equal. lia. }
    split; [lia|]. split; [intros Hx; discriminate|].
    split; [intros nsz0 l20 Hl; inversion Hl; lia|].
    assert (In1 : forall c, In c fl1 -> In c fl).
    { intros c Hc. apply Mem1 in Hc. apply Hc. }
    assert (In2 : forall c, In c fl2 -> In c fl).
    { intros c Hc. apply Mem2 in Hc. apply In1. apply Hc. }
    split.
    { exists l1', l2'. split; [reflexivity|]. split; [lia|].
      split; [intros Hx; discriminate|]. split; [intros Hx; discriminate|]. split.
      - intros l1'' psz' Hl. apply app_inj_tail in Hl. destruct Hl as [Hl _].
        exact Hl.
      - intros nsz0 l20 Hl. inversion Hl. reflexivity. }
    split; [intros c [<-|Hc]; [left; reflexivity|right; apply In2; exact Hc]|].
    intros y Y1 Y2 Y3.
    rewrite (Frm y Y1 Y2).
    + rewrite Fr2; [apply Fr1|].
      * intros c Hc. apply Y3. right. apply In1. exact Hc.
      * intros c Hc. apply Y3. right. apply In2. exact Hc.
    + intros c [<-|Hc]; [apply Y3; right; exact Hp|].
      apply Y3. right. apply In2. exact Hc.
Qed.

Lemma coalesce_spec (s : state) (l1 l2 : blocks) (sz : Z) (fl : list Z) :
  tiled s (l1 ++ (sz, false) :: l2) -> linked s fl ->
  let b := heap_lo s + 8 + span l1 in
  around s l1 (b + sz + 16) l2 fl ->
  adj_ok l1 -> adj_ok l2 ->
  exists s' bs' fl' b' sz',
    coalesce s b = Some s' /\ same_heap s s' /\ layout s' bs' fl' /\
    hd_node fl' 0 = b' + 8 /\
    In (b', sz', false) (blocks_from (heap_lo s + 8) bs') /\ sz <= sz' /\
    (last_alloc l1 = true -> b' = b) /\
    (forall l1' psz, l1 = l1' ++ [(psz, false)] -> b' = b - psz - 16) /\
    alloc_blocks (heap_lo s + 8) bs' =
      alloc_blocks (heap_lo s + 8) (l1 ++ (sz, false) :: l2).
Proof.
  intros T K b A A1 A2.
  destruct (coalesce_frame s l1 l2 sz fl T K A A1 A2)
    as (s' & bs' & fl' & b' & sz' & E & SH & L & H1 & H2 & H3 & H4 & H5 & H6 & _).
  exists s', bs', fl', b', sz'. repeat (split; [assumption|]). exact H6.
Qed.


(** ** [free] *)

Lemma layout_around (s : state) (l1 l2 : blocks) (sz : Z) (fl : list Z) :
  layout s (l1 ++ (sz, true) :: l2) fl ->
  around s l1 (heap_lo s + 8 + span l1 + sz + 16) l2 fl /\
  adj_ok l1 /\ adj_ok l2.
Proof.
  intros L. split.
  - intros c. rewrite (L_free _ _ _ L c). rewrite free_addrs_app.
    cbn [free_addrs app]. rewrite in_app_iff. reflexivity.
  - pose proof (L_adj _ _ _ L) as A. apply adj_ok_app in A.
    destruct A as (A1 & A2 & _). cbn [adj_ok] in A2. tauto.
Qed.

(** Releasing the allocated block [(b, sz)]: the heap stays well formed and
    exactly that block leaves the set of allocated blocks. *)
Lemma free_frame (s : state) (l1 l2 : blocks) (sz : Z) (fl : list Z) :
  layout s (l1 ++ (sz, true) :: l2) fl ->
  let b := heap_lo s + 8 + span l1 in
  exists s' bs' fl' b' sz',
    free s (b + 8) = Some s' /\ same_heap s s' /\ layout s' bs' fl' /\
    first s' = b' + 8 /\
    In (b', sz', false) (blocks_from (heap_lo s + 8) bs') /\
    alloc_blocks (heap_lo s + 8) bs' =
      alloc_blocks (heap_lo s + 8) l1 ++ alloc_blocks (b + sz + 16) l2 /\
    b' <= b /\ b + sz <= b' + sz' /\
    (last_alloc l1 = true -> b' = b) /\
    (forall l1' psz, l1 = l1' ++ [(psz, false)] -> b' = b - psz - 16) /\
    (hd_alloc l2 = true -> b' + sz' = b + sz) /\
    (forall nsz l2', l2 = (nsz, false) :: l2' -> b' + sz' = b + sz + nsz + 16) /\
    (exists m1 m2, bs' = m1 ++ (sz', false) :: m2 /\
       span m1 = b' - (heap_lo s + 8) /\
       (last_alloc l1 = true -> m1 = l1) /\
       (hd_alloc l2 = true -> m2 = l2) /\
       (forall l1' psz, l1 = l1' ++ [(psz, false)] -> m1 = l1') /\
       (forall nsz l2', l2 = (nsz, false) :: l2' -> m2 = l2')) /\
    (forall c, In c fl' -> c = b' \/ In c fl) /\
    Z.land (ldw (mem s') b) 1 = 0 /\
    (forall y, y + 8 <= b' \/ b' + sz' + 16 <= y ->
       (forall c, In c fl -> far y (c + 8) /\ far y (c + 16)) ->
       ldw (mem s') y = ldw (mem s) y).
Proof.
  intros L b.
  pose proof (L_tiled _ _ _ L) as T. pose proof (L_linked _ _ _ L) as K.
  destruct (layout_around _ _ _ _ _ L) as (A & A1 & A2). fold b in A.
  pose proof (tiled_geo _ _ T) as G.
  pose proof G as (G1 & G2 & G3 & G4 & G5 & G6).
  destruct (tiled_mid _ _ _ _ _ T) as
    (S1 & [Sz1 Sz2] & S2 & P1 & P2 & P3 & C1 & C2 & C3 & C4).
  fold b in P3, C2, C3, C4.
  assert (A' : around s l1 (heap_lo s + 8 + span l1 + span [(sz, true)]) l2 fl).
  { cbn [span]. replace (heap_lo s + 8 + span l1 + (sz + 16 + 0)) with (b + sz + 16)
      by (subst b; lia). exact A. }
  change (l1 ++ (sz, true) :: l2) with (l1 ++ [(sz, true)] ++ l2) in G, T.
  destruct (around_located _ _ _ _ _ G A') as [M Loc].
  cbn [span] in Loc. clear A'.
  pose proof (retag_tiled s l1 [(sz, true)] l2 sz false T ltac:(discriminate)
                ltac:(cbn [span]; lia)) as T2.
  cbv zeta in T2. fold b in T2.
  set (s2 := set_mem s (stw (stw (mem s) b (tag sz false)) (b + sz + 8) (tag sz false))) in *.
  assert (K2 : linked s2 fl).
  { subst s2.
    change (set_mem s (stw (stw (mem s) b (tag sz false)) (b + sz + 8) (tag sz false)))
      with (set_mem (set_mem s (stw (mem s) b (tag sz false)))
              (stw (mem (set_mem s (stw (mem s) b (tag sz false)))) (b + sz + 8)
                 (tag sz false))).
    apply linked_stw.
    - apply linked_stw; [exact K|].
      intros c Hc. destruct (Loc c Hc); unfold far; subst b; lia.
    - intros c Hc. destruct (Loc c Hc); unfold far; subst b; lia. }
  assert (A2' : around s2 l1 (heap_lo s2 + 8 + span l1 + sz + 16) l2 fl) by exact A.
  destruct (coalesce_frame s2 l1 l2 sz fl T2 K2 A2' A1 A2)
    as (s' & bs' & fl' & b' & sz' & E & SH & L' & Hhd & Hin & _ & Hb1 & Hb2 & Ea &
        Hle & He1 & He2 & Hshape & Hfl' & Frc).
  change (heap_lo s2) with (heap_lo s) in Hin, Hb1, Hb2, Hle, He1, He2, Hshape, Frc.
  fold b in Hb1, Hb2, Hle, He1, He2, Frc.
  assert (Hend : b + sz <= b' + sz').
  { destruct (hd_alloc l2) eqn:Ha.
    - rewrite (He1 eq_refl). lia.
    - destruct (hd_alloc_false _ Ha) as (nsz & l2' & El2).
      rewrite (He2 nsz l2' El2). subst l2.
      apply sizes_ok_cons in S2. destruct S2 as [[? ?] _]. lia. }
  assert (Hfar : forall y, y + 8 <= b' \/ b' + sz' + 16 <= y ->
            far y b' /\ far y (b' + sz' + 8) /\ far y (b + 8) /\ far y (b + 16) /\
            far y b /\ far y (b + sz + 8)).
  { intros y Hy. unfold far. lia. }
  exists s', bs', fl', b', sz'. split.
  { unfold free, NULL, BLK. cbn [Z.opp].
    replace (b + 8 =? 0) with false by (symmetry; apply Z.eqb_neq; subst b; lia).
    rewrite padd_small by (subst b; lia).
    replace (b + 8 + -8) with b by lia.
    rewrite (get_allocated_ok _ _ sz true) by (try assumption; subst b; lia).
    cbn [bind negb].
    rewrite (get_size_ok _ _ sz true) by (try assumption; subst b; lia).
    cbn [bind]. unfold write_value. change (lsb_a sz 0) with (tag sz false).
    rewrite store_ok by (subst b; lia). cbn [bind].
    assert (V : 0 <= tag sz false < W) by (apply tag_range; try assumption; lia).
    rewrite (get_size_ok _ _ sz false)
      by (try assumption; st_simpl; try lia; mem_simpl; try reflexivity; subst b; lia).
    cbn [bind]. rewrite padd_small by (subst b; lia).
    replace (b + (sz + 8)) with (b + sz + 8) by lia.
    rewrite store_ok by (st_simpl; subst b; lia). cbn [bind]. st_simpl.
    exact E. }
  split; [exact SH|]. split; [exact L'|].
  split; [rewrite (K_first _ _ (L_linked _ _ _ L')); exact Hhd|].
  split; [exact Hin|].
  split.
  { change (heap_lo s2) with (heap_lo s) in Ea. rewrite Ea.
    rewrite alloc_blocks_app. cbn [alloc_blocks app]. reflexivity. }
  split; [exact Hle|]. split; [exact Hend|]. split; [exact Hb1|].
  split; [exact Hb2|]. split; [exact He1|]. split; [exact He2|].
  split; [exact Hshape|]. split; [exact Hfl'|].
  assert (V : 0 <= tag sz false < W) by (apply tag_range; try assumption; lia).
  split.
  - destruct (last_alloc l1) eqn:La.
    + rewrite (Hb1 eq_refl) in Hin.
      destruct SH as (E1 & _). change (heap_lo s2) with (heap_lo s) in E1.
      rewrite <- E1 in Hin.
      destruct (tiled_block _ _ _ _ _ (L_tiled _ _ _ L') Hin) as (Hh & _ & [_ Hm] & _).
      rewrite Hh. pose proof (tag_alloc sz' false Hm) as Hbit.
      destruct (Z.land (tag sz' false) 1 =? 0) eqn:Hz; [|discriminate].
      apply Z.eqb_eq. exact Hz.
    + destruct (last_alloc_false _ La) as (l1' & psz & El1).
      pose proof (Hb2 l1' psz El1) as Eb'.
      assert (Hp : 16 <= psz).
      { subst l1. apply sizes_ok_app in S1. destruct S1 as [_ Sp].
        apply sizes_ok_cons in Sp. destruct Sp as [[? ?] _]. assumption. }
      rewrite Frc.
      * subst s2. st_simpl. mem_simpl.
        pose proof (tag_alloc sz false Sz2) as Hbit.
        destruct (Z.land (tag sz false) 1 =? 0) eqn:Hz; [|discriminate].
        apply Z.eqb_eq. exact Hz.
      * unfold far. lia.
      * unfold far. lia.
      * intros c [<-|Hc]; [unfold far; lia|].
        destruct (Loc c Hc); unfold far; subst b; lia.
  - intros y Hy Y3. destruct (Hfar y Hy) as (F1 & F2 & F3 & F4 & F5 & F6).
    rewrite Frc; [|exact F1|exact F2|].
    + subst s2. st_simpl. unfold far in F5, F6. mem_simpl. reflexivity.
    + intros c [<-|Hc]; [split; assumption|apply Y3; exact Hc].
Qed.

Lemma free_spec (s : state) (l1 l2 : blocks) (sz : Z) (fl : list Z) :
  layout s (l1 ++ (sz, true) :: l2) fl ->
  let b := heap_lo s + 8 + span l1 in
  exists s' bs' fl' b' sz',
    free s (b + 8) = Some s' /\ same_heap s s' /\ layout s' bs' fl' /\
    first s' = b' + 8 /\
    In (b', sz', false) (blocks_from (heap_lo s + 8) bs') /\
    alloc_blocks (heap_lo s + 8) bs' =
      alloc_blocks (heap_lo s + 8) l1 ++ alloc_blocks (b + sz + 16) l2.
Proof.
  intros L b.
  destruct (free_frame s l1 l2 sz fl L)
    as (s' & bs' & fl' & b' & sz' & E & SH & L' & H1 & H2 & H3 & _).
  exists s', bs', fl', b', sz'. repeat (split; [assumption|]). exact H3.
Qed.


(** ** A heap that is well formed on both sides of a region under work *)

Record sides (s : state) (l1 : blocks) (gap : Z) (l2 : blocks) : Prop := mkSides {
  S_lo : 0 < heap_lo s;
  S_lo16 : heap_lo s mod 16 = 0;
  S_brk : heap_brk s <= heap_max s;
  S_max : heap_max s < W;
  S_sz1 : sizes_ok l1;
  S_sz2 : sizes_ok l2;
  S_gap : 0 <= gap;
  S_end : heap_lo s + 8 + span l1 + gap + span l2 = heap_brk s - 8;
  S_pro : ldw (mem s) (heap_lo s) = tag 0 true;
  S_epi : ldw (mem s) (heap_brk s - 8) = tag 0 true;
  S_c1 : chain (mem s) (heap_lo s + 8) l1;
  S_c2 : chain (mem s) (heap_lo s + 8 + span l1 + gap) l2
}.

Lemma tiled_sides (s : state) (l1 mid l2 : blocks) :
  tiled s (l1 ++ mid ++ l2) -> sides s l1 (span mid) l2.
Proof.
  intros [? ? ? ? He ? ? Hs Hc].
  apply sizes_ok_app in Hs. destruct Hs as [S1 S23].
  apply sizes_ok_app in S23. destruct S23 as [S2 S3].
  apply chain_app in Hc. destruct Hc as [C1 C23].
  apply chain_app in C23. destruct C23 as [C2 C3].
  rewrite !span_app in He.
  constructor; try assumption; [apply span_nonneg; exact S2|lia].
Qed.

Lemma sides_tiled (s : state) (l1 mid l2 : blocks) :
  sides s l1 (span mid) l2 -> sizes_ok mid ->
  chain (mem s) (heap_lo s + 8 + span l1) mid ->
  tiled s (l1 ++ mid ++ l2).
Proof.
  intros [? ? ? ? S1 S3 Hg He ? ? C1 C3] S2 C2.
  constructor; try assumption.
  - rewrite !span_app. lia.
  - apply sizes_ok_app. split; [exact S1|]. apply sizes_ok_app. split; assumption.
  - apply chain_app. split; [exact C1|]. apply chain_app. split; assumption.
Qed.

(** A store inside the region. *)
Lemma sides_stw (s : state) (l1 l2 : blocks) (gap y v : Z) :
  sides s l1 gap l2 ->
  heap_lo s + 8 + span l1 <= y -> y + 8 <= heap_lo s + 8 + span l1 + gap ->
  sides (set_mem s (stw (mem s) y v)) l1 gap l2.
Proof.
  intros [? ? ? ? S1 S3 Hg He Hp Hq C1 C3] Y1 Y2.
  pose proof (span_nonneg _ S1). pose proof (span_nonneg _ S3).
  constructor; st_simpl; try assumption.
  - mem_simpl. exact Hp.
  - mem_simpl. exact Hq.
  - apply chain_stw_out; [exact S1|exact C1|lia].
  - apply chain_stw_out; [exact S3|exact C3|lia].
Qed.

(** The blocks [S] are blocks of the two sides or have their node cells inside
    the region. *)
Definition located (s : state) (l1 : blocks) (gap : Z) (l2 : blocks) (S : list Z) : Prop :=
  forall c, In c S ->
    is_block (heap_lo s + 8) l1 c \/
    is_block (heap_lo s + 8 + span l1 + gap) l2 c \/
    (heap_lo s + 8 + span l1 <= c + 8 /\ c + 24 <= heap_lo s + 8 + span l1 + gap).

Lemma sides_node_frame (s s1 : state) (l1 l2 : blocks) (gap : Z) (S : list Z) :
  sides s l1 gap l2 -> same_heap s s1 -> located s l1 gap l2 S ->
  node_frame S (mem s) (mem s1) -> sides s1 l1 gap l2.
Proof.
  intros [? ? ? ? S1 S3 Hg He Hp Hq C1 C3] (E1 & E2 & E3) Loc Fr.
  pose proof (span_nonneg _ S1). pose proof (span_nonneg _ S3).
  assert (R : forall c, In c S -> heap_lo s + 8 <= c + 8 /\ c + 24 <= heap_brk s - 8).
  { intros c Hc. destruct (Loc c Hc) as [Hb|[Hb|Hb]].
    - apply (is_block_range _ _ _ S1) in Hb. lia.
    - apply (is_block_range _ _ _ S3) in Hb. lia.
    - lia. }
  constructor; rewrite ?E1, ?E2, ?E3; try assumption.
  - rewrite Fr; [exact Hp|]. intros c Hc. pose proof (R c Hc). unfold far. lia.
  - rewrite Fr; [exact Hq|]. intros c Hc. pose proof (R c Hc). unfold far. lia.
  - apply (chain_nodes_frame (mem s) _ _ _ S); try assumption.
    intros c Hc. destruct (Loc c Hc) as [Hb|[Hb|Hb]].
    + left. exact Hb.
    + apply (is_block_range _ _ _ S3) in Hb. right. lia.
    + right. lia.
  - apply (chain_nodes_frame (mem s) _ _ _ S); try assumption.
    intros c Hc. destruct (Loc c Hc) as [Hb|[Hb|Hb]].
    + apply (is_block_range _ _ _ S1) in Hb. right. lia.
    + left. exact Hb.
    + right. lia.
Qed.

(** What the invariant says around a free block. *)
Lemma layout_free_mid (s : state) (l1 l2 : blocks) (sz : Z) (fl : list Z) :
  layout s (l1 ++ (sz, false) :: l2) fl ->
  let b := heap_lo s + 8 + span l1 in
  (forall c, In c fl <->
     In c (free_addrs (heap_lo s + 8) l1) \/ c = b \/
     In c (free_addrs (b + sz + 16) l2)) /\
  adj_ok l1 /\ adj_ok l2 /\ last_alloc l1 = true /\ hd_alloc l2 = true.
Proof.
  intros L b. split.
  - intros c. rewrite (L_free _ _ _ L c). rewrite free_addrs_app.
    cbn [free_addrs app]. rewrite in_app_iff. cbn [In]. fold b.
    split; intros [H|[H|H]]; auto.
  - pose proof (L_adj _ _ _ L) as A. apply adj_ok_app in A.
    destruct A as (A1 & A2 & A3). cbn [adj_ok hd_alloc orb] in A2, A3.
    rewrite orb_false_r in A3. tauto.
Qed.

Lemma is_block_flag (a : Z) (l1 l2 : blocks) (sz : Z) (al al' : bool) (c : Z) :
  is_block a (l1 ++ (sz, al) :: l2) c -> is_block a (l1 ++ (sz, al') :: l2) c.
Proof.
  intros H. apply is_block_app in H. apply is_block_app.
  destruct H as [H|H]; [left; exact H|right].
  apply is_block_cons in H. apply is_block_cons. exact H.
Qed.

(** ** [place] and [split] *)

(** Where the members of the list are, around the free block [b]. *)
Lemma free_mid_located (s : state) (l1 l2 : blocks) (sz : Z) (fl : list Z) :
  layout s (l1 ++ (sz, false) :: l2) fl ->
  let b := heap_lo s + 8 + span l1 in
  forall c, In c fl ->
    c = b \/
    (In c (free_addrs (heap_lo s + 8) l1) /\
       heap_lo s + 8 <= c /\ c + 32 <= b) \/
    (In c (free_addrs (b + sz + 16) l2) /\
       b + sz + 16 <= c /\ c + 32 <= heap_brk s - 8).
Proof.
  intros L b c Hc.
  destruct (layout_free_mid _ _ _ _ _ L) as (F & _).
  destruct (tiled_mid _ _ _ _ _ (L_tiled _ _ _ L)) as
    (S1 & _ & S2 & P1 & P2 & P3 & _).
  fold b in F, P3.
  apply F in Hc. destruct Hc as [Hc|[Hc|Hc]].
  - right. left. split; [exact Hc|].
    apply (free_addrs_range _ _ _ S1) in Hc. subst b. lia.
  - left. exact Hc.
  - right. right. split; [exact Hc|].
    apply (free_addrs_range _ _ _ S2) in Hc. lia.
Qed.

(** The whole free block becomes allocated. *)
Lemma place_whole_frame (s : state) (l1 l2 : blocks) (bsz : Z) (fl : list Z) :
  layout s (l1 ++ (bsz, false) :: l2) fl ->
  let b := heap_lo s + 8 + span l1 in
  exists s' fl',
    (s1 <- write_value s b (lsb_a bsz 1) ;;
     s2 <- write_value s1 (padd b (bsz + BLK)) (lsb_a bsz 1) ;;
     remove_node s2 b) = Some s' /\
    same_heap s s' /\ layout s' (l1 ++ (bsz, true) :: l2) fl' /\
    (forall y, far y b -> far y (b + bsz + 8) ->
       (forall c, In c fl -> far y (c + 8) /\ far y (c + 16)) ->
       ldw (mem s') y = ldw (mem s) y).
Proof.
  intros L b.
  pose proof (L_tiled _ _ _ L) as T. pose proof (L_linked _ _ _ L) as K.
  destruct (layout_free_mid _ _ _ _ _ L) as (F & A1 & A2 & La & Ha).
  pose proof (free_mid_located _ _ _ _ _ L) as Loc.
  cbv zeta in Loc. fold b in F, Loc.
  pose proof (tiled_geo _ _ T) as G.
  pose proof G as (G1 & G2 & G3 & G4 & G5 & G6).
  destruct (tiled_mid _ _ _ _ _ T) as
    (S1 & [Sz1 Sz2] & S2 & P1 & P2 & P3 & C1 & C2 & C3 & C4).
  fold b in P3, C2, C3, C4.
  change (l1 ++ (bsz, false) :: l2) with (l1 ++ [(bsz, false)] ++ l2) in T.
  pose proof (retag_tiled s l1 [(bsz, false)] l2 bsz true T ltac:(discriminate)
                ltac:(cbn [span]; lia)) as T2.
  cbv zeta in T2. fold b in T2.
  set (s2 := set_mem s (stw (stw (mem s) b (tag bsz true)) (b + bsz + 8) (tag bsz true))) in *.
  assert (K2 : linked s2 fl).
  { subst s2.
    change (set_mem s (stw (stw (mem s) b (tag bsz true)) (b + bsz + 8) (tag bsz true)))
      with (set_mem (set_mem s (stw (mem s) b (tag bsz true)))
              (stw (mem (set_mem s (stw (mem s) b (tag bsz true)))) (b + bsz + 8)
                 (tag bsz true))).
    apply linked_stw.
    - apply linked_stw; [exact K|].
      intros c Hc. destruct (Loc c Hc) as [?|[?|?]]; unfold far; lia.
    - intros c Hc. destruct (Loc c Hc) as [?|[?|?]]; unfold far; lia. }
  assert (M2 : members s2 (l1 ++ (bsz, true) :: l2) fl).
  { intros c Hc. apply (is_block_flag _ _ _ _ false true).
    apply free_is_block. apply (L_free _ _ _ L). exact Hc. }
  assert (Hb : In b fl) by (apply F; right; left; reflexivity).
  destruct (unlink_spec s2 _ fl b (tiled_geo _ _ T2) K2 M2 Hb)
    as (s3 & fl1 & Er & SH & K3 & Mem & Fr).
  assert (M3 : members s2 (l1 ++ (bsz, true) :: l2) fl1).
  { intros c Hc. apply M2. apply Mem in Hc. apply Hc. }
  pose proof (tiled_node_frame _ _ _ _ T2 SH M3 Fr) as T3.
  exists s3, fl1. split.
  { unfold write_value, BLK. change (lsb_a bsz 1) with (tag bsz true).
    rewrite store_ok by (subst b; lia). cbn [bind].
    rewrite padd_small by (subst b; lia).
    replace (b + (bsz + 8)) with (b + bsz + 8) by lia.
    rewrite store_ok by (st_simpl; subst b; lia). cbn [bind]. st_simpl.
    exact Er. }
  split; [exact SH|].
  split.
  2:{ intros y Y1 Y2 Y3. rewrite Fr.
      - subst s2. st_simpl. unfold far in Y1, Y2. mem_simpl. reflexivity.
      - intros c Hc. apply Y3. apply Mem in Hc. apply Hc. }
  constructor.
  - exact T3.
  - exact K3.
  - destruct SH as (E1 & _). rewrite E1. change (heap_lo s2) with (heap_lo s).
    intros c. rewrite Mem, (F c). rewrite free_addrs_app. cbn [free_addrs app].
    rewrite in_app_iff. fold b. split.
    + intros [[H|[H|H]] Hne]; [left; exact H|contradiction|right; exact H].
    + intros [H|H].
      * split; [left; exact H|]. apply (free_addrs_range _ _ _ S1) in H. subst b. lia.
      * split; [right; right; exact H|]. apply (free_addrs_range _ _ _ S2) in H. lia.
  - apply adj_ok_app. cbn [adj_ok hd_alloc orb]. rewrite orb_true_r. auto.
  - destruct l1; discriminate.
Qed.

Lemma place_whole_spec (s : state) (l1 l2 : blocks) (bsz : Z) (fl : list Z) :
  layout s (l1 ++ (bsz, false) :: l2) fl ->
  let b := heap_lo s + 8 + span l1 in
  exists s' fl',
    (s1 <- write_value s b (lsb_a bsz 1) ;;
     s2 <- write_value s1 (padd b (bsz + BLK)) (lsb_a bsz 1) ;;
     remove_node s2 b) = Some s' /\
    same_heap s s' /\ layout s' (l1 ++ (bsz, true) :: l2) fl'.
Proof.
  intros L b.
  destruct (place_whole_frame s l1 l2 bsz fl L) as (s' & fl' & E & SH & L' & _).
  exists s', fl'. auto.
Qed.

(** The front of the free block becomes allocated, the rest a new free block
    at the head of the list. *)
Lemma split_frame (s : state) (l1 l2 : blocks) (bsz size : Z) (fl : list Z) :
  layout s (l1 ++ (bsz, false) :: l2) fl ->
  size_ok size -> size + 32 <= bsz ->
  let b := heap_lo s + 8 + span l1 in
  exists s' fl',
    split s b size = Some s' /\ same_heap s s' /\
    layout s' (l1 ++ (size, true) :: (bsz - size - 16, false) :: l2) fl' /\
    (forall y, y + 8 <= b \/ b + bsz + 16 <= y ->
       (forall c, In c fl -> far y (c + 8) /\ far y (c + 16)) ->
       ldw (mem s') y = ldw (mem s) y).
Proof.
  intros L [Hz1 Hz2] Hfit b.
  pose proof (L_tiled _ _ _ L) as T. pose proof (L_linked _ _ _ L) as K.
  destruct (layout_free_mid _ _ _ _ _ L) as (F & A1 & A2 & La & Ha).
  pose proof (free_mid_located _ _ _ _ _ L) as Loc.
  cbv zeta in Loc. fold b in F, Loc.
  pose proof (tiled_geo _ _ T) as G.
  pose proof G as (G1 & G2 & G3 & G4 & G5 & G6).
  destruct (tiled_mid _ _ _ _ _ T) as
    (S1 & [Sz1 Sz2] & S2 & P1 & P2 & P3 & C1 & C2 & C3 & C4).
  fold b in P3, C2, C3, C4.
  set (rest := bsz - size - 16).
  set (r := b + size + 16).
  assert (Hr : size_ok rest).
  { subst rest. split; [lia|].
    rewrite Zminus_mod. rewrite (Zminus_mod bsz size). rewrite Sz2, Hz2. reflexivity. }
  destruct Hr as [Hr1 Hr2].
  change (l1 ++ (bsz, false) :: l2) with (l1 ++ [(bsz, false)] ++ l2) in T.
  pose proof (tiled_sides _ _ _ _ T) as Sd. cbn [span] in Sd.
  (* header and footer of the allocated part *)
  set (s1 := set_mem s (stw (mem s) b (tag size true))).
  set (s2 := set_mem s1 (stw (mem s1) (b + size + 8) (tag size true))).
  assert (Sd2 : sides s2 l1 (bsz + 16 + 0) l2).
  { subst s2. apply sides_stw; [|subst s1; st_simpl; subst b; lia..].
    subst s1. apply sides_stw; [exact Sd|subst b; lia..]. }
  assert (K2 : linked s2 fl).
  { subst s2. apply linked_stw.
    - subst s1. apply linked_stw; [exact K|].
      intros c Hc. destruct (Loc c Hc) as [?|[?|?]]; unfold far; lia.
    - intros c Hc. destruct (Loc c Hc) as [?|[?|?]]; unfold far; lia. }
  assert (M2 : members s2 (l1 ++ (bsz, false) :: l2) fl).
  { intros c Hc. apply free_is_block. apply (L_free _ _ _ L). exact Hc. }
  assert (Hb : In b fl) by (apply F; right; left; reflexivity).
  destruct (unlink_spec s2 _ fl b G K2 M2 Hb)
    as (s3 & fl1 & Er & SH & K3 & Mem & Fr).
  pose proof SH as (E1 & E2 & E3).
  change (heap_lo s2) with (heap_lo s) in E1.
  change (heap_brk s2) with (heap_brk s) in E2.
  change (heap_max s2) with (heap_max s) in E3.
  assert (Loc1 : forall c, In c fl1 ->
            (In c (free_addrs (heap_lo s + 8) l1) /\
               heap_lo s + 8 <= c /\ c + 32 <= b) \/
            (In c (free_addrs (b + bsz + 16) l2) /\
               b + bsz + 16 <= c /\ c + 32 <= heap_brk s - 8)).
  { intros c Hc. apply Mem in Hc. destruct Hc as [Hc Hne].
    destruct (Loc c Hc) as [?|[?|?]]; [contradiction|left; assumption|right; assumption]. }
  assert (Sd3 : sides s3 l1 (bsz + 16 + 0) l2).
  { apply (sides_node_frame s2 s3 _ _ _ fl1); try assumption.
    intros c Hc. change (heap_lo s2) with (heap_lo s).
    destruct (Loc1 c Hc) as [[H _]|[H _]].
    - left. apply free_is_block. exact H.
    - right. left. apply free_is_block.
      replace (heap_lo s + 8 + span l1 + (bsz + 16 + 0)) with (b + bsz + 16)
        by (subst b; lia). exact H. }
  assert (V1 : 0 <= tag size true < W) by (apply tag_range; try assumption; lia).
  assert (V2 : 0 <= tag rest false < W) by (apply tag_range; try assumption; lia).
  assert (H3a : ldw (mem s3) b = tag size true).
  { rewrite Fr.
    - subst s2 s1. st_simpl. mem_simpl. reflexivity.
    - intros c Hc. destruct (Loc1 c Hc) as [?|?]; unfold far; lia. }
  assert (H3b : ldw (mem s3) (b + size + 8) = tag size true).
  { rewrite Fr.
    - subst s2 s1. st_simpl. mem_simpl. reflexivity.
    - intros c Hc. destruct (Loc1 c Hc) as [?|?]; unfold far; lia. }
  (* header and footer of the rest *)
  set (s4 := set_mem s3 (stw (mem s3) r (tag rest false))).
  set (s5 := set_mem s4 (stw (mem s4) (r + rest + 8) (tag rest false))).
  assert (Sd5 : sides s5 l1 (bsz + 16 + 0) l2).
  { subst s5. apply sides_stw; [|subst s4; st_simpl; rewrite ?E1; subst r rest b; lia..].
    subst s4. apply sides_stw; [exact Sd3|rewrite E1; subst r rest b; lia..]. }
  assert (K5 : linked s5 fl1).
  { subst s5. apply linked_stw.
    - subst s4. apply linked_stw; [exact K3|].
      intros c Hc. destruct (Loc1 c Hc) as [?|?]; unfold far; subst r rest; lia.
    - intros c Hc. destruct (Loc1 c Hc) as [?|?]; unfold far; subst r rest; lia. }
  assert (T5 : tiled s5 (l1 ++ [(size, true); (rest, false)] ++ l2)).
  { apply sides_tiled.
    - cbn [span]. replace (size + 16 + (rest + 16 + 0)) with (bsz + 16 + 0)
        by (subst rest; lia). exact Sd5.
    - repeat constructor; cbn [fst]; assumption.
    - subst s5 s4. st_simpl. rewrite E1. fold b. cbn [chain]. fold r.
      split; [|split; [|split; [|split]]]; try exact I.
      + subst r rest. mem_simpl. exact H3a.
      + subst r rest. mem_simpl. exact H3b.
      + mem_simpl. reflexivity.
      + mem_simpl. reflexivity. }
  assert (T5' : tiled s5 ((l1 ++ [(size, true)]) ++ (rest, false) :: l2)).
  { rewrite <- app_assoc. exact T5. }
  assert (Er5 : heap_lo s5 + 8 + span (l1 ++ [(size, true)]) = r).
  { subst s5 s4. st_simpl. rewrite E1, span_app. cbn [span]. subst r b. lia. }
  assert (A5 : around s5 (l1 ++ [(size, true)])
                 (heap_lo s5 + 8 + span (l1 ++ [(size, true)]) + rest + 16) l2 fl1).
  { rewrite Er5. subst s5 s4. unfold around. st_simpl. rewrite E1.
    intros c. rewrite free_addrs_app. cbn [free_addrs app]. rewrite app_nil_r.
    replace (r + rest + 16) with (b + bsz + 16) by (subst r rest; lia).
    split.
    - intros Hc. destruct (Loc1 c Hc) as [[H _]|[H _]]; auto.
    - intros [H|H]; apply Mem.
      + split; [apply F; left; exact H|].
        apply (free_addrs_range _ _ _ S1) in H. subst b. lia.
      + split; [apply F; right; right; exact H|].
        apply (free_addrs_range _ _ _ S2) in H. lia. }
  assert (Adj5 : adj_ok (l1 ++ [(size, true)])).
  { apply adj_ok_app. cbn [adj_ok hd_alloc orb]. rewrite orb_true_r. auto. }
  destruct (insert_frame s5 _ l2 rest fl1 T5' K5 A5 Adj5 A2
              (last_alloc_snoc _ _ _) Ha) as (s' & Ea & SH' & L' & Fr').
  rewrite Er5 in Ea, L', Fr'.
  exists s', (r :: fl1). split.
  { unfold split, write_value, BLK.
    rewrite (get_size_ok _ _ bsz false) by (try assumption; subst b; lia).
    cbn [bind]. change (lsb_a size 1) with (tag size true).
    rewrite store_ok by (subst b; lia). cbn [bind]. fold s1.
    rewrite padd_small by (subst b; lia).
    replace (b + (size + 8)) with (b + size + 8) by lia.
    rewrite store_ok by (subst s1; st_simpl; subst b; lia). cbn [bind]. fold s2.
    rewrite Er. cbn [bind].
    rewrite (padd_small b (size + 2 * 8)) by (subst b; lia).
    replace (b + (size + 2 * 8)) with r by (subst r; lia).
    rewrite (wrap_small (bsz - size)) by lia.
    rewrite (wrap_small (bsz - size - 2 * 8)) by lia.
    replace (bsz - size - 2 * 8) with rest by (subst rest; lia).
    change (lsb_a rest 0) with (tag rest false).
    rewrite store_ok by (rewrite ?E1, ?E2; subst r rest b; lia). cbn [bind]. fold s4.
    rewrite padd_small by (subst r rest b; lia).
    replace (r + (rest + 8)) with (r + rest + 8) by lia.
    rewrite store_ok by (subst s4; st_simpl; rewrite ?E1, ?E2; subst r rest b; lia).
    cbn [bind]. fold s5.
    rewrite padd_small by (subst r rest b; lia).
    destruct (tiled_after s5 (l1 ++ [(size, true); (rest, false)]) l2)
      as (nsz & En & Nm & Nn & Nb & _).
    { rewrite <- app_assoc. exact T5. }
    rewrite Ha in En.
    assert (Ee : heap_lo s5 + 8 + span (l1 ++ [(size, true); (rest, false)])
                 = r + (rest + 2 * 8)).
    { subst s5 s4. st_simpl. rewrite E1, span_app. cbn [span]. subst r rest b. lia. }
    rewrite Ee in En, Nb.
    rewrite (get_allocated_ok _ _ nsz true);
      [|subst r rest b; lia|subst s5 s4; st_simpl; rewrite E1; subst r rest b; lia
       |exact Nb|exact En|exact Nm].
    cbn [bind negb]. exact Ea. }
  split.
  { apply (same_heap_trans s s3); [repeat split; assumption|].
    apply (same_heap_trans s3 s5); [repeat split|exact SH']. }
  split; [rewrite <- app_assoc in L'; exact L'|].
  intros y Hy Y3.
  assert (Y1 : forall c, In c fl1 -> far y (c + 8) /\ far y (c + 16)).
  { intros c Hc. apply Y3. apply Mem in Hc. apply Hc. }
  rewrite Fr'.
  - subst s5 s4. st_simpl.
    rewrite !ldw_stw_far by (unfold far; subst r rest; lia).
    rewrite (Fr y Y1). subst s2 s1. st_simpl.
    rewrite !ldw_stw_far by (unfold far; lia). reflexivity.
  - intros c [<-|Hc]; [unfold far; subst r; lia|apply Y1; exact Hc].
Qed.

Lemma split_spec (s : state) (l1 l2 : blocks) (bsz size : Z) (fl : list Z) :
  layout s (l1 ++ (bsz, false) :: l2) fl ->
  size_ok size -> size + 32 <= bsz ->
  let b := heap_lo s + 8 + span l1 in
  exists s' fl',
    split s b size = Some s' /\ same_heap s s' /\
    layout s' (l1 ++ (size, true) :: (bsz - size - 16, false) :: l2) fl'.
Proof.
  intros L Hs Hfit b.
  destruct (split_frame s l1 l2 bsz size fl L Hs Hfit) as (s' & fl' & E & SH & L' & _).
  exists s', fl'. auto.
Qed.

Lemma place_frame (s : state) (l1 l2 : blocks) (bsz size : Z) (fl : list Z) :
  layout s (l1 ++ (bsz, false) :: l2) fl ->
  size_ok size -> size <= bsz ->
  let b := heap_lo s + 8 + span l1 in
  exists s' bs' fl' asz,
    place s b size = Some s' /\ same_heap s s' /\ layout s' bs' fl' /\
    size <= asz /\
    alloc_blocks (heap_lo s + 8) bs' =
      alloc_blocks (heap_lo s + 8) l1 ++ (b, asz) :: alloc_blocks (b + bsz + 16) l2 /\
    (asz = size /\ size + 32 <= bsz \/ asz = bsz /\ bsz < size + 32) /\
    (forall y, y + 8 <= b \/ b + bsz + 16 <= y ->
       (forall c, In c fl -> far y (c + 8) /\ far y (c + 16)) ->
       ldw (mem s') y = ldw (mem s) y).
Proof.
  intros L Hsz Hfit b. pose proof Hsz as [Hz1 Hz2].
  destruct (tiled_mid _ _ _ _ _ (L_tiled _ _ _ L)) as
    (S1 & [Sz1 Sz2] & S2 & P1 & P2 & P3 & C1 & C2 & C3 & C4).
  pose proof (tiled_geo _ _ (L_tiled _ _ _ L)) as (G1 & G2 & G3 & G4 & G5 & G6).
  fold b in P3, C2, C3, C4.
  assert (Eg : get_size s b = Some bsz).
  { apply (get_size_ok _ _ bsz false); try assumption; subst b; lia. }
  destruct (Z_le_gt_dec 32 (bsz - size)) as [Hbig|Hsmall].
  - destruct (split_frame s l1 l2 bsz size fl L Hsz ltac:(lia))
      as (s' & fl' & E & SH & L' & Fr).
    fold b in E, Fr.
    exists s', (l1 ++ (size, true) :: (bsz - size - 16, false) :: l2), fl', size.
    split.
    { unfold place, BLK. rewrite Eg. cbn [bind].
      rewrite (wrap_small (bsz - size)) by (subst b; lia).
      replace (4 * 8 <=? bsz - size) with true by (symmetry; apply Z.leb_le; lia).
      exact E. }
    split; [exact SH|]. split; [exact L'|]. split; [lia|].
    split.
    { rewrite !alloc_blocks_app. cbn [alloc_blocks app]. fold b. do 3 f_equal. lia. }
    split; [left; lia|exact Fr].
  - destruct (place_whole_frame s l1 l2 bsz fl L) as (s' & fl' & E & SH & L' & Fr).
    fold b in E, Fr.
    exists s', (l1 ++ (bsz, true) :: l2), fl', bsz.
    split.
    { unfold place, BLK. rewrite Eg. cbn [bind].
      rewrite (wrap_small (bsz - size)) by (subst b; lia).
      replace (4 * 8 <=? bsz - size) with false by (symmetry; apply Z.leb_gt; lia).
      exact E. }
    split; [exact SH|]. split; [exact L'|]. split; [lia|].
    split.
    { rewrite !alloc_blocks_app. cbn [alloc_blocks app]. reflexivity. }
    split; [right; lia|].
    intros y Hy Y3. apply Fr; [unfold far; lia|unfold far; lia|exact Y3].
Qed.

Lemma place_spec (s : state) (l1 l2 : blocks) (bsz size : Z) (fl : list Z) :
  layout s (l1 ++ (bsz, false) :: l2) fl ->
  size_ok size -> size <= bsz ->
  let b := heap_lo s + 8 + span l1 in
  exists s' bs' fl' asz,
    place s b size = Some s' /\ same_heap s s' /\ layout s' bs' fl' /\
    size <= asz /\
    alloc_blocks (heap_lo s + 8) bs' =
      alloc_blocks (heap_lo s + 8) l1 ++ (b, asz) :: alloc_blocks (b + bsz + 16) l2.
Proof.
  intros L Hs Hfit b.
  destruct (place_frame s l1 l2 bsz size fl L Hs Hfit)
    as (s' & bs' & fl' & asz & E & SH & L' & H1 & H2 & _).
  exists s', bs', fl', asz. auto.
Qed.

(** ** [first_fit] *)

Lemma first_fit_loop_spec (s : state) (bs : blocks) (size : Z) :
  tiled s bs ->
  forall (fl : list Z) (fuel : nat) (p : Z),
  dllseg (mem s) p fl 0 ->
  (forall c, In c fl -> In c (free_addrs (heap_lo s + 8) bs)) ->
  (length fl < fuel)%nat ->
  exists r, first_fit_loop fuel s (hd_node fl 0) size = Some r /\
    (r = 0 \/
     exists rsz, In r fl /\ In (r, rsz, false) (blocks_from (heap_lo s + 8) bs) /\
       size <= rsz).
Proof.
  intros T.
  pose proof (tiled_geo _ _ T) as (G1 & G2 & G3 & G4 & G5 & G6).
  induction fl as [|c rest IH]; intros fuel p D M Hf.
  - destruct fuel as [|k]; [cbn [length] in Hf; lia|].
    cbn [first_fit_loop hd_node]. exists 0. split; [reflexivity|left; reflexivity].
  - destruct fuel as [|k]; [cbn [length] in Hf; lia|].
    cbn [length] in Hf. cbn [dllseg] in D. destruct D as (D1 & D2 & D3).
    pose proof (M c (or_introl eq_refl)) as Hc. apply in_free_blocks in Hc.
    destruct Hc as [csz Hc].
    destruct (tiled_block _ _ _ _ _ T Hc) as (B1 & B2 & [B3 B4] & B5 & B6).
    cbn [first_fit_loop hd_node]. unfold NULL, BLK, next_field. cbn [Z.opp].
    replace (c + 8 =? 0) with false by (symmetry; apply Z.eqb_neq; lia).
    rewrite padd_small by lia. replace (c + 8 + -8) with c by lia.
    rewrite (get_allocated_ok _ _ csz false) by (try assumption; lia).
    cbn [bind negb].
    rewrite (get_size_ok _ _ csz false) by (try assumption; lia).
    cbn [bind].
    destruct (size <=? csz) eqn:Hfit.
    + exists c. split; [reflexivity|]. right. exists csz.
      apply Z.leb_le in Hfit. split; [left; reflexivity|]. split; assumption.
    + rewrite load_ok by lia. cbn [bind]. rewrite D1.
      destruct (IH k (c + 8) D3 (fun d Hd => M d (or_intror Hd)) ltac:(lia))
        as (r & E & Hr).
      exists r. split; [exact E|].
      destruct Hr as [Hr|(rsz & R1 & R2 & R3)]; [left; exact Hr|].
      right. exists rsz. split; [right; exact R1|]. split; assumption.
Qed.

Lemma free_addrs_length (bs : blocks) : forall a,
  (length (free_addrs a bs) <= length bs)%nat.
Proof.
  induction bs as [|[sz al] r IH]; intros a; cbn [free_addrs length]; [lia|].
  rewrite length_app. specialize (IH (a + sz + 16)). destruct al; cbn [length]; lia.
Qed.

(** The walk ends, with a free block that fits or with [NULL]. *)
Lemma first_fit_spec (s : state) (bs : blocks) (fl : list Z) (size : Z) :
  layout s bs fl ->
  exists r, first_fit s size = Some r /\
    (r = 0 \/
     exists l1 l2 bsz, bs = l1 ++ (bsz, false) :: l2 /\
       r = heap_lo s + 8 + span l1 /\ size <= bsz).
Proof.
  intros L. pose proof (L_tiled _ _ _ L) as T. pose proof (L_linked _ _ _ L) as [K1 K2 K3].
  pose proof (tiled_geo _ _ T) as (G1 & G2 & G3 & G4 & G5 & G6).
  assert (Hlen : (length fl < S (Z.to_nat (heap_brk s - heap_lo s)))%nat).
  { assert (H1 : (length fl <= length (free_addrs (heap_lo s + 8) bs))%nat).
    { apply NoDup_incl_length; [exact K3|]. intros c Hc. apply (L_free _ _ _ L). exact Hc. }
    pose proof (free_addrs_length bs (heap_lo s + 8)).
    pose proof (span_ge_length _ G5). lia. }
  destruct (first_fit_loop_spec s bs size T fl _ 0 K1
              (fun c Hc => proj1 (L_free _ _ _ L c) Hc) Hlen) as (r & E & Hr).
  exists r. split.
  - unfold first_fit. rewrite K2. exact E.
  - destruct Hr as [Hr|(rsz & R1 & R2 & R3)]; [left; exact Hr|].
    right. destruct (in_blocks_split _ _ _ _ _ R2) as (l1 & l2 & E1 & E2).
    exists l1, l2, rsz. auto.
Qed.

(** Two free blocks at one address have one size. *)
Lemma block_size_unique (s : state) (bs : blocks) (c csz csz' : Z) (al al' : bool) :
  tiled s bs ->
  In (c, csz, al) (blocks_from (heap_lo s + 8) bs) ->
  In (c, csz', al') (blocks_from (heap_lo s + 8) bs) ->
  csz = csz' /\ al = al'.
Proof.
  intros T H1 H2.
  destruct (tiled_block _ _ _ _ _ T H1) as (E1 & _ & [_ M1] & _).
  destruct (tiled_block _ _ _ _ _ T H2) as (E2 & _ & [_ M2] & _).
  rewrite E1 in E2. rewrite !tag_val in E2 by assumption.
  pose proof (Z.div_mod csz 16 ltac:(lia)) as D1.
  pose proof (Z.div_mod csz' 16 ltac:(lia)) as D2.
  rewrite M1 in D1. rewrite M2 in D2.
  destruct al, al'; split; try reflexivity; try lia.
Qed.

(** The walk returns the first block of the list that is large enough, and
    [NULL] only when no block of the list is. *)
Lemma first_fit_loop_first (s : state) (bs : blocks) (size : Z) :
  tiled s bs ->
  forall (fl : list Z) (fuel : nat) (p : Z),
  dllseg (mem s) p fl 0 ->
  (forall c, In c fl -> In c (free_addrs (heap_lo s + 8) bs)) ->
  (length fl < fuel)%nat ->
  exists r, first_fit_loop fuel s (hd_node fl 0) size = Some r /\
    ((r = 0 /\
      forall c csz, In c fl ->
        In (c, csz, false) (blocks_from (heap_lo s + 8) bs) -> csz < size) \/
     exists f1 f2 rsz, fl = f1 ++ r :: f2 /\
       In (r, rsz, false) (blocks_from (heap_lo s + 8) bs) /\ size <= rsz /\
       forall c csz, In c f1 ->
         In (c, csz, false) (blocks_from (heap_lo s + 8) bs) -> csz < size).
Proof.
  intros T.
  pose proof (tiled_geo _ _ T) as (G1 & G2 & G3 & G4 & G5 & G6).
  induction fl as [|c rest IH]; intros fuel p D M Hf.
  - destruct fuel as [|k]; [cbn [length] in Hf; lia|].
    cbn [first_fit_loop hd_node]. exists 0. split; [reflexivity|].
    left. split; [reflexivity|]. intros c csz [].
  - destruct fuel as [|k]; [cbn [length] in Hf; lia|].
    cbn [length] in Hf. cbn [dllseg] in D. destruct D as (D1 & D2 & D3).
    pose proof (M c (or_introl eq_refl)) as Hc. apply in_free_blocks in Hc.
    destruct Hc as [csz Hc].
    destruct (tiled_block _ _ _ _ _ T Hc) as (B1 & B2 & [B3 B4] & B5 & B6).
    cbn [first_fit_loop hd_node]. unfold NULL, BLK, next_field. cbn [Z.opp].
    replace (c + 8 =? 0) with false by (symmetry; apply Z.eqb_neq; lia).
    rewrite padd_small by lia. replace (c + 8 + -8) with c by lia.
    rewrite (get_allocated_ok _ _ csz false) by (try assumption; lia).
    cbn [bind negb].
    rewrite (get_size_ok _ _ csz false) by (try assumption; lia).
    cbn [bind].
    destruct (size <=? csz) eqn:Hfit.
    + exists c. split; [reflexivity|]. right. exists [], rest, csz.
      apply Z.leb_le in Hfit. split; [reflexivity|]. split; [exact Hc|].
      split; [exact Hfit|]. intros d dsz [].
    + rewrite load_ok by lia. cbn [bind]. rewrite D1.
      apply Z.leb_gt in Hfit.
      assert (Hsmall : forall d dsz, In d [c] ->
                In (d, dsz, false) (blocks_from (heap_lo s + 8) bs) -> dsz < size).
      { intros d dsz [<-|[]] Hd.
        destruct (block_size_unique _ _ _ _ _ _ _ T Hc Hd) as [<- _]. exact Hfit. }
      destruct (IH k (c + 8) D3 (fun d Hd => M d (or_intror Hd)) ltac:(lia))
        as (r & E & Hr).
      exists r. split; [exact E|].
      destruct Hr as [(-> & Hall)|(f1 & f2 & rsz & -> & R2 & R3 & R4)].
      * left. split; [reflexivity|]. intros d dsz [Ed|Hd] Hin.
        -- apply (Hsmall d dsz); [left; exact Ed|exact Hin].
        -- apply (Hall d dsz Hd Hin).
      * right. exists (c :: f1), f2, rsz. split; [reflexivity|].
        split; [exact R2|]. split; [exact R3|].
        intros d dsz [Ed|Hd] Hin.
        -- apply (Hsmall d dsz); [left; exact Ed|exact Hin].
        -- apply (R4 d dsz Hd Hin).
Qed.

Lemma first_fit_first (s : state) (bs : blocks) (fl : list Z) (size : Z) :
  layout s bs fl ->
  exists r, first_fit s size = Some r /\
    ((r = 0 /\
      forall c csz, In (c, csz, false) (blocks_from (heap_lo s + 8) bs) ->
        csz < size) \/
     exists f1 f2 rsz, fl = f1 ++ r :: f2 /\
       In (r, rsz, false) (blocks_from (heap_lo s + 8) bs) /\ size <= rsz /\
       forall c csz, In c f1 ->
         In (c, csz, false) (blocks_from (heap_lo s + 8) bs) -> csz < size).
Proof.
  intros L. pose proof (L_tiled _ _ _ L) as T. pose proof (L_linked _ _ _ L) as [K1 K2 K3].
  pose proof (tiled_geo _ _ T) as (G1 & G2 & G3 & G4 & G5 & G6).
  assert (Hlen : (length fl < S (Z.to_nat (heap_brk s - heap_lo s)))%nat).
  { assert (H1 : (length fl <= length (free_addrs (heap_lo s + 8) bs))%nat).
    { apply NoDup_incl_length; [exact K3|]. intros c Hc. apply (L_free _ _ _ L). exact Hc. }
    pose proof (free_addrs_length bs (heap_lo s + 8)).
    pose proof (span_ge_length _ G5). lia. }
  destruct (first_fit_loop_first s bs size T fl _ 0 K1
              (fun c Hc => proj1 (L_free _ _ _ L c) Hc) Hlen) as (r & E & Hr).
  exists r. split.
  - unfold first_fit. rewrite K2. exact E.
  - destruct Hr as [(-> & Hall)|Hr]; [left|right; exact Hr].
    split; [reflexivity|]. intros c csz Hin. apply (Hall c csz); [|exact Hin].
    apply (L_free _ _ _ L). apply in_free_blocks. exists csz. exact Hin.
Qed.

(** ** [align] *)

Lemma W_eq : W = 16 * 1152921504606846976.
Proof. reflexivity. Qed.

Lemma align_small (x : Z) : 0 <= x <= W - 17 -> align x = 16 * ((x + 15) / 16).
Proof.
  intros H. unfold align, ALIGNMENT.
  rewrite (wrap_small (x + 16)) by lia.
  rewrite (wrap_small (x + 16 - 1)) by lia.
  replace (x + 16 - 1) with (x + 15) by lia.
  pose proof (Z.mul_div_le (x + 15) 16 ltac:(lia)).
  assert (0 <= (x + 15) / 16) by (apply Z.div_pos; lia).
  apply wrap_small. lia.
Qed.

Lemma align_props (x : Z) :
  0 < x <= W - 32 ->
  x <= align x /\ align x < x + 16 /\ size_ok (align x) /\ align x <= W - 32.
Proof.
  intros H. rewrite align_small by lia.
  pose proof (Z.div_mod (x + 15) 16 ltac:(lia)) as E.
  pose proof (Z.mod_pos_bound (x + 15) 16 ltac:(lia)) as B.
  pose proof W_eq as HW.
  assert (M : (16 * ((x + 15) / 16)) mod 16 = 0).
  { rewrite Z.mul_comm. apply Z.mod_mul. lia. }
  unfold size_ok. repeat split; try lia; exact M.
Qed.

Lemma align_mult (x : Z) : x mod 16 = 0 -> 0 <= x <= W - 16 -> align x = x.
Proof.
  intros M H. pose proof W_eq as HW.
  pose proof (Z.div_mod x 16 ltac:(lia)) as E. rewrite M in E.
  destruct (Z_le_gt_dec x (W - 17)) as [Hs|Hb].
  - rewrite align_small by lia.
    replace ((x + 15) / 16) with (x / 16); [lia|].
    apply Z.div_unique with (r := 15); lia.
  - assert (x = W - 16) by lia. subst x. reflexivity.
Qed.

(** ** Words the allocator leaves alone *)

(** The word at [y] lies below the epilogue and outside every free block. *)
Definition clear_of (s : state) (bs : blocks) (y : Z) : Prop :=
  (forall c csz, In (c, csz, false) (blocks_from (heap_lo s + 8) bs) ->
     y + 8 <= c \/ c + csz + 16 <= y) /\
  y + 8 <= heap_brk s - 8.

Lemma clear_nodes (s : state) (bs : blocks) (fl : list Z) (y : Z) :
  layout s bs fl -> clear_of s bs y ->
  forall c, In c fl -> far y (c + 8) /\ far y (c + 16).
Proof.
  intros L [Hc _] c Hin.
  apply (L_free _ _ _ L) in Hin. apply in_free_blocks in Hin.
  destruct Hin as [csz Hin].
  pose proof (tiled_geo _ _ (L_tiled _ _ _ L)) as (_ & _ & _ & _ & G5 & _).
  destruct (blocks_range _ _ _ _ _ G5 Hin) as (_ & _ & [Hs _]).
  specialize (Hc c csz Hin). unfold far. lia.
Qed.

(** Every word inside an allocated block, tags included, is such a word. *)
Lemma alloc_clear (s : state) (bs : blocks) (c csz y : Z) :
  tiled s bs -> In (c, csz) (alloc_blocks (heap_lo s + 8) bs) ->
  c <= y -> y + 8 <= c + csz + 16 -> clear_of s bs y.
Proof.
  intros T Hin Y1 Y2. apply in_alloc_blocks in Hin.
  pose proof (tiled_geo _ _ T) as (_ & _ & _ & _ & G5 & G6).
  destruct (blocks_range _ _ _ _ _ G5 Hin) as (R1 & R2 & [R3 _]).
  split; [|lia].
  intros d dsz Hd.
  destruct (blocks_range _ _ _ _ _ G5 Hd) as (_ & _ & [R4 _]).
  destruct (blocks_sep _ _ _ _ _ _ _ _ G5 Hin Hd) as [(E & _)|E]; [|lia].
  exfalso. subst d. destruct (block_size_unique _ _ _ _ _ _ _ T Hin Hd) as [_ E].
  discriminate.
Qed.

(** ** [expand_heap] *)

Lemma expand_heap_fail (s : state) (bytes : Z) :
  heap_max s < heap_brk s + align bytes ->
  expand_heap s bytes = Some (NULL, s).
Proof.
  intros H. unfold expand_heap, mem_sbrk.
  replace (heap_brk s + align bytes <=? heap_max s) with false
    by (symmetry; apply Z.leb_gt; lia).
  rewrite Z.eqb_refl. reflexivity.
Qed.

Lemma expand_heap_frame (s : state) (bs : blocks) (fl : list Z) (bytes : Z) :
  layout s bs fl -> 32 <= bytes -> bytes mod 16 = 0 ->
  heap_brk s + bytes <= heap_max s ->
  exists b s' l1' l2' bsz fl',
    expand_heap s bytes = Some (b, s') /\
    heap_lo s' = heap_lo s /\ heap_max s' = heap_max s /\
    heap_brk s' = heap_brk s + bytes /\
    layout s' (l1' ++ (bsz, false) :: l2') fl' /\
    b = heap_lo s + 8 + span l1' /\ bytes - 16 <= bsz /\
    alloc_blocks (heap_lo s + 8) (l1' ++ (bsz, false) :: l2') =
      alloc_blocks (heap_lo s + 8) bs /\
    b + bsz + 16 = heap_brk s + bytes - 8 /\
    (forall c, In c fl' -> c = b \/ In c fl) /\
    (forall y, clear_of s bs y ->
       y + 8 <= b /\ ldw (mem s') y = ldw (mem s) y).
Proof.
  intros L Hb Hm Hfit.
  pose proof (L_tiled _ _ _ L) as T. pose proof (L_linked _ _ _ L) as K.
  pose proof (tiled_geo _ _ T) as (G1 & G2 & G3 & G4 & G5 & G6).
  pose proof (span_nonneg _ G5) as Hsp.
  assert (Hne : 32 <= span bs).
  { pose proof (span_ge_length _ G5). pose proof (L_ne _ _ _ L).
    destruct bs; [congruence|]. cbn [length] in *. lia. }
  set (ob := heap_brk s) in *.
  set (sz := bytes - 16).
  assert (Hsz : size_ok sz).
  { subst sz. split; [lia|]. rewrite Zminus_mod, Hm. reflexivity. }
  destruct Hsz as [Hsz1 Hsz2].
  assert (Ea : align bytes = bytes) by (apply align_mult; [exact Hm|lia]).
  assert (V0 : 0 <= tag 0 true < W) by (apply tag_range; [reflexivity|lia|lia]).
  assert (V1 : 0 <= tag sz false < W) by (apply tag_range; try assumption; lia).
  set (m3 := stw (stw (stw (mem s) (ob + bytes - 8) (tag 0 true))
                   (ob + bytes - 16) (tag sz false))
               (ob - 8) (tag sz false)).
  set (s3 := set_mem (set_brk s (ob + bytes)) m3).
  assert (Loc : forall c, In c fl -> heap_lo s + 8 <= c /\ c + 32 <= ob - 8).
  { intros c Hc. apply (L_free _ _ _ L) in Hc.
    apply (free_addrs_range _ _ _ G5) in Hc. lia. }
  assert (T3 : tiled s3 (bs ++ [(sz, false)])).
  { destruct T as [? ? ? ? ? Hp He ? Hc].
    constructor; subst s3; st_simpl; try assumption.
    - rewrite span_app. cbn [span]. subst sz. lia.
    - subst m3. mem_simpl. exact Hp.
    - subst m3. mem_simpl. reflexivity.
    - apply sizes_ok_app. split; [exact G5|].
      repeat constructor; cbn [fst]; assumption.
    - apply chain_app. split.
      + subst m3. repeat (apply chain_stw_out; [exact G5| |lia]). exact Hc.
      + cbn [chain]. replace (heap_lo s + 8 + span bs) with (ob - 8) by lia.
        subst m3. split; [|split; [|exact I]].
        * mem_simpl. reflexivity.
        * replace (ob - 8 + sz + 8) with (ob + bytes - 16) by (subst sz; lia).
          mem_simpl. reflexivity. }
  assert (K3 : linked s3 fl).
  { apply (linked_node_frame_id s); [exact K|reflexivity|].
    intros c Hc. pose proof (Loc c Hc). subst s3 m3. st_simpl.
    split; mem_simpl; reflexivity. }
  assert (Enb : heap_lo s3 + 8 + span bs = ob - 8) by (subst s3; st_simpl; lia).
  destruct (tiled_before s3 bs [(sz, false)] T3)
    as [(-> & _)|(l0 & psz & pal & El & [P1 P2] & Pb & P3 & F1 & F2)].
  { exfalso. exact (L_ne _ _ _ L eq_refl). }
  rewrite Enb in Pb, F1, F2.
  assert (Epv : prev_blk s3 (ob - 8) = Some (ob - 8 - psz - 16)).
  { unfold prev_blk, BLK. cbn [Z.opp].
    rewrite padd_small by lia. replace (ob - 8 + -8) with (ob - 8 - 8) by lia.
    rewrite (get_size_ok _ _ psz pal)
      by (try assumption; subst s3; st_simpl; lia).
    cbn [bind]. rewrite padd_small by lia. f_equal. lia. }
  assert (Egp : get_allocated s3 (ob - 8 - psz - 16) = Some pal).
  { apply (get_allocated_ok _ _ psz); try assumption; subst s3; st_simpl; lia. }
  assert (Eh : forall r, 
     (prevBlk <- prev_blk s3 (ob - 8) ;;
      al <- get_allocated s3 prevBlk ;;
      (if negb al
       then s4 <- coalesce s3 (ob - 8) ;; Some (prevBlk, s4)
       else s4 <- add_node s3 (ob - 8) ;; Some (ob - 8, s4))) = r ->
     expand_heap s bytes = r).
  { intros r Hr. unfold expand_heap, mem_sbrk. rewrite Ea. fold ob.
    replace (ob + bytes <=? heap_max s) with true by (symmetry; apply Z.leb_le; lia).
    replace (ob =? SBRK_FAIL) with false
      by (symmetry; apply Z.eqb_neq; unfold SBRK_FAIL; rewrite <- (wrap_small ob) by lia;
          unfold wrap; change ((-1) mod W) with (W - 1); rewrite Z.mod_small by lia; lia).
    cbn [negb]. unfold write_value, BLK. cbn [Z.opp].
    rewrite (padd_small ob (bytes - 8)) by lia.
    rewrite (padd_small ob (bytes - 2 * 8)) by lia.
    rewrite (padd_small ob (-8)) by lia.
    rewrite (wrap_small (bytes - 2 * 8)) by lia.
    replace (ob + (bytes - 8)) with (ob + bytes - 8) by lia.
    replace (ob + (bytes - 2 * 8)) with (ob + bytes - 16) by lia.
    replace (bytes - 2 * 8) with sz by (subst sz; lia).
    replace (ob + -8) with (ob - 8) by lia.
    change (lsb_a 0 1) with (tag 0 true). change (lsb_a sz 0) with (tag sz false).
    rewrite store_ok by (st_simpl; lia). cbn [bind].
    rewrite store_ok by (st_simpl; lia). cbn [bind].
    rewrite store_ok by (st_simpl; lia). cbn [bind].
    exact Hr. }
  assert (A3 : around s3 bs (heap_lo s3 + 8 + span bs + sz + 16) [] fl).
  { intros c. change (heap_lo s3) with (heap_lo s). cbn [free_addrs In].
    rewrite (L_free _ _ _ L c). tauto. }
  pose proof (L_adj _ _ _ L) as Adj.
  destruct pal.
  - (* previous block allocated *)
    assert (La : last_alloc bs = true) by (rewrite El; apply last_alloc_snoc).
    destruct (insert_frame s3 bs [] sz fl T3 K3 A3 Adj I La eq_refl)
      as (s' & E & (E1 & E2 & E3) & L' & Fr).
    rewrite Enb in E, L', Fr.
    exists (ob - 8), s', bs, [], sz, ((ob - 8) :: fl).
    split.
    { apply Eh. rewrite Epv. cbn [bind]. rewrite Egp. cbn [bind negb].
      rewrite E. reflexivity. }
    split; [exact E1|]. split; [exact E3|]. split; [exact E2|].
    split; [exact L'|]. split; [lia|]. split; [subst sz; lia|].
    split; [rewrite alloc_blocks_app; cbn [alloc_blocks]; apply app_nil_r|].
    split; [subst sz; lia|].
    split; [intros c [<-|Hc]; auto|].
    intros y Hy. pose proof (clear_nodes _ _ _ _ L Hy) as Hn.
    destruct Hy as [_ Hy]. fold ob in Hy. split; [lia|].
    rewrite Fr.
    + subst s3 m3. st_simpl. rewrite !ldw_stw_far by (unfold far; lia). reflexivity.
    + intros c [<-|Hc]; [unfold far; lia|apply Hn; exact Hc].
  - (* previous block free *)
    destruct (coalesce_frame s3 bs [] sz fl T3 K3 A3 Adj I)
      as (s' & bs' & fl' & b' & sz' & E & (E1 & E2 & E3) & L' & _ & Hin & Hle & _ & Hb' & Eal
          & _ & He1 & _ & _ & Hfl' & Frc).
    rewrite Enb in E, He1, Frc.
    specialize (Hb' l0 psz El). rewrite Enb in Hb'.
    specialize (He1 eq_refl).
    destruct (in_blocks_split _ _ _ _ _ Hin) as (l1' & l2' & -> & Eb').
    exists (ob - 8 - psz - 16), s', l1', l2', sz', fl'.
    split.
    { apply Eh. rewrite Epv. cbn [bind]. rewrite Egp. cbn [bind negb].
      rewrite E. reflexivity. }
    split; [exact E1|]. split; [exact E3|]. split; [exact E2|].
    split; [exact L'|].
    change (heap_lo s3) with (heap_lo s) in Eb', Eal.
    split; [lia|]. split; [subst sz; lia|].
    split; [rewrite Eal; rewrite alloc_blocks_app; cbn [alloc_blocks]; apply app_nil_r|].
    split; [subst sz; lia|].
    split; [intros c Hc; rewrite <- Hb'; apply Hfl'; exact Hc|].
    intros y Hy. pose proof (clear_nodes _ _ _ _ L Hy) as Hn.
    destruct Hy as [Hy1 Hy]. fold ob in Hy.
    assert (Hpb : In (b', psz, false) (blocks_from (heap_lo s + 8) bs)).
    { rewrite El. replace b' with (heap_lo s + 8 + span l0);
        [apply in_blocks_mid|].
      rewrite El, span_app in G6. cbn [span] in G6. lia. }
    specialize (Hy1 b' psz Hpb).
    split; [lia|].
    rewrite Frc.
    + subst s3 m3. st_simpl. rewrite !ldw_stw_far by (unfold far; lia). reflexivity.
    + unfold far. lia.
    + unfold far. lia.
    + intros c [<-|Hc]; [unfold far; lia|apply Hn; exact Hc].
Qed.

Lemma expand_heap_spec (s : state) (bs : blocks) (fl : list Z) (bytes : Z) :
  layout s bs fl -> 32 <= bytes -> bytes mod 16 = 0 ->
  heap_brk s + bytes <= heap_max s ->
  exists b s' l1' l2' bsz fl',
    expand_heap s bytes = Some (b, s') /\
    heap_lo s' = heap_lo s /\ heap_max s' = heap_max s /\
    heap_brk s' = heap_brk s + bytes /\
    layout s' (l1' ++ (bsz, false) :: l2') fl' /\
    b = heap_lo s + 8 + span l1' /\ bytes - 16 <= bsz /\
    alloc_blocks (heap_lo s + 8) (l1' ++ (bsz, false) :: l2') =
      alloc_blocks (heap_lo s + 8) bs.
Proof.
  intros L Hb Hm Hfit.
  destruct (expand_heap_frame s bs fl bytes L Hb Hm Hfit)
    as (b & s' & l1' & l2' & bsz & fl' & E & H1 & H2 & H3 & L' & H4 & H5 & H6 & _).
  exists b, s', l1', l2', bsz, fl'. repeat (split; [assumption|]). exact H6.
Qed.

(** ** [mm_init] *)

(** The heap before [mm_init]: empty, at a 16-byte aligned address. *)
Definition fresh (s : state) : Prop :=
  heap_brk s = heap_lo s /\ 0 < heap_lo s /\ heap_lo s mod 16 = 0 /\
  heap_max s < W.

Lemma mm_init_fail (s0 : state) :
  heap_max s0 < heap_brk s0 + 4096 -> mm_init s0 = Some (false, s0).
Proof.
  intros H. unfold mm_init, mem_sbrk. change CHUNKSIZE with 4096.
  replace (heap_brk s0 + 4096 <=? heap_max s0) with false
    by (symmetry; apply Z.leb_gt; lia).
  rewrite Z.eqb_refl. reflexivity.
Qed.

Lemma mm_init_spec (s0 : state) :
  fresh s0 -> heap_lo s0 + 4096 <= heap_max s0 ->
  exists s, mm_init s0 = Some (true, s) /\
    heap_lo s = heap_lo s0 /\ heap_max s = heap_max s0 /\
    layout s [(4064, false)] [heap_lo s0 + 8].
Proof.
  intros (F1 & F2 & F3 & F4) Hfit.
  assert (V0 : 0 <= tag 0 true < W) by (apply tag_range; [reflexivity|lia|lia]).
  assert (V1 : 0 <= tag 4064 false < W) by (apply tag_range; [reflexivity|lia|lia]).
  unfold mm_init, mem_sbrk. change CHUNKSIZE with 4096. rewrite F1.
  replace (heap_lo s0 + 4096 <=? heap_max s0) with true
    by (symmetry; apply Z.leb_le; lia).
  replace (heap_lo s0 =? SBRK_FAIL) with false
    by (symmetry; apply Z.eqb_neq; change SBRK_FAIL with (W - 1); lia).
  unfold write_value, BLK, NULL, next_field, prev_field.
  rewrite (wrap_small (4096 - 4 * 8)) by lia.
  change (4096 - 4 * 8) with 4064.
  change (lsb_a 0 1) with (tag 0 true). change (lsb_a 4064 0) with (tag 4064 false).
  rewrite !padd_small by lia.
  rewrite store_ok by (st_simpl; lia). cbn [bind].
  rewrite store_ok by (st_simpl; lia). cbn [bind].
  rewrite store_ok by (st_simpl; lia). cbn [bind].
  rewrite store_ok by (st_simpl; lia). cbn [bind]. st_simpl.
  rewrite store_ok by (st_simpl; lia). cbn [bind]. st_simpl.
  rewrite padd_small by lia.
  rewrite store_ok by (st_simpl; lia). cbn [bind]. st_simpl.
  eexists. split; [reflexivity|]. st_simpl.
  split; [reflexivity|]. split; [reflexivity|].
  constructor.
  - constructor; st_simpl; try assumption; try lia.
    + cbn [span]. lia.
    + mem_simpl. reflexivity.
    + replace (heap_lo s0 + 4096 - 8) with (heap_lo s0 + 4088) by lia.
      mem_simpl. reflexivity.
    + apply sizes_ok_cons. split; [split; [lia|reflexivity]|constructor].
    + cbn [chain]. replace (heap_lo s0 + 8 + 4064 + 8) with (heap_lo s0 + 4080) by lia.
      split; [|split; [|exact I]]; mem_simpl; reflexivity.
  - constructor; st_simpl.
    + cbn [dllseg hd_node].
      replace (heap_lo s0 + 8 + 8) with (heap_lo s0 + 16) by lia.
      replace (heap_lo s0 + 8 + 16) with (heap_lo s0 + 16 + 8) by lia.
      split; [|split; [|exact I]]; mem_simpl; reflexivity.
    + cbn [hd_node]. lia.
    + repeat constructor. intros [].
  - st_simpl. intros c. cbn [free_addrs app In]. tauto.
  - cbn [adj_ok hd_alloc orb]. auto.
  - discriminate.
Qed.

(** ** [malloc] *)

Lemma extendsize_props (size : Z) :
  size_ok size -> size <= W - 32 ->
  let es := extendsize size in
  4096 <= es /\ size + 16 <= es /\ es mod 16 = 0 /\ es <= W - 16.
Proof.
  intros [H1 H2] H3. unfold extendsize, BLK.
  rewrite (wrap_small (size + 2 * 8)) by lia.
  pose proof W_eq.
  destruct (4096 <? size + 2 * 8) eqn:E.
  - apply Z.ltb_lt in E. repeat split; try lia.
    rewrite Z.add_mod by lia. rewrite H2. reflexivity.
  - apply Z.ltb_ge in E. repeat split; try lia.
Qed.

(** [malloc] for a request in range: either nothing fits, the heap cannot
    grow and the state is unchanged, or some free block (found or new) gets
    allocated, with room for the aligned request. *)
Lemma malloc_frame (s : state) (bs : blocks) (fl : list Z) (n : Z) :
  layout s bs fl -> 0 < n <= W - 32 ->
  exists p s', malloc s n = Some (p, s') /\
    heap_lo s' = heap_lo s /\ heap_max s' = heap_max s /\
    heap_brk s <= heap_brk s' /\
    ((p = 0 /\ s' = s /\ first_fit s (align n) = Some NULL /\
      heap_max s < heap_brk s + align (extendsize (align n))) \/
     (p <> 0 /\
      (first_fit s (align n) <> Some NULL \/
       heap_brk s + align (extendsize (align n)) <= heap_max s) /\
      exists bs' fl' A1 A2 asz,
        layout s' bs' fl' /\ align n <= asz /\
        alloc_blocks (heap_lo s + 8) bs' = A1 ++ (p - 8, asz) :: A2 /\
        alloc_blocks (heap_lo s + 8) bs = A1 ++ A2 /\
        asz < align n + 32 /\
        (first_fit s (align n) = Some (p - 8) /\ heap_brk s' = heap_brk s \/
         first_fit s (align n) = Some NULL /\
         heap_brk s' = heap_brk s + extendsize (align n)))) /\
    (forall y, clear_of s bs y -> ldw (mem s') y = ldw (mem s) y).
Proof.
  intros L Hn.
  destruct (align_props n Hn) as (Ha1 & Ha2 & Hso & Ha3).
  pose proof (tiled_geo _ _ (L_tiled _ _ _ L)) as (G1 & G2 & G3 & G4 & G5 & G6).
  destruct (first_fit_spec s bs fl (align n) L) as (r & Eff & Hr).
  unfold malloc.
  replace (n =? 0) with false by (symmetry; apply Z.eqb_neq; lia).
  cbv zeta. rewrite Eff. cbn [bind].
  destruct Hr as [->|(l1 & l2 & bsz & -> & -> & Hfit)].
  - (* nothing fits *)
    unfold NULL. cbn [Z.eqb negb].
    destruct (extendsize_props (align n) Hso Ha3) as (X1 & X2 & X3 & X4).
    assert (Eal : align (extendsize (align n)) = extendsize (align n)).
    { apply align_mult; [exact X3|lia]. }
    destruct (Z_le_gt_dec (heap_brk s + extendsize (align n)) (heap_max s)) as [Hok|Hno].
    + destruct (expand_heap_frame s bs fl (extendsize (align n)) L ltac:(lia) X3 Hok)
        as (b & s1 & l1 & l2 & bsz & fl1 & E & E1 & E2 & E3 & L1 & Eb & Hsz & Eal' & _
            & Hfl1 & Fr1).
      rewrite E. cbn [bind].
      pose proof (span_nonneg _ (proj1 (tiled_mid _ _ _ _ _ (L_tiled _ _ _ L1)))) as Hsp.
      replace (b =? 0) with false by (symmetry; apply Z.eqb_neq; lia).
      rewrite <- E1 in Eb.
      destruct (place_frame s1 l1 l2 bsz (align n) fl1 L1 Hso ltac:(lia))
        as (s' & bs' & fl' & asz & Ep & (P1 & P2 & P3) & L' & Hasz & Eal'' & Hex & Fr2).
      rewrite <- Eb in Ep, Eal'', Fr2. rewrite Ep. cbn [bind].
      pose proof (tiled_geo _ _ (L_tiled _ _ _ L1)) as (G1' & _ & G3' & G4' & _ & G6').
      rewrite span_app in G6'. cbn [span] in G6'.
      pose proof (tiled_mid _ _ _ _ _ (L_tiled _ _ _ L1)) as (_ & [? ?] & _ & _ & ? & _).
      unfold BLK. rewrite padd_small by lia.
      exists (b + 8), s'. split; [reflexivity|].
      split; [congruence|]. split; [congruence|]. split; [lia|].
      split.
      * right. split; [lia|]. split; [right; rewrite Eal; exact Hok|].
        exists bs', fl', (alloc_blocks (heap_lo s1 + 8) l1),
          (alloc_blocks (b + bsz + 16) l2), asz.
        split; [exact L'|]. split; [exact Hasz|].
        replace (b + 8 - 8) with b by lia. rewrite <- E1.
        split; [exact Eal''|].
        split.
        { rewrite E1. rewrite <- Eal'. rewrite alloc_blocks_app. cbn [alloc_blocks app].
          rewrite E1 in Eb. rewrite <- Eb. reflexivity. }
        split; [lia|].
        right. split; [reflexivity|]. lia.
      * intros y Hy. destruct (Fr1 y Hy) as [Hyb Hy1].
        pose proof (clear_nodes _ _ _ _ L Hy) as Hnodes.
        rewrite Fr2; [exact Hy1|left; exact Hyb|].
        intros c Hc. destruct (Hfl1 c Hc) as [->|Hc']; [unfold far; lia|].
        apply Hnodes. exact Hc'.
    + rewrite expand_heap_fail by (rewrite Eal; lia). cbn [bind].
      unfold NULL. cbn [Z.eqb].
      exists 0, s. split; [reflexivity|]. split; [reflexivity|]. split; [reflexivity|].
      split; [lia|]. split; [|reflexivity].
      left. rewrite Eal. repeat split. lia.
  - (* a free block fits *)
    pose proof (span_nonneg _ (proj1 (tiled_mid _ _ _ _ _ (L_tiled _ _ _ L)))) as Hsp.
    replace (heap_lo s + 8 + span l1 =? NULL) with false
      by (symmetry; apply Z.eqb_neq; unfold NULL; lia).
    cbn [negb].
    destruct (place_frame s l1 l2 bsz (align n) fl L Hso Hfit)
      as (s' & bs' & fl' & asz & Ep & (P1 & P2 & P3) & L' & Hasz & Eal & Hex & Fr).
    rewrite Ep. cbn [bind].
    rewrite span_app in G6. cbn [span] in G6.
    pose proof (tiled_mid _ _ _ _ _ (L_tiled _ _ _ L)) as (_ & [? ?] & _ & _ & ? & _).
    unfold BLK. rewrite padd_small by lia.
    exists (heap_lo s + 8 + span l1 + 8), s'. split; [reflexivity|].
    split; [exact P1|]. split; [exact P3|]. split; [lia|].
    split.
    + right. split; [lia|]. split.
      { left. intros Hc. inversion Hc as [Hc']. unfold NULL in Hc'. lia. }
      exists bs', fl', (alloc_blocks (heap_lo s + 8) l1),
        (alloc_blocks (heap_lo s + 8 + span l1 + bsz + 16) l2), asz.
      split; [exact L'|]. split; [exact Hasz|].
      replace (heap_lo s + 8 + span l1 + 8 - 8) with (heap_lo s + 8 + span l1) by lia.
      split; [exact Eal|].
      split; [rewrite alloc_blocks_app; cbn [alloc_blocks app]; reflexivity|].
      split; [lia|].
      left. split; [reflexivity|exact P2].
    + intros y Hy. pose proof (clear_nodes _ _ _ _ L Hy) as Hnodes.
      destruct Hy as [Hy _].
      specialize (Hy _ _ (in_blocks_mid l1 l2 (heap_lo s + 8) bsz false)).
      apply Fr; [exact Hy|exact Hnodes].
Qed.

Lemma malloc_spec (s : state) (bs : blocks) (fl : list Z) (n : Z) :
  layout s bs fl -> 0 < n <= W - 32 ->
  exists p s', malloc s n = Some (p, s') /\
    heap_lo s' = heap_lo s /\ heap_max s' = heap_max s /\
    heap_brk s <= heap_brk s' /\
    ((p = 0 /\ s' = s /\ first_fit s (align n) = Some NULL /\
      heap_max s < heap_brk s + align (extendsize (align n))) \/
     (p <> 0 /\
      (first_fit s (align n) <> Some NULL \/
       heap_brk s + align (extendsize (align n)) <= heap_max s) /\
      exists bs' fl' A1 A2 asz,
        layout s' bs' fl' /\ align n <= asz /\
        alloc_blocks (heap_lo s + 8) bs' = A1 ++ (p - 8, asz) :: A2 /\
        alloc_blocks (heap_lo s + 8) bs = A1 ++ A2)).
Proof.
  intros L Hn.
  destruct (malloc_frame s bs fl n L Hn) as (p & s' & E & H1 & H2 & H3 & Hc & _).
  exists p, s'. repeat (split; [assumption|]).
  destruct Hc as [Hc|(Hp & Hf & bs' & fl' & A1 & A2 & asz & L' & Ha & E1 & E2 & _)].
  - left. exact Hc.
  - right. split; [exact Hp|]. split; [exact Hf|].
    exists bs', fl', A1, A2, asz. auto.
Qed.

(** ** Writes into the payload of an allocated block *)

(** The two memories agree outside the byte range [[lo, hi)]. *)
Definition bytes_frame (lo hi : Z) (m m' : Z -> Z) : Prop :=
  forall x, x < lo \/ hi <= x -> m' x = m x.

Lemma layout_payload_write (s : state) (bs : blocks) (fl : list Z)
      (b sz : Z) (m' : Z -> Z) :
  layout s bs fl -> In (b, sz) (alloc_blocks (heap_lo s + 8) bs) ->
  bytes_frame (b + 8) (b + 8 + sz) (mem s) m' ->
  layout (set_mem s m') bs fl.
Proof.
  intros L Hb Fr. apply in_alloc_blocks in Hb.
  pose proof (L_tiled _ _ _ L) as T. pose proof (L_linked _ _ _ L) as K.
  pose proof (tiled_geo _ _ T) as (G1 & G2 & G3 & G4 & G5 & G6).
  destruct (blocks_range _ _ _ _ _ G5 Hb) as (R1 & R2 & R3 & _).
  constructor; try apply L.
  - destruct T as [? ? ? ? ? Hp He ? Hc].
    constructor; st_simpl; try assumption.
    + rewrite <- Hp. apply ldw_ext. intros x Hx. apply Fr. lia.
    + rewrite <- He. apply ldw_ext. intros x Hx. apply Fr. lia.
    + apply (chain_frame (mem s)); [exact Hc|].
      intros d dsz dal Hd.
      destruct (blocks_range _ _ _ _ _ G5 Hd) as (D1 & D2 & D3 & _).
      destruct (blocks_sep _ _ _ _ _ _ _ _ G5 Hb Hd) as [(E1 & E2 & _)|E];
        split; apply ldw_ext; intros x Hx; apply Fr; lia.
  - apply (linked_node_frame_id s); [exact K|reflexivity|].
    intros c Hc. apply (L_free _ _ _ L) in Hc. apply in_free_blocks in Hc.
    destruct Hc as [csz Hc].
    destruct (blocks_range _ _ _ _ _ G5 Hc) as (D1 & D2 & D3 & _).
    destruct (blocks_sep _ _ _ _ _ _ _ _ G5 Hb Hc) as [(_ & _ & E)|E];
      [discriminate|].
    st_simpl. split; apply ldw_ext; intros x Hx; apply Fr; lia.
Qed.

Lemma mem_memcpy_frame (s s' : state) (dst src n : Z) :
  mem_memcpy s dst src n = Some s' ->
  s' = set_mem s (mem s') /\ bytes_frame dst (dst + n) (mem s) (mem s') /\
  heap_lo s <= dst.
Proof.
  unfold mem_memcpy. destruct (in_heap s dst n) eqn:E1; [|discriminate].
  destruct (in_heap s src n); [|discriminate]. cbn [andb].
  intros H. inversion H; subst s'. st_simpl.
  split; [reflexivity|]. split.
  - intros x Hx.
    replace ((dst <=? x) && (x <? dst + n)) with false; [reflexivity|].
    symmetry. apply andb_false_iff.
    destruct Hx; [left; apply Z.leb_gt; lia|right; apply Z.ltb_ge; lia].
  - unfold in_heap in E1. apply andb_prop in E1. destruct E1 as [E1 _].
    apply Z.leb_le in E1. exact E1.
Qed.

Lemma mem_memset_frame (s s' : state) (dst c n : Z) :
  mem_memset s dst c n = Some s' ->
  s' = set_mem s (mem s') /\ bytes_frame dst (dst + n) (mem s) (mem s') /\
  (forall x, dst <= x < dst + n -> mem s' x = c mod 256).
Proof.
  unfold mem_memset. destruct (in_heap s dst n); [|discriminate].
  intros H. inversion H; subst s'. st_simpl.
  split; [reflexivity|]. split.
  - intros x Hx.
    replace ((dst <=? x) && (x <? dst + n)) with false; [reflexivity|].
    symmetry. apply andb_false_iff.
    destruct Hx; [left; apply Z.leb_gt; lia|right; apply Z.ltb_ge; lia].
  - intros x Hx.
    replace ((dst <=? x) && (x <? dst + n)) with true; [reflexivity|].
    symmetry. apply andb_true_intro. split; [apply Z.leb_le|apply Z.ltb_lt]; lia.
Qed.

(** ** The set of allocated blocks across a call *)

Lemma alloc_blocks_range (bs : blocks) (a c csz : Z) :
  sizes_ok bs -> In (c, csz) (alloc_blocks a bs) ->
  a <= c /\ c + csz + 16 <= a + span bs /\ size_ok csz.
Proof. intros Hs H. apply in_alloc_blocks in H. exact (blocks_range _ _ _ _ _ Hs H). Qed.

Lemma alloc_blocks_NoDup (bs : blocks) : forall a,
  sizes_ok bs -> NoDup (map fst (alloc_blocks a bs)).
Proof.
  induction bs as [|[sz al] r IH]; intros a Hs; cbn [alloc_blocks map].
  - constructor.
  - apply sizes_ok_cons in Hs. destruct Hs as [[Hs0 _] Hs].
    destruct al; cbn [app map fst]; [|apply IH; exact Hs].
    constructor; [|apply IH; exact Hs].
    intros H. apply in_map_iff in H. destruct H as ([c csz] & E & H).
    cbn [fst] in E. subst c.
    apply (alloc_blocks_range _ _ _ _ Hs) in H. lia.
Qed.

Lemma NoDup_fst_mid (A1 A2 : list (Z * Z)) (x : Z * Z) (r a : Z) :
  NoDup (map fst (A1 ++ x :: A2)) -> In (r, a) (A1 ++ A2) -> r <> fst x.
Proof.
  intros H Hin Heq. rewrite map_app in H. cbn [map] in H.
  apply NoDup_remove_2 in H. apply H. rewrite <- map_app.
  apply in_map_iff. exists (r, a). split; [exact Heq|exact Hin].
Qed.

Lemma in_mid_other (A1 A2 : list (Z * Z)) (x y : Z * Z) :
  In y (A1 ++ x :: A2) -> fst y <> fst x -> In y (A1 ++ A2).
Proof.
  intros H Hne. apply in_app_or in H. apply in_or_app.
  destruct H as [H|[H|H]]; [left; exact H| |right; exact H].
  subst y. congruence.
Qed.

(** How the allocated blocks change over a call that releases the block of
    [p] (if any) and hands out the block of [q] (if not null) for a request of
    [n] bytes. *)
Definition alloc_step (A A' : list (Z * Z)) (p q n : Z) : Prop :=
  (forall r a, In (r, a) A -> r <> p - 8 ->
     In (r, a) A' /\ (q <> 0 -> r <> q - 8)) /\
  (q <> 0 -> exists asz, In (q - 8, asz) A' /\ n <= asz).

Lemma alloc_step_none (A : list (Z * Z)) (p n : Z) : alloc_step A A p 0 n.
Proof.
  split.
  - intros r a Hin _. split; [exact Hin|congruence].
  - congruence.
Qed.

Lemma layout_alloc_positive (s : state) (bs : blocks) (fl : list Z) (r a : Z) :
  layout s bs fl -> In (r, a) (alloc_blocks (heap_lo s + 8) bs) -> r <> 0 - 8.
Proof.
  intros L H.
  pose proof (tiled_geo _ _ (L_tiled _ _ _ L)) as (G1 & _ & _ & _ & G5 & _).
  apply (alloc_blocks_range _ _ _ _ G5) in H. lia.
Qed.

(** [malloc] in terms of the allocated set (partial form, any outcome). *)
Lemma malloc_step (s : state) (bs : blocks) (fl : list Z) (n p : Z) (s' : state) :
  layout s bs fl -> 0 <= n <= W - 32 -> malloc s n = Some (p, s') ->
  heap_lo s' = heap_lo s /\ heap_max s' = heap_max s /\
  exists bs' fl', layout s' bs' fl' /\
    alloc_step (alloc_blocks (heap_lo s + 8) bs) (alloc_blocks (heap_lo s + 8) bs') 0 p n.
Proof.
  intros L Hn E.
  destruct (Z.eq_dec n 0) as [->|Hn0].
  - unfold malloc in E. cbn [Z.eqb] in E. inversion E; subst.
    split; [reflexivity|]. split; [reflexivity|].
    exists bs, fl. split; [exact L|]. apply alloc_step_none.
  - destruct (malloc_spec s bs fl n L ltac:(lia))
      as (p1 & s1 & E1 & H1 & H2 & H3 & Hcase).
    rewrite E1 in E. inversion E; subst p1 s1.
    split; [exact H1|]. split; [exact H2|].
    destruct Hcase as [(-> & -> & _)|(Hp & _ & bs' & fl' & A1 & A2 & asz & L' & Ha & Ea' & Ea)].
    + exists bs, fl. split; [exact L|]. apply alloc_step_none.
    + exists bs', fl'. split; [exact L'|].
      pose proof (tiled_geo _ _ (L_tiled _ _ _ L')) as (_ & _ & _ & _ & G5 & _).
      pose proof (alloc_blocks_NoDup bs' (heap_lo s + 8) G5) as Nd.
      rewrite Ea' in Nd. rewrite Ea, Ea'. split.
      * intros r a Hin _. split.
        -- apply in_app_or in Hin. apply in_or_app.
           destruct Hin; [left|right; right]; assumption.
        -- intros _. exact (NoDup_fst_mid _ _ _ _ _ Nd Hin).
      * intros _. exists asz. split; [apply in_or_app; right; left; reflexivity|].
        destruct (align_props n ltac:(lia)) as (? & _). lia.
Qed.

(** [free] of an allocated block in terms of the allocated set. *)
Lemma free_step (s : state) (bs : blocks) (fl : list Z) (p psz : Z) :
  layout s bs fl -> In (p - 8, psz) (alloc_blocks (heap_lo s + 8) bs) ->
  exists s' bs' fl' b' sz',
    free s p = Some s' /\ same_heap s s' /\ layout s' bs' fl' /\
    first s' = b' + 8 /\
    In (b', sz', false) (blocks_from (heap_lo s + 8) bs') /\
    alloc_step (alloc_blocks (heap_lo s + 8) bs) (alloc_blocks (heap_lo s + 8) bs') p 0 0.
Proof.
  intros L Hp. pose proof Hp as Hp'. apply in_alloc_blocks in Hp'.
  destruct (in_blocks_split _ _ _ _ _ Hp') as (l1 & l2 & -> & Eb).
  destruct (free_spec s l1 l2 psz fl L)
    as (s' & bs' & fl' & b' & sz' & E & SH & L' & Hf & Hin & Ea).
  replace (heap_lo s + 8 + span l1 + 8) with p in E by lia.
  exists s', bs', fl', b', sz'.
  split; [exact E|]. split; [exact SH|]. split; [exact L'|].
  split; [exact Hf|]. split; [exact Hin|].
  pose proof (tiled_geo _ _ (L_tiled _ _ _ L)) as (_ & _ & _ & _ & G5 & _).
  pose proof (alloc_blocks_NoDup _ (heap_lo s + 8) G5) as Nd.
  rewrite Ea. rewrite alloc_blocks_app in *. cbn [alloc_blocks app] in *.
  split; [|congruence].
  intros r a Hin' Hne. split; [|congruence].
  apply (in_mid_other _ _ (heap_lo s + 8 + span l1, psz) (r, a)); [exact Hin'|].
  cbn [fst]. lia.
Qed.

Lemma needed_size_val (n : Z) :
  0 < n <= W - 32 -> needed_size n = align n + 16.
Proof.
  intros H. destruct (align_props n H) as (_ & _ & [? _] & ?).
  unfold needed_size, BLK. apply wrap_small. lia.
Qed.

Lemma bytes_frame_wider (lo hi hi' : Z) (m m' : Z -> Z) :
  bytes_frame lo hi m m' -> hi <= hi' -> bytes_frame lo hi' m m'.
Proof. intros H Hle x Hx. apply H. lia. Qed.

(** [realloc] of an allocated block in terms of the allocated set. *)
Lemma realloc_step (s : state) (bs : blocks) (fl : list Z)
      (p psz n q : Z) (s' : state) :
  layout s bs fl -> In (p - 8, psz) (alloc_blocks (heap_lo s + 8) bs) ->
  0 <= n <= W - 32 -> realloc s p n = Some (q, s') ->
  heap_lo s' = heap_lo s /\ heap_max s' = heap_max s /\
  exists bs' fl', layout s' bs' fl' /\
    alloc_step (alloc_blocks (heap_lo s + 8) bs) (alloc_blocks (heap_lo s + 8) bs') p q n.
Proof.
  intros L Hp Hn E.
  pose proof (L_tiled _ _ _ L) as T.
  pose proof (tiled_geo _ _ T) as (G1 & G2 & G3 & G4 & G5 & G6).
  pose proof Hp as Hp'. apply in_alloc_blocks in Hp'.
  destruct (tiled_block _ _ _ _ _ T Hp') as (B1 & B2 & [B3 B4] & B5 & B6).
  unfold realloc, BLK, NULL in E. cbn [Z.opp] in E.
  rewrite padd_small in E by lia. replace (p + -8) with (p - 8) in E by lia.
  rewrite (get_size_ok _ _ psz true) in E by (try assumption; lia).
  cbn [bind] in E.
  replace (p =? 0) with false in E by (symmetry; apply Z.eqb_neq; lia).
  destruct (Z.eq_dec n 0) as [->|Hn0].
  - (* size 0: release *)
    cbn [Z.eqb] in E.
    destruct (free_step s bs fl p psz L Hp)
      as (s1 & bs1 & fl1 & b' & sz' & Ef & (E1 & E2 & E3) & L1 & _ & _ & St).
    rewrite Ef in E. cbn [bind] in E. inversion E; subst q s'.
    split; [exact E1|]. split; [exact E3|].
    exists bs1, fl1. split; [exact L1|exact St].
  - replace (n =? 0) with false in E by (symmetry; apply Z.eqb_neq; lia).
    rewrite needed_size_val in E by lia.
    destruct (align_props n ltac:(lia)) as (A1 & A2 & [A3 A4] & A5).
    destruct (align n + 16 <=? psz) eqn:Hfit.
    + (* the block is large enough *)
      apply Z.leb_le in Hfit. inversion E; subst q s'.
      split; [reflexivity|]. split; [reflexivity|].
      exists bs, fl. split; [exact L|]. split.
      * intros r a Hin Hne. split; [exact Hin|]. intros _. exact Hne.
      * intros _. exists psz. split; [exact Hp|lia].
    + (* move *)
      apply Z.leb_gt in Hfit.
      assert (Hpa : psz <= align n).
      { pose proof (Z.div_mod psz 16 ltac:(lia)) as D1.
        pose proof (Z.div_mod (align n) 16 ltac:(lia)) as D2.
        rewrite B4 in D1. rewrite A4 in D2. lia. }
      destruct (malloc_spec s bs fl n L ltac:(lia))
        as (q1 & s1 & Em & H1 & H2 & H3 & Hcase).
      rewrite Em in E. cbn [bind] in E.
      destruct Hcase as [(-> & -> & _)|(Hq & _ & bs1 & fl1 & X1 & X2 & asz & L1 & Ha & Ea1 & Ea)].
      { unfold mem_memcpy, in_heap in E.
        replace (heap_lo s <=? 0) with false in E by (symmetry; apply Z.leb_gt; lia).
        cbn [andb bind] in E. discriminate. }
      destruct (mem_memcpy s1 q1 p psz) as [s2|] eqn:Ec; [|discriminate].
      cbn [bind] in E.
      destruct (mem_memcpy_frame _ _ _ _ _ Ec) as (Es2 & Fr & _).
      rewrite <- H1 in Ea1.
      assert (Hq1 : In (q1 - 8, asz) (alloc_blocks (heap_lo s1 + 8) bs1)).
      { rewrite Ea1. apply in_or_app. right. left. reflexivity. }
      assert (L2 : layout s2 bs1 fl1).
      { rewrite Es2. apply (layout_payload_write _ _ _ (q1 - 8) asz); [exact L1|exact Hq1|].
        replace (q1 - 8 + 8) with q1 by lia.
        apply (bytes_frame_wider _ _ _ _ _ Fr). lia. }
      assert (Hp2 : In (p - 8, psz) (alloc_blocks (heap_lo s2 + 8) bs1)).
      { rewrite Es2. st_simpl. rewrite Ea1. rewrite Ea in Hp.
        apply in_app_or in Hp. apply in_or_app.
        destruct Hp; [left|right; right]; assumption. }
      destruct (free_step s2 bs1 fl1 p psz L2 Hp2)
        as (s3 & bs3 & fl3 & b' & sz' & Ef & (E1 & E2 & E3) & L3 & _ & _ & St).
      rewrite Ef in E. cbn [bind] in E. inversion E; subst q s'.
      assert (Hlo2 : heap_lo s2 = heap_lo s).
      { rewrite Es2. st_simpl. exact H1. }
      assert (Hmx2 : heap_max s2 = heap_max s).
      { rewrite Es2. st_simpl. exact H2. }
      split; [congruence|]. split; [congruence|].
      exists bs3, fl3. split; [exact L3|].
      rewrite Hlo2 in St. rewrite H1 in Ea1.
      pose proof (tiled_geo _ _ (L_tiled _ _ _ L1)) as (_ & _ & _ & _ & G5' & _).
      pose proof (alloc_blocks_NoDup bs1 (heap_lo s + 8) G5') as Nd.
      rewrite Ea1 in Nd, St. rewrite Ea in Hp |- *.
      destruct St as [St _]. split.
      * intros r a Hin Hne.
        assert (Hin1 : In (r, a) (X1 ++ (q1 - 8, asz) :: X2)).
        { apply in_app_or in Hin. apply in_or_app.
          destruct Hin; [left|right; right]; assumption. }
        split; [apply (St r a Hin1 Hne)|].
        intros _. exact (NoDup_fst_mid _ _ _ _ _ Nd Hin).
      * intros _. exists asz. split; [|lia].
        apply St; [apply in_or_app; right; left; reflexivity|].
        intros Heq. apply (NoDup_fst_mid _ _ _ _ _ Nd Hp). cbn [fst]. lia.
Qed.

(** [calloc] in terms of the allocated set. *)
Lemma calloc_step (s : state) (bs : blocks) (fl : list Z)
      (nmemb size p : Z) (s' : state) :
  layout s bs fl -> wrap (size * nmemb) <= W - 32 ->
  calloc s nmemb size = Some (p, s') ->
  heap_lo s' = heap_lo s /\ heap_max s' = heap_max s /\
  exists bs' fl', layout s' bs' fl' /\
    alloc_step (alloc_blocks (heap_lo s + 8) bs) (alloc_blocks (heap_lo s + 8) bs')
               0 p (wrap (size * nmemb)).
Proof.
  intros L Hn E. unfold calloc in E.
  pose proof (wrap_range (size * nmemb)) as Hr.
  destruct (malloc s (wrap (size * nmemb))) as [[q s1]|] eqn:Em; [|discriminate].
  cbn [bind] in E.
  destruct (malloc_step s bs fl (wrap (size * nmemb)) q s1 L ltac:(lia) Em) as (H1 & H2 & bs1 & fl1 & L1 & St).
  unfold NULL in E. destruct (q =? 0) eqn:Hq; cbn [negb] in E.
  - inversion E; subst p s'. split; [exact H1|]. split; [exact H2|].
    exists bs1, fl1. split; assumption.
  - apply Z.eqb_neq in Hq.
    destruct (mem_memset s1 q 0 (wrap (size * nmemb))) as [s2|] eqn:Es; [|discriminate].
    cbn [bind] in E. inversion E; subst p s'.
    destruct (mem_memset_frame _ _ _ _ _ Es) as (Es2 & Fr & _).
    destruct (proj2 St Hq) as (asz & Hq1 & Hle).
    rewrite <- H1 in Hq1.
    assert (L2 : layout s2 bs1 fl1).
    { rewrite Es2. apply (layout_payload_write _ _ _ (q - 8) asz); [exact L1|exact Hq1|].
      replace (q - 8 + 8) with q by lia.
      apply (bytes_frame_wider _ _ _ _ _ Fr). lia. }
    split; [rewrite Es2; exact H1|]. split; [rewrite Es2; exact H2|].
    exists bs1, fl1. split; assumption.
Qed.

(** ** Checking boundary tags by walking the heap

    The walk of [mm_checkheap]: from the first block, compare what header and
    footer decode to and step to the next block, until the epilogue. *)

Definition decode (w : Z) : Z * bool := (Z.land w (W - 2), negb (Z.land w 1 =? 0)).

Definition same_pair (x y : Z * bool) : bool :=
  (fst x =? fst y) && Bool.eqb (snd x) (snd y).

Fixpoint tags_walk (fuel : nat) (s : state) (a : Z) : bool :=
  match fuel with
  | O => false
  | S k =>
      if a =? heap_brk s - 8 then true
      else
        match load s a with
        | None => false
        | Some h =>
            let sz := fst (decode h) in
            match load s (padd a (sz + BLK)) with
            | None => false
            | Some f =>
                same_pair (decode h) (decode f) &&
                tags_walk k s (padd a (sz + 2 * BLK))
            end
        end
  end.

Definition tags_agree (s : state) : bool :=
  tags_walk (S (Z.to_nat (heap_brk s - heap_lo s))) s (heap_lo s + 8).

Lemma decode_tag (sz : Z) (al : bool) :
  sz mod 16 = 0 -> 0 <= sz -> sz + 16 <= W -> decode (tag sz al) = (sz, al).
Proof.
  intros H H0 H1. unfold decode. rewrite tag_size, tag_alloc by assumption.
  reflexivity.
Qed.

Lemma tags_walk_chain (s : state) (bs : blocks) : forall (fuel : nat) (a : Z),
  sizes_ok bs -> chain (mem s) a bs ->
  heap_lo s <= a -> 0 < a -> a + span bs = heap_brk s - 8 -> heap_brk s <= W ->
  (length bs < fuel)%nat ->
  tags_walk fuel s a = true.
Proof.
  induction bs as [|[sz al] r IH]; intros fuel a Hs Hc Ha Ha0 He Hw Hf.
  - destruct fuel as [|k]; [cbn [length] in Hf; lia|].
    cbn [tags_walk span] in *.
    replace (a =? heap_brk s - 8) with true by (symmetry; apply Z.eqb_eq; lia).
    reflexivity.
  - destruct fuel as [|k]; [cbn [length] in Hf; lia|].
    cbn [length] in Hf. cbn [span] in He. cbn [chain] in Hc.
    destruct Hc as (C1 & C2 & C3).
    apply sizes_ok_cons in Hs. destruct Hs as [[Hz1 Hz2] Hs].
    pose proof (span_nonneg _ Hs).
    cbn [tags_walk].
    replace (a =? heap_brk s - 8) with false by (symmetry; apply Z.eqb_neq; lia).
    rewrite load_ok by lia. rewrite C1.
    rewrite !(decode_tag sz al) by (try assumption; lia). cbn [fst].
    unfold BLK. rewrite padd_small by lia.
    replace (a + (sz + 8)) with (a + sz + 8) by lia.
    rewrite load_ok by lia. rewrite C2.
    rewrite !(decode_tag sz al) by (try assumption; lia).
    unfold same_pair. rewrite Z.eqb_refl, eqb_reflx. cbn [andb].
    rewrite padd_small by lia.
    replace (a + (sz + 2 * 8)) with (a + sz + 16) by lia.
    apply IH; try assumption; lia.
Qed.

Lemma tiled_tags_agree (s : state) (bs : blocks) : tiled s bs -> tags_agree s = true.
Proof.
  intros T. pose proof (tiled_geo _ _ T) as (G1 & G2 & G3 & G4 & G5 & G6).
  pose proof (span_ge_length _ G5). pose proof (span_nonneg _ G5).
  unfold tags_agree. apply (tags_walk_chain s bs); try assumption; try lia.
  apply T.
Qed.

(** ** Outstanding allocations *)

(** The pointers handed out and not yet released, each with the number of
    bytes that was asked for. *)
Definition outs : Type := list (Z * Z).

Definition track (p n : Z) (O : outs) : outs :=
  if p =? NULL then O else (p, n) :: O.

Definition untrack (p : Z) (O : outs) : outs :=
  filter (fun x => negb (fst x =? p)) O.

(** Every payload lies inside the heap. *)
Definition payloads_in_heap (s : state) (O : outs) : Prop :=
  forall p n, In (p, n) O -> heap_lo s <= p /\ p + n <= heap_brk s.

(** The payloads of two different entries share no byte. *)
Definition payloads_disjoint (O : outs) : Prop :=
  forall i j p n q m, i <> j ->
    nth_error O i = Some (p, n) -> nth_error O j = Some (q, m) ->
    0 < n -> 0 < m -> p + n <= q \/ q + m <= p.

(** Largest request for which rounding up and adding the tag overhead do not
    wrap around. *)
Definition MAX_REQUEST : Z := W - 32.

(** States reached from a fresh heap by calls of a client that passes sizes up
    to [MAX_REQUEST], releases only what it holds, and writes only into what
    it holds. *)
Inductive reach : state -> outs -> Prop :=
| reach_init (s0 s : state) :
    fresh s0 -> mm_init s0 = Some (true, s) -> reach s []
| reach_malloc (s : state) (O : outs) (n p : Z) (s' : state) :
    reach s O -> 0 <= n <= MAX_REQUEST ->
    malloc s n = Some (p, s') -> reach s' (track p n O)
| reach_free (s : state) (O : outs) (p : Z) (s' : state) :
    reach s O -> p = NULL \/ In p (map fst O) ->
    free s p = Some s' -> reach s' (untrack p O)
| reach_realloc (s : state) (O : outs) (p n q : Z) (s' : state) :
    reach s O -> p = NULL \/ In p (map fst O) -> 0 <= n <= MAX_REQUEST ->
    realloc s p n = Some (q, s') -> reach s' (track q n (untrack p O))
| reach_calloc (s : state) (O : outs) (nmemb size p : Z) (s' : state) :
    reach s O -> wrap (size * nmemb) <= MAX_REQUEST ->
    calloc s nmemb size = Some (p, s') ->
    reach s' (track p (wrap (size * nmemb)) O)
| reach_poke (s : state) (O : outs) (p n i v : Z) :
    reach s O -> In (p, n) O -> 0 <= i < n ->
    reach (set_mem s (upd (mem s) (p + i) v)) O.

(** Every outstanding pointer is the payload of its own allocated block,
    which has room for the request. *)
Definition tracked (A : list (Z * Z)) (O : outs) : Prop :=
  NoDup (map fst O) /\
  forall p n, In (p, n) O -> exists asz, In (p - 8, asz) A /\ n <= asz.

Definition inv (s : state) (O : outs) : Prop :=
  exists bs fl, layout s bs fl /\ tracked (alloc_blocks (heap_lo s + 8) bs) O.

Lemma untrack_in (p : Z) (O : outs) (q n : Z) :
  In (q, n) (untrack p O) <-> In (q, n) O /\ q <> p.
Proof.
  unfold untrack. rewrite filter_In. cbn [fst].
  rewrite negb_true_iff, Z.eqb_neq. reflexivity.
Qed.

Lemma untrack_NoDup (p : Z) (O : outs) :
  NoDup (map fst O) -> NoDup (map fst (untrack p O)).
Proof.
  induction O as [|[q n] O IH]; intros H; cbn [untrack filter map fst] in *.
  - constructor.
  - apply NoDup_cons_iff in H. destruct H as [H1 H2].
    destruct (negb (q =? p)); cbn [map fst]; [|apply IH; exact H2].
    constructor; [|apply IH; exact H2].
    intros Hin. apply H1. apply in_map_iff in Hin.
    destruct Hin as ([q' n'] & E & Hin). cbn [fst] in E. subst q'.
    apply untrack_in in Hin. apply in_map_iff. exists (q, n'). split; [reflexivity|apply Hin].
Qed.

Lemma tracked_step (A A' : list (Z * Z)) (O : outs) (p q n : Z) :
  tracked A O -> alloc_step A A' p q n -> tracked A' (track q n (untrack p O)).
Proof.
  intros [Nd Hin] [St1 St2].
  assert (Hu : forall r m, In (r, m) (untrack p O) ->
            (exists asz, In (r - 8, asz) A' /\ m <= asz) /\ (q <> 0 -> r <> q)).
  { intros r m Hr. apply untrack_in in Hr. destruct Hr as [Hr Hne].
    destruct (Hin r m Hr) as (asz & Ha & Hle).
    destruct (St1 (r - 8) asz Ha ltac:(lia)) as [H1 H2].
    split; [exists asz; auto|]. intros Hq. specialize (H2 Hq). lia. }
  unfold track, NULL. destruct (q =? 0) eqn:Hq.
  - split; [apply untrack_NoDup; exact Nd|]. intros r m Hr. apply (Hu r m Hr).
  - apply Z.eqb_neq in Hq. split.
    + cbn [map fst]. constructor; [|apply untrack_NoDup; exact Nd].
      intros Hc. apply in_map_iff in Hc. destruct Hc as ([r m] & E & Hr).
      cbn [fst] in E. subst r. exact (proj2 (Hu q m Hr) Hq eq_refl).
    + intros r m [E|Hr]; [|apply (Hu r m Hr)].
      inversion E; subst r m. exact (St2 Hq).
Qed.

Lemma track_null (n : Z) (O : outs) : track 0 n O = O.
Proof. reflexivity. Qed.

(** A load through a null pointer faults. *)
Lemma load_null_fault (s : state) (bs : blocks) (k : Z) :
  tiled s bs -> -8 <= k < 0 -> load s (padd NULL k) = None.
Proof.
  intros T Hk. pose proof (tiled_geo _ _ T) as (G1 & G2 & G3 & G4 & G5 & G6).
  unfold load, in_heap, padd, NULL, wrap.
  replace ((0 + k) mod W) with (W + k).
  - replace (W + k + 8 <=? heap_brk s) with false by (symmetry; apply Z.leb_gt; lia).
    rewrite andb_false_r. reflexivity.
  - pose proof W_eq. apply Z.mod_unique with (q := -1); lia.
Qed.

(** The invariant holds in every reachable state. *)
Lemma reach_inv (s : state) (O : outs) : reach s O -> inv s O.
Proof.
  induction 1 as [s0 s F E|s O n p s' R IH Hn E|s O p s' R IH Hp E
                 |s O p n q s' R IH Hp Hn E|s O nmemb size p s' R IH Hn E
                 |s O p n i v R IH Hin Hi].
  - (* mm_init *)
    destruct (Z_le_gt_dec (heap_lo s0 + 4096) (heap_max s0)) as [Hok|Hno].
    + destruct (mm_init_spec s0 F Hok) as (s1 & E1 & _ & _ & L).
      rewrite E1 in E. inversion E; subst s1.
      exists [(4064, false)], [heap_lo s0 + 8]. split; [exact L|].
      split; [constructor|intros p n []].
    + rewrite mm_init_fail in E by (destruct F as (-> & _); lia). discriminate.
  - (* malloc *)
    destruct IH as (bs & fl & L & Tr).
    destruct (malloc_step _ _ _ _ _ _ L Hn E) as (H1 & H2 & bs' & fl' & L' & St).
    exists bs', fl'. split; [exact L'|]. rewrite H1.
    pose proof (tracked_step _ _ _ _ _ _ Tr St) as Tr'.
    destruct Tr as [_ Hin].
    replace (untrack 0 O) with O in Tr'; [exact Tr'|].
    unfold untrack. symmetry. apply forallb_filter_id.
    apply forallb_forall. intros [r m] Hr. cbn [fst].
    destruct (Hin r m Hr) as (asz & Ha & _).
    pose proof (layout_alloc_positive _ _ _ _ _ L Ha).
    apply negb_true_iff. apply Z.eqb_neq. lia.
  - (* free *)
    destruct IH as (bs & fl & L & Tr).
    destruct Hp as [->|Hp].
    + unfold free in E. cbn [Z.eqb] in E. inversion E; subst s'.
      exists bs, fl. split; [exact L|].
      pose proof (tracked_step _ _ _ 0 0 0 Tr (alloc_step_none _ 0 0)) as Tr'.
      exact Tr'.
    + apply in_map_iff in Hp. destruct Hp as ([p' n] & Ep & Hp). cbn [fst] in Ep. subst p'.
      destruct (proj2 Tr p n Hp) as (asz & Ha & _).
      destruct (free_step s bs fl p asz L Ha)
        as (s1 & bs1 & fl1 & b' & sz' & Ef & (E1 & E2 & E3) & L1 & _ & _ & St).
      rewrite Ef in E. inversion E; subst s1.
      exists bs1, fl1. split; [exact L1|]. rewrite E1.
      exact (tracked_step _ _ _ _ _ _ Tr St).
  - (* realloc *)
    destruct IH as (bs & fl & L & Tr).
    destruct Hp as [->|Hp].
    + unfold realloc, get_size in E.
      rewrite (load_null_fault s bs (- BLK) (L_tiled _ _ _ L)) in E
        by (unfold BLK; lia).
      discriminate.
    + apply in_map_iff in Hp. destruct Hp as ([p' m] & Ep & Hp). cbn [fst] in Ep. subst p'.
      destruct (proj2 Tr p m Hp) as (asz & Ha & _).
      destruct (realloc_step s bs fl p asz n q s' L Ha Hn E)
        as (H1 & H2 & bs' & fl' & L' & St).
      exists bs', fl'. split; [exact L'|]. rewrite H1.
      exact (tracked_step _ _ _ _ _ _ Tr St).
  - (* calloc *)
    destruct IH as (bs & fl & L & Tr).
    destruct (calloc_step s bs fl nmemb size p s' L Hn E)
      as (H1 & H2 & bs' & fl' & L' & St).
    exists bs', fl'. split; [exact L'|]. rewrite H1.
    pose proof (tracked_step _ _ _ _ _ _ Tr St) as Tr'.
    destruct Tr as [_ Hin].
    replace (untrack 0 O) with O in Tr'; [exact Tr'|].
    unfold untrack. symmetry. apply forallb_filter_id.
    apply forallb_forall. intros [r m] Hr. cbn [fst].
    destruct (Hin r m Hr) as (asz & Ha & _).
    pose proof (layout_alloc_positive _ _ _ _ _ L Ha).
    apply negb_true_iff. apply Z.eqb_neq. lia.
  - (* a client write *)
    destruct IH as (bs & fl & L & Tr).
    destruct (proj2 Tr p n Hin) as (asz & Ha & Hle).
    exists bs, fl. split; [|exact Tr].
    apply (layout_payload_write _ _ _ (p - 8) asz); [exact L|exact Ha|].
    intros x Hx. apply upd_other. lia.
Qed.

(** ** [malloc] for arbitrary requests *)

Lemma align_range (x : Z) : align x mod 16 = 0 /\ 0 <= align x <= W - 16.
Proof.
  unfold align, ALIGNMENT.
  pose proof (wrap_range (wrap (x + 16) - 1)) as Hw.
  set (w := wrap (wrap (x + 16) - 1)) in *.
  pose proof (Z.mul_div_le w 16 ltac:(lia)).
  assert (0 <= w / 16) by (apply Z.div_pos; lia).
  pose proof W_eq as HW.
  rewrite wrap_small by lia.
  assert (M : (16 * (w / 16)) mod 16 = 0).
  { rewrite Z.mul_comm. apply Z.mod_mul. lia. }
  split; [exact M|].
  assert (w / 16 < 1152921504606846976).
  { apply Z.div_lt_upper_bound; lia. }
  lia.
Qed.

Lemma extendsize_range (size : Z) :
  size mod 16 = 0 -> 0 <= size <= W - 16 ->
  4096 <= extendsize size /\ extendsize size mod 16 = 0 /\
  extendsize size <= W - 16.
Proof.
  intros Hm Hr. pose proof W_eq as HW. unfold extendsize, BLK.
  destruct (Z.eq_dec size (W - 16)) as [->|Hne].
  - replace (wrap (W - 16 + 2 * 8)) with 0 by reflexivity.
    cbn [Z.ltb Z.compare]. repeat split; try lia.
  - rewrite (wrap_small (size + 2 * 8)).
    + pose proof (Z.div_mod size 16 ltac:(lia)) as D. rewrite Hm in D.
      destruct (4096 <? size + 2 * 8) eqn:E.
      * apply Z.ltb_lt in E. repeat split; try lia.
        rewrite Z.add_mod by lia. rewrite Hm. reflexivity.
      * repeat split; try lia.
    + pose proof (Z.div_mod size 16 ltac:(lia)) as D. rewrite Hm in D. lia.
Qed.

(** [sbrk] refuses the extension that [malloc] asks for when nothing fits. *)
Definition extension_fails (s : state) (n : Z) : Prop :=
  first_fit s (align n) = Some NULL /\
  fst (mem_sbrk s (align (extendsize (align n)))) = SBRK_FAIL.

Lemma sbrk_fail_iff (s : state) (incr : Z) :
  heap_brk s <= heap_max s -> heap_max s < W -> 0 < incr -> 0 < heap_brk s ->
  fst (mem_sbrk s incr) = SBRK_FAIL <-> heap_max s < heap_brk s + incr.
Proof.
  intros H1 H2 H3 H4. unfold mem_sbrk.
  destruct (heap_brk s + incr <=? heap_max s) eqn:E; cbn [fst].
  - apply Z.leb_le in E. change SBRK_FAIL with (W - 1). lia.
  - apply Z.leb_gt in E. split; [intros _; exact E|reflexivity].
Qed.

Lemma block_addr_aligned (s : state) (l1 l2 : blocks) (sz : Z) (al : bool) :
  tiled s (l1 ++ (sz, al) :: l2) ->
  let b := heap_lo s + 8 + span l1 in
  (b + 8) mod 16 = 0 /\ 0 < b /\ b + 8 < W /\ heap_lo s < b + 8 /\
  b + 8 + sz <= heap_brk s.
Proof.
  intros T b. pose proof (tiled_geo _ _ T) as (G1 & G2 & G3 & G4 & G5 & G6).
  destruct (tiled_mid _ _ _ _ _ T) as (S1 & [Sz _] & S2 & P1 & P2 & P3 & _).
  pose proof (span_mod16 _ S1) as M. subst b.
  split; [|lia].
  replace (heap_lo s + 8 + span l1 + 8) with (heap_lo s + span l1 + 1 * 16) by lia.
  rewrite Z.mod_add by lia. rewrite Z.add_mod by lia. rewrite G2, M. reflexivity.
Qed.

(** Whatever the request, a call of [malloc] that returns has either failed
    to extend the heap and changed nothing, or hands out an aligned address. *)
Lemma malloc_cases (s : state) (bs : blocks) (fl : list Z) (n p : Z) (s' : state) :
  layout s bs fl -> n <> 0 -> malloc s n = Some (p, s') ->
  (p = NULL /\ s' = s /\ extension_fails s n) \/
  (p <> NULL /\ p mod 16 = 0 /\ ~ extension_fails s n).
Proof.
  intros L Hn E.
  pose proof (tiled_geo _ _ (L_tiled _ _ _ L)) as (G1 & G2 & G3 & G4 & G5 & G6).
  pose proof (span_nonneg _ G5) as Hsp.
  destruct (align_range n) as [Am Ar].
  destruct (extendsize_range (align n) Am Ar) as (X1 & X2 & X3).
  assert (Eal : align (extendsize (align n)) = extendsize (align n)).
  { apply align_mult; [exact X2|lia]. }
  destruct (first_fit_spec s bs fl (align n) L) as (r & Eff & Hr).
  unfold malloc in E.
  replace (n =? 0) with false in E by (symmetry; apply Z.eqb_neq; lia).
  cbv zeta in E. rewrite Eff in E. cbn [bind] in E.
  destruct Hr as [->|(l1 & l2 & bsz & -> & -> & Hfit)].
  - unfold NULL in E. cbn [Z.eqb negb] in E.
    destruct (Z_le_gt_dec (heap_brk s + extendsize (align n)) (heap_max s)) as [Hok|Hno].
    + destruct (expand_heap_spec s bs fl (extendsize (align n)) L ltac:(lia) X2 Hok)
        as (b & s1 & l1 & l2 & bsz & fl1 & Ex & E1 & E2 & E3 & L1 & Eb & Hsz & _).
      rewrite Ex in E. cbn [bind] in E.
      rewrite <- E1 in Eb.
      destruct (block_addr_aligned _ _ _ _ _ (L_tiled _ _ _ L1)) as (B1 & B2 & B3 & B4 & B5).
      rewrite <- Eb in B1, B2, B3, B4, B5.
      replace (b =? 0) with false in E by (symmetry; apply Z.eqb_neq; lia).
      destruct (place s1 b (align n)) as [s2|] eqn:Ep; [|discriminate].
      cbn [bind] in E. unfold BLK in E. rewrite padd_small in E by lia.
      inversion E; subst p s'.
      right. unfold NULL. split; [lia|]. split; [exact B1|].
      intros [_ Hf]. apply sbrk_fail_iff in Hf; lia.
    + rewrite expand_heap_fail in E by (rewrite Eal; lia). cbn [bind] in E.
      unfold NULL in E. cbn [Z.eqb] in E. inversion E; subst p s'.
      left. split; [reflexivity|]. split; [reflexivity|].
      split; [exact Eff|]. apply sbrk_fail_iff; lia.
  - destruct (block_addr_aligned _ _ _ _ _ (L_tiled _ _ _ L)) as (B1 & B2 & B3 & B4 & B5).
    replace (heap_lo s + 8 + span l1 =? NULL) with false in E
      by (symmetry; apply Z.eqb_neq; unfold NULL; lia).
    cbn [negb] in E.
    destruct (place s (heap_lo s + 8 + span l1) (align n)) as [s1|] eqn:Ep; [|discriminate].
    cbn [bind] in E. unfold BLK in E. rewrite padd_small in E by lia.
    inversion E; subst p s'.
    right. unfold NULL. split; [lia|]. split; [exact B1|].
    intros [Hf _]. rewrite Eff in Hf. inversion Hf. unfold NULL in *. lia.
Qed.

(** ** Examples on a concrete machine *)

(** An empty heap at address 4096 that may grow to one megabyte. *)
Definition m0 : state := machine 4096 1048576.

Definition state_of {A : Type} (r : option (A * state)) : state :=
  match r with
  | Some (_, s) => s
  | None => m0
  end.

Definition value_of (r : option (Z * state)) : Z :=
  match r with
  | Some (p, _) => p
  | None => 0
  end.

Definition returns {A : Type} (r : option A) : bool :=
  match r with
  | Some _ => true
  | None => false
  end.

Lemma returns_eq (r : option (Z * state)) :
  returns r = true -> r = Some (value_of r, state_of r).
Proof. destruct r as [[p s]|]; [reflexivity|discriminate]. Qed.

Lemma returns_state (r : option state) (d : state) :
  returns r = true -> r = Some (match r with Some s => s | None => d end).
Proof. destruct r as [s|]; [reflexivity|discriminate]. Qed.

Definition init_state : state := state_of (mm_init m0).

Lemma fresh_m0 : fresh m0.
Proof. unfold fresh, m0, machine. cbn. repeat split; try lia. Qed.

Lemma init_state_eq : mm_init m0 = Some (true, init_state).
Proof. vm_compute. reflexivity. Qed.

(** The scenario of the specification: two allocations, the first one
    released again. *)
Definition ex_a : option (Z * state) := malloc init_state 100.
Definition ex_b : option (Z * state) := malloc (state_of ex_a) 3800.
Definition ex_f : option state := free (state_of ex_b) (value_of ex_a).
Definition ex_state : state :=
  match ex_f with Some s => s | None => m0 end.
Definition ex_outs : outs :=
  untrack (value_of ex_a) (track (value_of ex_b) 3800 (track (value_of ex_a) 100 [])).

Lemma ex_outs_eq : ex_outs = [(4240, 3800)].
Proof. vm_compute. reflexivity. Qed.

Lemma max_request_bounds (n : Z) : 0 <= n <= 1048576 -> 0 <= n <= MAX_REQUEST.
Proof. unfold MAX_REQUEST. pose proof W_eq. lia. Qed.

Lemma ex_reach : reach ex_state ex_outs.
Proof.
  assert (Ha : returns ex_a = true) by (vm_compute; reflexivity).
  assert (Hb : returns ex_b = true) by (vm_compute; reflexivity).
  assert (Hf : returns ex_f = true) by (vm_compute; reflexivity).
  assert (Hin : In (value_of ex_a)
                  (map fst (track (value_of ex_b) 3800 (track (value_of ex_a) 100 [])))).
  { vm_compute. right. left. reflexivity. }
  pose proof (reach_init m0 init_state fresh_m0 init_state_eq) as R0.
  pose proof (reach_malloc init_state [] 100 (value_of ex_a) (state_of ex_a) R0
                (max_request_bounds 100 ltac:(lia)) (returns_eq ex_a Ha)) as R1.
  pose proof (reach_malloc (state_of ex_a) _ 3800 (value_of ex_b) (state_of ex_b) R1
                (max_request_bounds 3800 ltac:(lia)) (returns_eq ex_b Hb)) as R2.
  exact (reach_free (state_of ex_b) _ (value_of ex_a) ex_state R2 (or_intror Hin)
           (returns_state ex_f m0 Hf)).
Qed.

(** Requests whose rounded size wraps around: the heap is full after the
    first call, the second call asks for [2^64 - 16] bytes. *)
Definition overflow_a : option (Z * state) := malloc init_state 4064.
Definition overflow_b : option (Z * state) := malloc (state_of overflow_a) (W - 16).
Definition overflow_c : option (Z * state) := malloc (state_of overflow_b) 16.

Definition overflow_outs : outs :=
  track (value_of overflow_c) 16
    (track (value_of overflow_b) (W - 16) (track (value_of overflow_a) 4064 [])).

(** A client write of one byte. *)
Definition poke (s : state) (a v : Z) : state := set_mem s (upd (mem s) a v).

(** After the oversized request the client writes three bytes into what it
    was handed: the two low bytes of the word at 8192 (payload of the second
    call) become 4121, and the byte at 4114 (payload of the first call)
    becomes 16, so that the word at 4113 reads 4096.  Then it asks for 4090
    bytes. *)
Definition overflow_w : state :=
  poke (poke (poke (state_of overflow_b) (8192 + 0) 25) (8192 + 1) 16) (4112 + 2) 16.
Definition overflow_m : option (Z * state) := malloc overflow_w 4090.

(** A second block of 100 bytes after [ex_a]. *)
Definition ex_d : option (Z * state) := malloc (state_of ex_a) 100.

(** After [ex_state], a request that takes the released block again: two
    allocations are outstanding. *)
Definition ex_g : option (Z * state) := malloc ex_state 50.
Definition ex_held : outs := track (value_of ex_g) 50 ex_outs.

(** The block of [ex_a] with a byte written by the client, released. *)
Definition ex_dirty : option state :=
  free (poke (state_of ex_a) (value_of ex_a + 20) 33) (value_of ex_a).
Definition ex_dirty_state : state :=
  match ex_dirty with Some s => s | None => m0 end.

(** A release of a pointer that the client no longer holds: two blocks of 16
    bytes are allocated and released, a block of 48 bytes takes their place,
    the client writes the byte at offset 24 of it (where the header of the
    second block was), and then releases the second pointer once more and
    asks for 16 bytes. *)
Definition stale_a : option (Z * state) := malloc init_state 16.
Definition stale_b : option (Z * state) := malloc (state_of stale_a) 16.
Definition stale_c : option (Z * state) :=
  s1 <- free (state_of stale_b) (value_of stale_a) ;;
  s2 <- free s1 (value_of stale_b) ;;
  malloc s2 48.
Definition stale_d : option (Z * state) :=
  s1 <- free (poke (state_of stale_c) (value_of stale_c + 24) 33) (value_of stale_b) ;;
  malloc s1 16.

Lemma reach_heap_ok (s : state) (O : outs) : reach s O -> heap_ok s.
Proof.
  intros R. destruct (reach_inv s O R) as (bs & fl & L & _).
  exists bs, fl. exact L.
Qed.

Lemma ex_a_reach : reach (state_of ex_a) (track (value_of ex_a) 100 []).
Proof.
  exact (reach_malloc init_state [] 100 (value_of ex_a) (state_of ex_a)
           (reach_init m0 init_state fresh_m0 init_state_eq)
           (max_request_bounds 100 ltac:(lia))
           (returns_eq ex_a ltac:(vm_compute; reflexivity))).
Qed.

Lemma ex_held_eq : ex_held = [(4112, 50); (4240, 3800)].
Proof. vm_compute. reflexivity. Qed.

Lemma ex_held_reach : reach (state_of ex_g) ex_held.
Proof.
  exact (reach_malloc ex_state ex_outs 50 (value_of ex_g) (state_of ex_g) ex_reach
           (max_request_bounds 50 ltac:(lia))
           (returns_eq ex_g ltac:(vm_compute; reflexivity))).
Qed.

Lemma ex_dirty_reach :
  reach ex_dirty_state (untrack (value_of ex_a) (track (value_of ex_a) 100 [])).
Proof.
  assert (Hin : In (value_of ex_a, 100) (track (value_of ex_a) 100 [])).
  { vm_compute. left. reflexivity. }
  pose proof (reach_poke (state_of ex_a) _ (value_of ex_a) 100 20 33 ex_a_reach Hin
                ltac:(lia)) as R.
  apply (reach_free _ _ (value_of ex_a) ex_dirty_state R).
  - right. vm_compute. left. reflexivity.
  - apply (returns_state ex_dirty m0). vm_compute. reflexivity.
Qed.

(** * Properties of the public operations *)

(** ** C1: header and footer agree *)

(** C1, counterexample.  On a heap whose only block is allocated,
    [malloc (2^64 - 16)] returns a pointer, and afterwards the footer of the
    first block no longer decodes to what its header decodes to: the request
    plus the tag overhead wraps to 0, the heap grows by one chunk only, and
    [split] writes the "footer" of the oversized block over the footer of the
    block in front of it.  Before the call the tags agree. *)
Lemma tags_break_after_overflow :
  returns overflow_b = true /\ value_of overflow_b <> NULL /\
  tags_agree (state_of overflow_a) = true /\
  tags_agree (state_of overflow_b) = false /\
  decode (ldw (mem (state_of overflow_b)) 4104) = (4064, true) /\
  decode (ldw (mem (state_of overflow_b)) (4104 + 4064 + BLK)) = (W - 16, true).
Proof. vm_compute. repeat split; discriminate. Qed.

(** The second proviso of the amended claims.  All sizes are small and every
    call returns, but the pointer 4144 is released a second time after its
    block was merged and handed out again as part of the block at 4112, whose
    holder has written the byte where the old header was: [free] takes the
    stale header for an allocated block, and after the next [malloc 16]
    (which returns 4144, inside the outstanding 48 bytes at 4112) the header
    of the block at 4104 decodes to (48, allocated) and its footer to
    (16, allocated). *)
Lemma stale_free_breaks_tags :
  value_of stale_b = 4144 /\ value_of stale_c = 4112 /\
  tags_agree (state_of stale_c) = true /\
  returns stale_d = true /\ value_of stale_d = 4144 /\
  tags_agree (state_of stale_d) = false /\
  decode (ldw (mem (state_of stale_d)) 4104) = (48, true) /\
  decode (ldw (mem (state_of stale_d)) (4104 + 48 + BLK)) = (16, true).
Proof. vm_compute. repeat split. Qed.

(** C1, amended.  In every state reached from an empty heap at a 16-byte
    aligned address by [mm_init] and any number of calls of [malloc],
    [free], [realloc] and [calloc] that return, where every size is at most
    [2^64 - 32] bytes, [free] and [realloc] are passed only the null pointer
    or a pointer that was returned earlier and not released since, and the
    client writes only into the bytes it asked for of blocks it holds
    ([reach]), the walk over all blocks of the heap finds header and footer
    of every block decoding to the same (size, allocated) pair. *)
Theorem tags_agree_reachable (s : state) (O : outs) :
  reach s O -> tags_agree s = true.
Proof.
  intros R. destruct (reach_inv s O R) as (bs & fl & L & _).
  exact (tiled_tags_agree s bs (L_tiled _ _ _ L)).
Qed.

Lemma tags_agree_reachable_witness : tags_agree ex_state = true.
Proof. exact (tags_agree_reachable ex_state ex_outs ex_reach). Defined.

(** ** C2: outstanding payloads do not overlap *)

(** C2, counterexample.  After the same oversized request a further
    [malloc 16] returns the very pointer that the oversized call returned:
    two outstanding allocations share their first byte. *)
Lemma payloads_overlap_after_overflow :
  overflow_outs = [(8192, 16); (8192, W - 16); (4112, 4064)] /\
  ~ payloads_disjoint overflow_outs.
Proof.
  assert (E : overflow_outs = [(8192, 16); (8192, W - 16); (4112, 4064)]).
  { vm_compute. reflexivity. }
  split; [exact E|]. rewrite E. intros H.
  specialize (H 0%nat 1%nat 8192 16 8192 (W - 16) ltac:(discriminate) eq_refl eq_refl).
  pose proof W_eq. lia.
Qed.

Lemma nth_error_fst_NoDup (O : outs) (i j : nat) (p n m : Z) :
  NoDup (map fst O) -> nth_error O i = Some (p, n) -> nth_error O j = Some (p, m) ->
  i = j.
Proof.
  intros Nd Hi Hj.
  apply (proj1 (NoDup_nth_error (map fst O)) Nd).
  - apply nth_error_Some. rewrite (map_nth_error fst _ _ Hi). discriminate.
  - rewrite (map_nth_error fst _ _ Hi), (map_nth_error fst _ _ Hj). reflexivity.
Qed.

(** C2, amended.  In every state reached as in C1 (sizes of at most
    [2^64 - 32] bytes, [free] and [realloc] only of null or of pointers the
    client holds, client writes only into the bytes it asked for), the
    payload byte ranges [[p, p + n)] of the outstanding allocations lie
    inside the heap and are pairwise disjoint. *)
Theorem payloads_reachable (s : state) (O : outs) :
  reach s O -> payloads_in_heap s O /\ payloads_disjoint O.
Proof.
  intros R. destruct (reach_inv s O R) as (bs & fl & L & Nd & Tr).
  pose proof (tiled_geo _ _ (L_tiled _ _ _ L)) as (G1 & G2 & G3 & G4 & G5 & G6).
  split.
  - intros p n Hin. destruct (Tr p n Hin) as (asz & Ha & Hle).
    apply (alloc_blocks_range _ _ _ _ G5) in Ha. lia.
  - intros i j p n q m Hij Hi Hj Hn Hm.
    destruct (Tr p n (nth_error_In _ _ Hi)) as (a1 & Ha1 & Hle1).
    destruct (Tr q m (nth_error_In _ _ Hj)) as (a2 & Ha2 & Hle2).
    assert (Hpq : p <> q).
    { intros ->. apply Hij. exact (nth_error_fst_NoDup _ _ _ _ _ _ Nd Hi Hj). }
    apply in_alloc_blocks in Ha1, Ha2.
    destruct (blocks_sep _ _ _ _ _ _ _ _ G5 Ha1 Ha2) as [(E & _)|E]; lia.
Qed.

Lemma payloads_reachable_witness :
  payloads_in_heap (state_of ex_g) ex_held /\ payloads_disjoint ex_held.
Proof. exact (payloads_reachable (state_of ex_g) ex_held ex_held_reach). Defined.

(** Checking the invariant of a concrete state by evaluation. *)
Ltac ev := vm_compute; first [reflexivity | discriminate | intuition (discriminate || auto)].

Ltac ev_sizes :=
  repeat (apply sizes_ok_cons; split; [split; ev|]); constructor.

Lemma init_layout : layout init_state [(4064, false)] [4104].
Proof.
  destruct (mm_init_spec m0 fresh_m0 ltac:(vm_compute; discriminate))
    as (s & E & _ & _ & L).
  rewrite init_state_eq in E. inversion E; subst s. exact L.
Qed.

Lemma init_heap_ok : heap_ok init_state.
Proof. exists [(4064, false)], [4104]. exact init_layout. Qed.

(** ** C3: alignment *)

(** C3, counterexample.  After [malloc 4064] and [malloc (2^64 - 16)] the
    client holds 4112 (4064 bytes) and 8192 ([2^64 - 16] bytes), and 8192 is
    also the node of the block that heads the free list.  It writes into
    these bytes: the [next] field at 8192 becomes 4121 and the word at 4113
    reads 4096.  [malloc 4090] then finds the block at 8184 too small,
    follows [next] and returns 4121, which is 9 modulo 16. *)
Lemma malloc_misaligned_after_overflow :
  track (value_of overflow_b) (W - 16) (track (value_of overflow_a) 4064 []) =
    [(8192, W - 16); (4112, 4064)] /\
  first (state_of overflow_b) = 8192 /\
  ldw (mem overflow_w) 8192 = 4121 /\ ldw (mem overflow_w) 4113 = 4096 /\
  returns overflow_m = true /\ value_of overflow_m = 4121 /\
  value_of overflow_m mod 16 = 9.
Proof. vm_compute. repeat split. Qed.

(** C3, amended.  In every state reached as in C1 (from [mm_init] on an
    empty heap at a 16-byte aligned address, earlier sizes of at most
    [2^64 - 32] bytes, [free] and [realloc] only of null or of pointers the
    client holds, client writes only into the bytes it asked for), whatever
    the request [n], a call of [malloc] that returns a pointer returns a
    multiple of 16 (the null pointer of a failed or empty request
    included). *)
Theorem malloc_aligned_reachable (s : state) (O : outs) (n p : Z) (s' : state) :
  reach s O -> malloc s n = Some (p, s') -> p mod 16 = 0.
Proof.
  intros R E. destruct (reach_inv s O R) as (bs & fl & L & _).
  destruct (Z.eq_dec n 0) as [->|Hn].
  - unfold malloc in E. cbn [Z.eqb] in E. inversion E. reflexivity.
  - destruct (malloc_cases s bs fl n p s' L Hn E) as [(-> & _)|(_ & H & _)].
    + reflexivity.
    + exact H.
Qed.

Lemma malloc_aligned_reachable_witness :
  value_of ex_d = 4240 /\ value_of ex_d mod 16 = 0.
Proof.
  split; [vm_compute; reflexivity|].
  exact (malloc_aligned_reachable (state_of ex_a) _ 100 (value_of ex_d) (state_of ex_d)
           ex_a_reach (returns_eq ex_d ltac:(vm_compute; reflexivity))).
Defined.

(** ** C4: coalescing on release *)

(** Running [coalesce] on a block that already heads the list, between
    allocated neighbours: the block list stays, the block's two link fields
    are written (both end up pointing to the block itself) and no other word
    changes. *)
Lemma recoalesce_spec (s : state) (l1 l2 : blocks) (sz : Z) (fl : list Z) :
  layout s (l1 ++ (sz, false) :: l2) fl ->
  first s = heap_lo s + 8 + span l1 + 8 ->
  let b := heap_lo s + 8 + span l1 in
  exists s', coalesce s b = Some s' /\ same_heap s s' /\
    tiled s' (l1 ++ (sz, false) :: l2) /\
    first s' = b + 8 /\
    ldw (mem s') (b + 8) = b + 8 /\ ldw (mem s') (b + 16) = b + 8 /\
    (forall y, far y (b + 8) -> far y (b + 16) -> ldw (mem s') y = ldw (mem s) y).
Proof.
  intros L Hf b. pose proof (L_tiled _ _ _ L) as T.
  pose proof (tiled_geo _ _ T) as (G1 & G2 & G3 & G4 & G5 & G6).
  destruct (tiled_mid _ _ _ _ _ T) as
    (S1 & [Sz1 Sz2] & S2 & P1 & P2 & P3 & C1 & C2 & C3 & C4).
  fold b in Hf, P3, C2, C3, C4.
  destruct (layout_free_mid _ _ _ _ _ L) as (_ & _ & _ & La & Ha).
  destruct (neighbours_spec _ _ _ _ _ T) as (pb & En & Eprev & Enext & _).
  fold b in En, Eprev, Enext. rewrite La in Eprev. rewrite Ha in Enext.
  change (l1 ++ (sz, false) :: l2) with (l1 ++ [(sz, false)] ++ l2) in T.
  pose proof (tiled_sides _ _ _ _ T) as Sd. cbn [span] in Sd.
  set (m1 := stw (mem s) (b + 8) (b + 8)).
  set (m2 := stw m1 (b + 16) 0).
  set (m3 := stw m2 (b + 16) (b + 8)).
  assert (Sd3 : sides (set_mem (set_mem (set_mem s m1) m2) m3) l1 (sz + 16 + 0) l2).
  { subst m3. apply sides_stw; [|st_simpl; subst b; lia..].
    subst m2. apply sides_stw; [|st_simpl; subst b; lia..].
    subst m1. apply sides_stw; [exact Sd|subst b; lia..]. }
  exists (set_first (set_mem (set_mem (set_mem s m1) m2) m3) (b + 8)).
  split.
  - unfold coalesce. rewrite En. cbn [bind].
    rewrite (get_size_ok _ _ sz false) by (try assumption; subst b; lia).
    cbn [bind]. rewrite Eprev, Enext. cbn [bind andb].
    unfold add_node, node_of, next_field, prev_field, NULL, BLK.
    rewrite (padd_small b 8) by (subst b; lia).
    rewrite (padd_small (b + 8) 8) by (subst b; lia).
    replace (b + 8 + 8) with (b + 16) by lia.
    rewrite store_ok by (subst b; lia). cbn [bind]. rewrite Hf. fold m1.
    rewrite store_ok by (st_simpl; subst b; lia). st_simpl. fold m2.
    rewrite ?Hf.
    replace (b + 8 =? 0) with false by (symmetry; apply Z.eqb_neq; subst b; lia).
    cbn [negb]. rewrite (padd_small (b + 8) 8) by (subst b; lia).
    replace (b + 8 + 8) with (b + 16) by lia.
    rewrite store_ok by (st_simpl; subst b; lia). st_simpl. reflexivity.
  - split; [repeat split|]. split.
    { assert (T3 : tiled (set_mem (set_mem (set_mem s m1) m2) m3) (l1 ++ [(sz, false)] ++ l2)).
      { apply sides_tiled.
        - cbn [span]. exact Sd3.
        - apply sizes_ok_cons. split; [split; assumption|constructor].
        - st_simpl. fold b. cbn [chain]. subst m3 m2 m1.
          split; [|split; [|exact I]]; mem_simpl; assumption. }
      destruct T3 as [? ? ? ? ? ? ? ? ?]. constructor; assumption. }
    st_simpl. split; [reflexivity|].
    assert (Hb : 0 <= b + 8 < W) by (subst b; lia).
    subst m3 m2 m1. split; [|split].
    + rewrite ldw_stw_far by (unfold far; lia).
      rewrite ldw_stw_far by (unfold far; lia).
      rewrite ldw_stw_same. apply wrap_small. lia.
    + rewrite ldw_stw_same. apply wrap_small. lia.
    + intros y F1 F2. unfold far in F1, F2.
      rewrite !ldw_stw_far by (unfold far; lia). reflexivity.
Qed.

(** [malloc 16], [free] of the result, and [coalesce] once more on the block
    that heads the free list; the head of the list, and its [next] field
    before and after the second [coalesce]. *)
Definition recoalesce_run : option (Z * Z * Z) :=
  '(p, s1) <- malloc init_state 16 ;;
  s2 <- free s1 p ;;
  s3 <- coalesce s2 (padd (first s2) (- BLK)) ;;
  Some (first s2, ldw (mem s2) (first s2), ldw (mem s3) (first s3)).

(** C4, counterexample.  After [malloc 16] and the release of that block,
    running [coalesce] once more on the merged block is not a no-op: the
    block's [next] field, null before, now points to the block itself. *)
Lemma recoalesce_changes_list : recoalesce_run = Some (4112, 0, 4112).
Proof. vm_compute. reflexivity. Qed.

(** C4, amended.  After [free p] of an allocated block of a well-formed heap
    returns, the heap is well formed and no two neighbouring blocks are both
    free; the released block lies inside a free block [b'] of the new heap,
    and that merged block heads the free list.  Running [coalesce] once more
    on the merged block merges nothing further: the block list stays, and
    every word other than the two link fields of the block, so every header
    and footer, stays as it is.  But the call does push the block onto the
    list a second time: [first] is the block again, and its [next] and
    [prev] fields now both point to the block itself, where [prev] was null
    before. *)
Theorem free_coalesces (s : state) (bs : blocks) (fl : list Z) (p psz : Z) :
  layout s bs fl -> In (p - 8, psz) (alloc_blocks (heap_lo s + 8) bs) ->
  exists s' bs' fl' b' sz',
    free s p = Some s' /\ layout s' bs' fl' /\ adj_ok bs' /\
    In (b', sz', false) (blocks_from (heap_lo s' + 8) bs') /\
    b' <= p - 8 /\ p - 8 + psz <= b' + sz' /\
    first s' = b' + 8 /\ ldw (mem s') (b' + 16) = NULL /\
    exists s'', coalesce s' b' = Some s'' /\ same_heap s' s'' /\ tiled s'' bs' /\
      (forall y, far y (b' + 8) -> far y (b' + 16) ->
         ldw (mem s'') y = ldw (mem s') y) /\
      first s'' = b' + 8 /\
      ldw (mem s'') (b' + 8) = b' + 8 /\ ldw (mem s'') (b' + 16) = b' + 8.
Proof.
  intros L Hp. pose proof Hp as Hp'. apply in_alloc_blocks in Hp'.
  destruct (in_blocks_split _ _ _ _ _ Hp') as (l1 & l2 & -> & Eb0).
  destruct (free_frame s l1 l2 psz fl L)
    as (s' & bs' & fl' & b' & sz' & E & (E1 & _) & L' & Hf & Hin & _ & Hle & Hend & _).
  replace (heap_lo s + 8 + span l1 + 8) with p in E by lia.
  rewrite <- Eb0 in Hle, Hend. rewrite <- E1 in Hin.
  destruct (in_blocks_split _ _ _ _ _ Hin) as (m1 & m2 & -> & Eb).
  exists s', (m1 ++ (sz', false) :: m2), fl', b', sz'.
  split; [exact E|]. split; [exact L'|]. split; [exact (L_adj _ _ _ L')|].
  split; [exact Hin|]. split; [exact Hle|]. split; [exact Hend|].
  split; [exact Hf|]. split.
  { pose proof (L_linked _ _ _ L') as K.
    pose proof (K_first _ _ K) as Kf. pose proof (K_links _ _ K) as Kl.
    pose proof (T_lo _ _ (L_tiled _ _ _ L')) as Hlo.
    pose proof (span_nonneg _ (proj1 (tiled_mid _ _ _ _ _ (L_tiled _ _ _ L')))) as Hsp.
    destruct fl' as [|c r]; cbn [hd_node] in Kf; [lia|].
    cbn [dllseg] in Kl. destruct Kl as (_ & Kp & _).
    replace c with b' in Kp by lia. exact Kp. }
  destruct (recoalesce_spec s' m1 m2 sz' fl' L' ltac:(lia))
    as (s'' & Ec & SH & T & F & N1 & N2 & Fr).
  rewrite <- Eb in Ec, F, N1, N2, Fr.
  exists s''. auto 10.
Qed.

Lemma ex_a_layout : layout (state_of ex_a) [(112, true); (3936, false)] [4232].
Proof.
  constructor.
  - constructor; [ev|ev|ev|ev|ev|ev|ev|ev_sizes|vm_compute; repeat split].
  - constructor; [vm_compute; repeat split|ev|].
    repeat constructor. intros [].
  - intros c. vm_compute. tauto.
  - vm_compute. repeat split.
  - discriminate.
Qed.

Lemma ex_a_block :
  In (4112 - 8, 112)
     (alloc_blocks (heap_lo (state_of ex_a) + 8) [(112, true); (3936, false)]).
Proof. vm_compute. left. reflexivity. Qed.

Lemma free_coalesces_witness :
  exists s' bs' fl' b' sz',
    free (state_of ex_a) 4112 = Some s' /\ layout s' bs' fl' /\ adj_ok bs' /\
    In (b', sz', false) (blocks_from (heap_lo s' + 8) bs') /\
    b' <= 4112 - 8 /\ 4112 - 8 + 112 <= b' + sz' /\
    first s' = b' + 8 /\ ldw (mem s') (b' + 16) = NULL /\
    exists s'', coalesce s' b' = Some s'' /\ same_heap s' s'' /\ tiled s'' bs' /\
      (forall y, far y (b' + 8) -> far y (b' + 16) ->
         ldw (mem s'') y = ldw (mem s') y) /\
      first s'' = b' + 8 /\
      ldw (mem s'') (b' + 8) = b' + 8 /\ ldw (mem s'') (b' + 16) = b' + 8.
Proof.
  exact (free_coalesces (state_of ex_a) [(112, true); (3936, false)] [4232] 4112 112
           ex_a_layout ex_a_block).
Defined.

(** ** C5: what [malloc] returns *)

(** C5, counterexample.  [malloc 0] returns the null pointer although no heap
    extension failed (none was tried: a free block is there), and a request
    of [2^64 - 1] bytes on the same heap returns nothing at all (the rounded
    size is 0, [split] writes the footer over the [next] field it then
    follows). *)
Lemma malloc_null_without_extension :
  option_map fst (malloc init_state 0) = Some NULL /\
  ~ extension_fails init_state 0 /\
  malloc init_state (W - 1) = None.
Proof.
  split; [vm_compute; reflexivity|]. split; [|vm_compute; reflexivity].
  intros [H _]. vm_compute in H. discriminate.
Qed.

(** C5, amended.  On a well-formed heap [malloc 0] returns null and changes
    nothing.  A call for [n <> 0] that returns, returns null exactly when no
    free block fits and the heap extension fails, and then the state is
    unchanged.  For [0 < n <= 2^64 - 32] the call does return, and a
    non-null result is the address right after the header of an allocated
    block with room for [n] bytes. *)
Theorem malloc_result (s : state) :
  heap_ok s ->
  malloc s 0 = Some (NULL, s) /\
  (forall n p s', n <> 0 -> malloc s n = Some (p, s') ->
     (p = NULL <-> extension_fails s n) /\ (p = NULL -> s' = s)) /\
  (forall n, 0 < n <= MAX_REQUEST ->
     exists p s', malloc s n = Some (p, s') /\
       (p <> NULL -> exists bs' fl' asz, layout s' bs' fl' /\
          In (p - 8, asz) (alloc_blocks (heap_lo s' + 8) bs') /\ n <= asz)).
Proof.
  intros (bs & fl & L). split; [reflexivity|]. split.
  - intros n p s' Hn E.
    destruct (malloc_cases s bs fl n p s' L Hn E) as [(H1 & H2 & H3)|(H1 & _ & H3)].
    + split; [split; auto|auto].
    + split; [split; [contradiction|intros H; contradiction]|contradiction].
  - intros n Hn.
    destruct (malloc_spec s bs fl n L Hn) as (p & s' & E & H1 & _ & _ & Hcase).
    exists p, s'. split; [exact E|]. intros Hp.
    destruct Hcase as [(-> & _)|(_ & _ & bs' & fl' & A1 & A2 & asz & L' & Ha & Ea & _)].
    + contradiction.
    + exists bs', fl', asz. split; [exact L'|]. rewrite H1, Ea.
      split; [apply in_or_app; right; left; reflexivity|].
      destruct (align_props n Hn) as (? & _). lia.
Qed.

Lemma malloc_result_witness :
  malloc init_state 0 = Some (NULL, init_state) /\
  (forall n p s', n <> 0 -> malloc init_state n = Some (p, s') ->
     (p = NULL <-> extension_fails init_state n) /\ (p = NULL -> s' = init_state)) /\
  (forall n, 0 < n <= MAX_REQUEST ->
     exists p s', malloc init_state n = Some (p, s') /\
       (p <> NULL -> exists bs' fl' asz, layout s' bs' fl' /\
          In (p - 8, asz) (alloc_blocks (heap_lo s' + 8) bs') /\ n <= asz)).
Proof. exact (malloc_result init_state init_heap_ok). Defined.

(** ** C6: [realloc] of the null pointer *)

(** [realloc] reads the size word in front of [oldptr] before it looks at
    [oldptr]: with a null [oldptr] that read is outside the heap. *)
Lemma realloc_null_general (s : state) (n : Z) :
  heap_ok s -> realloc s NULL n = None.
Proof.
  intros (bs & fl & L). unfold realloc, get_size.
  rewrite (load_null_fault s bs (- BLK) (L_tiled _ _ _ L)) by (unfold BLK; lia).
  reflexivity.
Qed.

(** C6, the code at the failing input.  On the freshly initialised heap
    [realloc NULL 50] faults while [malloc 50] returns a pointer. *)
Theorem realloc_null_faults :
  realloc init_state NULL 50 = None /\
  option_map fst (malloc init_state 50) = Some 4112.
Proof. split; vm_compute; reflexivity. Qed.

(** ** C7: [realloc] in place *)

(** A block of 16 bytes, and the same block resized to 16 bytes. *)
Definition ex_small : option (Z * state) := malloc init_state 16.

Definition ex_moved : option (Z * state) :=
  realloc (state_of ex_small) (value_of ex_small) 16.

(** C7, counterexample.  The block at 4112 has a payload of 16 bytes (32 with
    header and footer) and the aligned new size is 16, so the block is large
    enough however its overhead is counted; yet [realloc] returns another
    pointer, releases the old block and changes the free list.  The code
    compares the payload size alone with the aligned size plus header and
    footer. *)
Lemma realloc_moves_fitting_block :
  returns ex_small = true /\ value_of ex_small = 4112 /\
  get_size (state_of ex_small) (padd 4112 (- BLK)) = Some 16 /\
  align 16 = 16 /\
  returns ex_moved = true /\ value_of ex_moved = 4144 /\
  get_allocated (state_of ex_moved) (padd 4112 (- BLK)) = Some false /\
  first (state_of ex_small) <> first (state_of ex_moved).
Proof. vm_compute. repeat split; discriminate. Qed.

(** C7, amended.  For [n <> 0]: if [p] is not null, its header is readable
    and holds the size [osz] (the payload size, without header and footer),
    and [osz] is at least the size the code needs (the aligned request plus
    header and footer, [needed_size]), then [realloc p n] returns [p] and the
    state as it is.  On a well-formed heap that is the case for the pointer
    of every allocated block whose size is at least the needed one. *)
Theorem realloc_in_place (s : state) (p n : Z) :
  n <> 0 ->
  (forall osz, p <> NULL -> get_size s (padd p (- BLK)) = Some osz ->
     needed_size n <= osz -> realloc s p n = Some (p, s)) /\
  (forall bs fl psz, layout s bs fl ->
     In (p - 8, psz) (alloc_blocks (heap_lo s + 8) bs) ->
     needed_size n <= psz -> realloc s p n = Some (p, s)).
Proof.
  intros Hn.
  assert (Hgen : forall osz, p <> NULL -> get_size s (padd p (- BLK)) = Some osz ->
            needed_size n <= osz -> realloc s p n = Some (p, s)).
  { intros osz Hp Hg Hfit. unfold realloc. rewrite Hg. cbn [bind].
    apply Z.eqb_neq in Hp. rewrite Hp.
    apply Z.eqb_neq in Hn. rewrite Hn.
    apply Z.leb_le in Hfit. rewrite Hfit. reflexivity. }
  split; [exact Hgen|].
  intros bs fl psz L Hin Hfit. pose proof (L_tiled _ _ _ L) as T.
  apply in_alloc_blocks in Hin.
  destruct (tiled_block s bs (p - 8) psz true T Hin) as (Hh & _ & [Hs1 Hs2] & Hlo & Hhi).
  pose proof (T_lo _ _ T). pose proof (T_brk _ _ T). pose proof (T_max _ _ T).
  apply (Hgen psz); [unfold NULL; lia| |exact Hfit].
  unfold BLK. cbn [Z.opp]. rewrite padd_small by lia.
  replace (p + -8) with (p - 8) by lia.
  apply (get_size_ok s (p - 8) psz true); try assumption; lia.
Qed.

Lemma realloc_in_place_witness :
  realloc (state_of ex_a) 4112 50 = Some (4112, state_of ex_a).
Proof.
  destruct (realloc_in_place (state_of ex_a) 4112 50 ltac:(discriminate)) as [_ H].
  apply (H [(112, true); (3936, false)] [4232] 112 ex_a_layout).
  - left. vm_compute. reflexivity.
  - vm_compute. discriminate.
Defined.

(** ** C8: [free] of null and of a free block *)

(** C8.  [free NULL] returns with the state as it is; so does [free p] for a
    non-null [p] when [get_allocated] on its header answers "not allocated";
    and on a well-formed heap that is the case for the payload pointer of
    every free block. *)
Theorem free_ignores (s : state) :
  free s NULL = Some s /\
  (forall p, p <> NULL -> get_allocated s (padd p (- BLK)) = Some false ->
     free s p = Some s) /\
  (forall bs fl b sz, layout s bs fl ->
     In (b, sz, false) (blocks_from (heap_lo s + 8) bs) ->
     free s (b + 8) = Some s).
Proof.
  assert (Hgen : forall p, p <> NULL ->
            get_allocated s (padd p (- BLK)) = Some false -> free s p = Some s).
  { intros p Hp Hal. unfold free. apply Z.eqb_neq in Hp. rewrite Hp.
    rewrite Hal. reflexivity. }
  split; [reflexivity|]. split; [exact Hgen|].
  intros bs fl b sz L Hin. pose proof (L_tiled _ _ _ L) as T.
  destruct (tiled_block s bs b sz false T Hin) as (Hh & _ & [Hs1 Hs2] & Hlo & Hhi).
  pose proof (T_lo _ _ T). pose proof (T_brk _ _ T). pose proof (T_max _ _ T).
  apply Hgen; [unfold NULL; lia|].
  unfold BLK. cbn [Z.opp]. rewrite padd_small by lia.
  replace (b + 8 + -8) with b by lia.
  apply (get_allocated_ok s b sz false); try assumption; lia.
Qed.

Lemma free_ignores_witness :
  free init_state NULL = Some init_state /\
  free init_state (4104 + 8) = Some init_state.
Proof.
  destruct (free_ignores init_state) as (H1 & _ & H3). split; [exact H1|].
  apply (H3 [(4064, false)] [4104] 4104 4064 init_layout).
  left. vm_compute. reflexivity.
Defined.

(** ** C9: [calloc] *)

Definition calloc_big : option (Z * state) := calloc init_state 2 (Z.shiftl 1 63 + 8).

(** C9, counterexample.  For 2 elements of [2^63 + 8] bytes the product is
    [2^64 + 16]; [calloc] returns a non-null pointer to a 16-byte block, and
    the byte at offset 16 from it (inside the [count * elem_size] bytes) is
    not zero. *)
Lemma calloc_product_wraps :
  returns calloc_big = true /\
  value_of calloc_big <> NULL /\
  16 < 2 * (Z.shiftl 1 63 + 8) /\
  byte_at (state_of calloc_big) (value_of calloc_big + 16) = 17.
Proof.
  split; [vm_compute; reflexivity|].
  split; [vm_compute; discriminate|].
  split; vm_compute; reflexivity.
Qed.

(** C9, amended.  With [n] the product [size * nmemb] reduced modulo [2^64]:
    a [calloc] that returns, returns the pointer of [malloc n], and when it
    is not null each of the [n] bytes from it reads as zero; on a well-formed
    heap with [n <= 2^64 - 32] the call does return. *)
Theorem calloc_zeroes (s : state) (nmemb size : Z) :
  let n := wrap (size * nmemb) in
  (forall p s', calloc s nmemb size = Some (p, s') ->
     (exists s1, malloc s n = Some (p, s1)) /\
     (p <> NULL -> forall i, 0 <= i < n -> byte_at s' (p + i) = 0)) /\
  (heap_ok s -> n <= MAX_REQUEST ->
     exists p s', calloc s nmemb size = Some (p, s')).
Proof.
  intros n. split.
  - intros p s'. unfold calloc. fold n.
    destruct (malloc s n) as [[q s1]|] eqn:E; [|discriminate]. cbn [bind].
    destruct (q =? NULL) eqn:Hq; cbn [negb].
    + intros H. inversion H; subst. split; [eexists; reflexivity|].
      apply Z.eqb_eq in Hq. intros Hp. contradiction.
    + destruct (mem_memset s1 q 0 n) as [s2|] eqn:M; [|discriminate].
      cbn [bind]. intros H. inversion H; subst. split; [eexists; reflexivity|].
      intros _ i Hi. destruct (mem_memset_frame _ _ _ _ _ M) as (_ & _ & Hz).
      unfold byte_at. rewrite (Hz (p + i)) by lia. reflexivity.
  - intros (bs & fl & L) Hn. unfold MAX_REQUEST in Hn.
    pose proof (wrap_range (size * nmemb)) as Hr. fold n in Hr.
    unfold calloc. fold n.
    destruct (Z.eq_dec n 0) as [E0|E0].
    + rewrite E0. exists NULL, s. reflexivity.
    + destruct (malloc_spec s bs fl n L ltac:(lia))
        as (p & s1 & E & H1 & _ & _ & Hcase).
      rewrite E. cbn [bind].
      destruct Hcase as [(-> & _)|(Hp & _ & bs' & fl' & A1 & A2 & asz & L' & Ha & Ea & _)].
      * exists 0, s1. reflexivity.
      * apply Z.eqb_neq in Hp. unfold NULL. rewrite Hp. cbn [negb].
        pose proof (tiled_geo _ _ (L_tiled _ _ _ L')) as (G1 & _ & _ & _ & G5 & G6).
        assert (Hin : In (p - 8, asz) (alloc_blocks (heap_lo s1 + 8) bs')).
        { rewrite H1, Ea. apply in_or_app. right. left. reflexivity. }
        apply (alloc_blocks_range _ _ _ _ G5) in Hin.
        destruct (align_props n ltac:(lia)) as (Hal & _).
        unfold mem_memset. rewrite in_heap_true by lia.
        cbn [bind]. eexists _, _. reflexivity.
Qed.

(** A request of 25 bytes that is served from the released block of
    [ex_dirty_state], in which the client has left a non-zero byte. *)
Definition calloc_dirty : option (Z * state) := calloc ex_dirty_state 5 5.

Lemma calloc_zeroes_witness :
  byte_at ex_dirty_state (4112 + 20) = 33 /\
  value_of calloc_dirty = 4112 /\
  (exists s1, malloc ex_dirty_state 25 = Some (value_of calloc_dirty, s1)) /\
  (forall i, 0 <= i < 25 ->
     byte_at (state_of calloc_dirty) (value_of calloc_dirty + i) = 0) /\
  (exists p s', calloc ex_dirty_state 5 5 = Some (p, s')).
Proof.
  split; [vm_compute; reflexivity|]. split; [vm_compute; reflexivity|].
  destruct (calloc_zeroes ex_dirty_state 5 5) as [H1 H2].
  assert (R : returns calloc_dirty = true) by (vm_compute; reflexivity).
  destruct (H1 (value_of calloc_dirty) (state_of calloc_dirty)
              (returns_eq _ R)) as [Ha Hb].
  split; [exact Ha|]. split.
  - apply Hb. vm_compute. discriminate.
  - apply (H2 (reach_heap_ok _ _ ex_dirty_reach)). vm_compute. discriminate.
Defined.

(** ** C10: [remove_node] *)

(** C10.  Let the free list be the well-formed doubly-linked list
    [f1 ++ b :: f2] headed by [first].  Then [remove_node b] returns, and
    afterwards [first] heads the well-formed list [f1 ++ f2]: for [f1] and
    [f2] both non-empty (interior) the neighbours are linked to each other;
    for [f1] empty (head) [first] moves to the successor; for [f2] empty
    (tail) the predecessor becomes last; and for both empty (sole element)
    [first] becomes null.  Words other than link fields of the remaining
    nodes keep their value, and the heap bounds are unchanged. *)
Theorem remove_node_cases (s : state) (f1 f2 : list Z) (b : Z) :
  0 < heap_lo s -> heap_brk s <= W ->
  dllseg (mem s) 0 (f1 ++ b :: f2) 0 ->
  first s = hd_node (f1 ++ b :: f2) 0 ->
  NoDup (f1 ++ b :: f2) -> sparse (f1 ++ b :: f2) ->
  nodes_in s (f1 ++ b :: f2) ->
  exists s', remove_node s b = Some s' /\ same_heap s s' /\
    first s' = hd_node (f1 ++ f2) 0 /\
    dllseg (mem s') 0 (f1 ++ f2) 0 /\
    (forall y, (forall c, In c (f1 ++ f2) -> far y (c + 8) /\ far y (c + 16)) ->
               ldw (mem s') y = ldw (mem s) y) /\
    (f1 = [] -> f2 = [] -> first s' = NULL).
Proof.
  intros Hlo Hbrk Hd Hf Hnd Hsp Hin.
  destruct (remove_node_spec s Hlo Hbrk f1 f2 b Hd Hf Hnd Hsp Hin)
    as (s' & E & SH & F & D & Fr).
  exists s'. repeat (split; [assumption|]).
  intros -> ->. exact F.
Qed.

Lemma remove_node_cases_witness :
  exists s', remove_node init_state 4104 = Some s' /\ same_heap init_state s' /\
    first s' = NULL /\
    dllseg (mem s') 0 [] 0 /\
    (forall y, (forall c, In c (@nil Z) -> far y (c + 8) /\ far y (c + 16)) ->
               ldw (mem s') y = ldw (mem init_state) y) /\
    (@nil Z = [] -> @nil Z = [] -> first s' = NULL).
Proof.
  apply (remove_node_cases init_state [] [] 4104).
  - vm_compute. reflexivity.
  - vm_compute. discriminate.
  - exact (K_links _ _ (L_linked _ _ _ init_layout)).
  - exact (K_first _ _ (L_linked _ _ _ init_layout)).
  - exact (K_nodup _ _ (L_linked _ _ _ init_layout)).
  - intros c c' [<-|[]] [<-|[]]. left. reflexivity.
  - intros c [<-|[]]. vm_compute. split; discriminate.
Defined.

(** * Further properties of the code *)

(** ** What the operations leave untouched *)

Lemma word_byte (s s' : state) (x : Z) :
  ldw (mem s') x = ldw (mem s) x -> byte_at s' x = byte_at s x.
Proof.
  intros H. unfold byte_at.
  rewrite <- (ldw_low_byte (mem s') x), <- (ldw_low_byte (mem s) x), H. reflexivity.
Qed.

(** [malloc] keeps every word of every allocated block. *)
Lemma malloc_keeps (s : state) (bs : blocks) (fl : list Z) (n p : Z) (s' : state) :
  layout s bs fl -> 0 <= n <= W - 32 -> malloc s n = Some (p, s') ->
  forall c csz y, In (c, csz) (alloc_blocks (heap_lo s + 8) bs) ->
    c <= y -> y + 8 <= c + csz + 16 -> ldw (mem s') y = ldw (mem s) y.
Proof.
  intros L Hn E c csz y Hin Y1 Y2.
  destruct (Z.eq_dec n 0) as [->|Hn0].
  - unfold malloc in E. cbn [Z.eqb] in E. inversion E; subst. reflexivity.
  - destruct (malloc_frame s bs fl n L ltac:(lia)) as (p1 & s1 & E1 & _ & _ & _ & _ & Fr).
    rewrite E1 in E. inversion E; subst p1 s1.
    apply Fr. apply (alloc_clear s bs c csz y (L_tiled _ _ _ L) Hin Y1 Y2).
Qed.

(** [free] of an allocated block keeps every word of every other allocated
    block, and leaves the allocated bit of the released header clear. *)
Lemma free_keeps (s : state) (bs : blocks) (fl : list Z) (p psz : Z) :
  layout s bs fl -> In (p - 8, psz) (alloc_blocks (heap_lo s + 8) bs) ->
  exists s' bs' fl' b' sz',
    free s p = Some s' /\ same_heap s s' /\ layout s' bs' fl' /\
    first s' = b' + 8 /\
    In (b', sz', false) (blocks_from (heap_lo s + 8) bs') /\
    b' <= p - 8 /\ p - 8 + psz <= b' + sz' /\
    Z.land (ldw (mem s') (p - 8)) 1 = 0 /\
    (forall c csz, In (c, csz) (alloc_blocks (heap_lo s + 8) bs) -> c <> p - 8 ->
       In (c, csz) (alloc_blocks (heap_lo s + 8) bs') /\
       forall y, c <= y -> y + 8 <= c + csz + 16 ->
         ldw (mem s') y = ldw (mem s) y).
Proof.
  intros L Hp. pose proof Hp as Hp'. apply in_alloc_blocks in Hp'.
  destruct (in_blocks_split _ _ _ _ _ Hp') as (l1 & l2 & -> & Eb).
  destruct (free_frame s l1 l2 psz fl L)
    as (s' & bs' & fl' & b' & sz' & E & SH & L' & Hf & Hin & Ea & Hle & Hend & _ & _ & _ & _
        & _ & _ & Hbit & Fr).
  replace (heap_lo s + 8 + span l1 + 8) with p in E by lia.
  rewrite <- Eb in Hle, Hend, Hbit.
  exists s', bs', fl', b', sz'.
  split; [exact E|]. split; [exact SH|]. split; [exact L'|].
  split; [exact Hf|]. split; [exact Hin|]. split; [exact Hle|]. split; [exact Hend|].
  split; [exact Hbit|].
  intros c csz Hc Hne.
  assert (Hc' : In (c, csz) (alloc_blocks (heap_lo s + 8) bs')).
  { rewrite Ea. rewrite alloc_blocks_app in Hc. cbn [alloc_blocks app] in Hc.
    apply (in_mid_other _ _ (heap_lo s + 8 + span l1, psz) (c, csz)); [exact Hc|].
    cbn [fst]. lia. }
  split; [exact Hc'|].
  intros y Y1 Y2.
  pose proof (L_tiled _ _ _ L') as T'. destruct SH as (E1 & E2 & E3).
  pose proof (tiled_geo _ _ T') as (_ & _ & _ & _ & G5 & _).
  pose proof Hc' as Hc''. apply in_alloc_blocks in Hc''.
  destruct (blocks_range _ _ _ _ _ G5 Hc'') as (_ & _ & [R1 _]).
  destruct (blocks_range _ _ _ _ _ G5 Hin) as (_ & _ & [R2 _]).
  apply Fr.
  - destruct (blocks_sep _ _ _ _ _ _ _ _ G5 Hc'' Hin) as [(Ec & _)|Hsep]; [|lia].
    exfalso. subst b'. rewrite <- E1 in Hc'', Hin.
    destruct (block_size_unique _ _ _ _ _ _ _ T' Hc'' Hin) as [_ Ex]. discriminate.
  - apply (clear_nodes s _ fl y L).
    apply (alloc_clear s _ c csz y (L_tiled _ _ _ L) Hc Y1 Y2).
Qed.

Lemma mem_memcpy_copy (s s' : state) (dst src n : Z) :
  mem_memcpy s dst src n = Some s' ->
  forall x, dst <= x < dst + n -> mem s' x = mem s (src + (x - dst)).
Proof.
  unfold mem_memcpy. destruct (in_heap s dst n && in_heap s src n); [|discriminate].
  intros H x Hx. inversion H; subst s'. st_simpl.
  replace ((dst <=? x) && (x <? dst + n)) with true; [reflexivity|].
  symmetry. apply andb_true_intro. split; [apply Z.leb_le|apply Z.ltb_lt]; lia.
Qed.

(** [realloc] of an allocated block to a size that is not 0: the bytes of the
    old payload are the first bytes of the new one, and every other allocated
    block keeps its words. *)
Lemma realloc_keeps (s : state) (bs : blocks) (fl : list Z)
      (p psz n q : Z) (s' : state) :
  layout s bs fl -> In (p - 8, psz) (alloc_blocks (heap_lo s + 8) bs) ->
  0 < n <= W - 32 -> realloc s p n = Some (q, s') ->
  (forall i, 0 <= i < psz -> byte_at s' (q + i) = byte_at s (p + i)) /\
  (forall c csz, In (c, csz) (alloc_blocks (heap_lo s + 8) bs) -> c <> p - 8 ->
     forall x, c + 8 <= x < c + 8 + csz -> byte_at s' x = byte_at s x).
Proof.
  intros L Hp Hn E.
  pose proof (L_tiled _ _ _ L) as T.
  pose proof (tiled_geo _ _ T) as (G1 & G2 & G3 & G4 & G5 & G6).
  pose proof Hp as Hp'. apply in_alloc_blocks in Hp'.
  destruct (tiled_block _ _ _ _ _ T Hp') as (B1 & B2 & [B3 B4] & B5 & B6).
  unfold realloc, BLK, NULL in E. cbn [Z.opp] in E.
  rewrite padd_small in E by lia. replace (p + -8) with (p - 8) in E by lia.
  rewrite (get_size_ok _ _ psz true) in E by (try assumption; lia).
  cbn [bind] in E.
  replace (p =? 0) with false in E by (symmetry; apply Z.eqb_neq; lia).
  replace (n =? 0) with false in E by (symmetry; apply Z.eqb_neq; lia).
  rewrite needed_size_val in E by lia.
  destruct (align_props n ltac:(lia)) as (A1 & A2 & [A3 A4] & A5).
  destruct (align n + 16 <=? psz) eqn:Hfit.
  - (* the block is large enough *)
    inversion E; subst q s'. split; reflexivity.
  - (* move *)
    apply Z.leb_gt in Hfit.
    assert (Hpa : psz <= align n).
    { pose proof (Z.div_mod psz 16 ltac:(lia)) as D1.
      pose proof (Z.div_mod (align n) 16 ltac:(lia)) as D2.
      rewrite B4 in D1. rewrite A4 in D2. lia. }
    destruct (malloc_spec s bs fl n L ltac:(lia))
      as (q1 & s1 & Em & H1 & H2 & H3 & Hcase).
    rewrite Em in E. cbn [bind] in E.
    destruct Hcase as [(-> & -> & _)|(Hq & _ & bs1 & fl1 & X1 & X2 & asz & L1 & Ha & Ea1 & Ea)].
    { unfold mem_memcpy, in_heap in E.
      replace (heap_lo s <=? 0) with false in E by (symmetry; apply Z.leb_gt; lia).
      cbn [andb bind] in E. discriminate. }
    pose proof (malloc_keeps s bs fl n q1 s1 L ltac:(lia) Em) as Km.
    destruct (mem_memcpy s1 q1 p psz) as [s2|] eqn:Ec; [|discriminate].
    cbn [bind] in E.
    destruct (mem_memcpy_frame _ _ _ _ _ Ec) as (Es2 & Fr & _).
    pose proof (mem_memcpy_copy _ _ _ _ _ Ec) as Cp.
    rewrite <- H1 in Ea1.
    assert (Hq1 : In (q1 - 8, asz) (alloc_blocks (heap_lo s1 + 8) bs1)).
    { rewrite Ea1. apply in_or_app. right. left. reflexivity. }
    assert (L2 : layout s2 bs1 fl1).
    { rewrite Es2. apply (layout_payload_write _ _ _ (q1 - 8) asz); [exact L1|exact Hq1|].
      replace (q1 - 8 + 8) with q1 by lia.
      apply (bytes_frame_wider _ _ _ _ _ Fr). lia. }
    assert (Hlo2 : heap_lo s2 = heap_lo s1) by (rewrite Es2; reflexivity).
    assert (Hold : forall c csz, In (c, csz) (alloc_blocks (heap_lo s + 8) bs) ->
              In (c, csz) (alloc_blocks (heap_lo s2 + 8) bs1)).
    { intros c csz Hc. rewrite Hlo2, Ea1. rewrite Ea in Hc.
      apply in_app_or in Hc. apply in_or_app.
      destruct Hc; [left|right; right]; assumption. }
    pose proof (tiled_geo _ _ (L_tiled _ _ _ L1)) as (_ & _ & _ & _ & G5' & _).
    pose proof (alloc_blocks_NoDup bs1 (heap_lo s1 + 8) G5') as Nd.
    rewrite Ea1 in Nd.
    assert (Hnew : forall c csz, In (c, csz) (alloc_blocks (heap_lo s + 8) bs) ->
              c <> q1 - 8).
    { intros c csz Hc. rewrite Ea in Hc.
      exact (NoDup_fst_mid _ _ _ _ _ Nd Hc). }
    destruct (free_keeps s2 bs1 fl1 p psz L2 (Hold _ _ Hp))
      as (s3 & bs3 & fl3 & b' & sz' & Ef & _ & _ & _ & _ & _ & _ & _ & Kf).
    rewrite Ef in E. cbn [bind] in E. inversion E; subst q s'.
    rewrite Hlo2 in Kf.
    split.
    + intros i Hi.
      destruct (Kf (q1 - 8) asz Hq1 ltac:(pose proof (Hnew _ _ Hp); lia)) as [_ Kq].
      rewrite (word_byte s2 s3) by (apply Kq; lia).
      unfold byte_at at 1. rewrite (Cp (q1 + i)) by lia.
      replace (p + (q1 + i - q1)) with (p + i) by lia.
      change (mem s1 (p + i) mod 256) with (byte_at s1 (p + i)).
      apply word_byte. apply (Km (p - 8) psz); [exact Hp|lia|lia].
    + intros c csz Hc Hne x Hx.
      pose proof (Hold _ _ Hc) as Hc2. rewrite Hlo2 in Hc2.
      destruct (Kf c csz Hc2 Hne) as [_ Kc].
      rewrite (word_byte s2 s3) by (apply Kc; lia).
      assert (Hsep : c + csz + 16 <= q1 - 8 \/ q1 - 8 + asz + 16 <= c).
      { pose proof Hc2 as Hc3. pose proof Hq1 as Hq3.
        apply in_alloc_blocks in Hc3, Hq3.
        destruct (blocks_sep _ _ _ _ _ _ _ _ G5' Hc3 Hq3) as [(Ex & _)|Hs]; [|exact Hs].
        exfalso. exact (Hnew _ _ Hc Ex). }
      unfold byte_at at 1. rewrite Fr by lia.
      change (mem s1 x mod 256) with (byte_at s1 x).
      apply word_byte. apply (Km c csz); [exact Hc|lia|lia].
Qed.

(** ** X1: [mm_init] *)

(** X1.  On an empty heap at a 16-byte aligned address: with room for one
    chunk, [mm_init] returns [true], the heap holds prologue, one free block
    of 4064 bytes and epilogue in 4096 bytes, and that block is the free list;
    without room it returns [false] and leaves the state as it is. *)
Theorem mm_init_establishes (s0 : state) :
  fresh s0 ->
  (heap_lo s0 + 4096 <= heap_max s0 ->
   exists s, mm_init s0 = Some (true, s) /\
     layout s [(4064, false)] [heap_lo s0 + 8] /\
     heap_lo s = heap_lo s0 /\ heap_brk s = heap_lo s0 + 4096 /\
     heap_max s = heap_max s0 /\ first s = heap_lo s0 + 16) /\
  (heap_max s0 < heap_lo s0 + 4096 -> mm_init s0 = Some (false, s0)).
Proof.
  intros F. split.
  - intros Hroom.
    destruct (mm_init_spec s0 F Hroom) as (s & E & H1 & H2 & L).
    exists s. split; [exact E|]. split; [exact L|]. split; [exact H1|].
    pose proof (T_end _ _ (L_tiled _ _ _ L)) as He. cbn [span] in He.
    pose proof (K_first _ _ (L_linked _ _ _ L)) as Hf. cbn [hd_node] in Hf.
    repeat split; lia.
  - intros Hno. apply mm_init_fail. destruct F as (F1 & _). lia.
Qed.

Lemma mm_init_establishes_witness :
  exists s, mm_init m0 = Some (true, s) /\
    layout s [(4064, false)] [heap_lo m0 + 8] /\
    heap_lo s = heap_lo m0 /\ heap_brk s = heap_lo m0 + 4096 /\
    heap_max s = heap_max m0 /\ first s = heap_lo m0 + 16.
Proof.
  apply (proj1 (mm_init_establishes m0 fresh_m0)). vm_compute. discriminate.
Defined.

(** ** X2, X3: [align] and [aligned] *)

(** X2.  [align] returns a multiple of 16.  Up to [2^64 - 16] it is the
    least multiple of 16 that is at least [x], and aligning twice changes
    nothing; above [2^64 - 16] the sum wraps around and the result is 0. *)
Theorem align_rounds_up (x : Z) :
  0 <= x < W ->
  align x mod 16 = 0 /\
  (x <= W - 16 -> x <= align x < x + 16 /\ align (align x) = align x) /\
  (W - 16 < x -> align x = 0).
Proof.
  intros Hx. pose proof W_eq as HW.
  destruct (align_range x) as [Hm Hr].
  split; [exact Hm|]. split.
  - intros Hle. split; [|apply align_mult; [exact Hm|exact Hr]].
    destruct (Z.eq_dec x (W - 16)) as [->|Hne].
    + rewrite align_mult; [lia|reflexivity|lia].
    + rewrite align_small by lia.
      pose proof (Z.div_mod (x + 15) 16 ltac:(lia)) as E.
      pose proof (Z.mod_pos_bound (x + 15) 16 ltac:(lia)) as B. lia.
  - intros Hbig. unfold align, ALIGNMENT, wrap.
    assert (E : (x + 16) mod W = x + 16 - W).
    { symmetry. apply (Z.mod_unique (x + 16) W 1); lia. }
    rewrite E. rewrite (Z.mod_small (x + 16 - W - 1)) by lia.
    rewrite (Z.div_small (x + 16 - W - 1)) by lia. reflexivity.
Qed.

Lemma align_rounds_up_witness :
  align 100 mod 16 = 0 /\
  (100 <= W - 16 -> 100 <= align 100 < 100 + 16 /\ align (align 100) = align 100) /\
  (W - 16 < 100 -> align 100 = 0).
Proof. apply (align_rounds_up 100). vm_compute. split; [discriminate|reflexivity]. Defined.

(** X3.  [aligned] answers [true] exactly for the multiples of 16. *)
Theorem aligned_iff (p : Z) :
  0 <= p < W -> (aligned p = true <-> p mod 16 = 0).
Proof.
  intros Hp. pose proof W_eq as HW. unfold aligned. rewrite Z.eqb_eq. split.
  - intros E. rewrite <- E. apply align_range.
  - intros M. apply align_mult; [exact M|].
    pose proof (Z.div_mod p 16 ltac:(lia)) as D. rewrite M in D. lia.
Qed.

Lemma aligned_iff_witness : aligned 4112 = true <-> 4112 mod 16 = 0.
Proof. apply (aligned_iff 4112). vm_compute. split; [discriminate|reflexivity]. Defined.

(** ** X4: packing and unpacking a tag *)

(** X4.  Writing [lsb_a sz bit] (an even size below [2^64] and a bit 0 or 1)
    to a word of the heap other than at address 0, and reading it back:
    [get_size] returns [sz] and [get_allocated] returns whether [bit] is 1. *)
Theorem tag_roundtrip (s : state) (a sz bit : Z) :
  a <> NULL -> in_heap s a 8 = true ->
  0 <= sz < W -> sz mod 2 = 0 -> bit = 0 \/ bit = 1 ->
  exists s', write_value s a (lsb_a sz bit) = Some s' /\
    get_size s' a = Some sz /\ get_allocated s' a = Some (bit =? 1).
Proof.
  intros Ha Hin Hsz Hev Hbit. pose proof W_eq as HW.
  assert (Hv : lsb_a sz bit = sz + bit).
  { unfold lsb_a. destruct Hbit as [->| ->].
    - apply (lor_even_bit sz false Hev).
    - apply (lor_even_bit sz true Hev). }
  pose proof (Z.div_mod sz 2 ltac:(lia)) as D. rewrite Hev in D.
  assert (Hr : 0 <= sz + bit < W) by lia.
  unfold write_value, store. rewrite Hin. eexists. split; [reflexivity|].
  unfold get_size, get_allocated, load. st_simpl.
  replace (in_heap (set_mem s (stw (mem s) a (lsb_a sz bit))) a 8) with true
    by (symmetry; exact Hin).
  apply Z.eqb_neq in Ha. rewrite Ha. cbn [bind]. rewrite Hv.
  rewrite ldw_stw_same, (wrap_small _ Hr).
  rewrite (land_mask _ Hr), land_one. split.
  - f_equal. replace ((sz + bit) / 2) with (sz / 2); [lia|].
    apply (Z.div_unique (sz + bit) 2 (sz / 2) bit); lia.
  - f_equal. replace ((sz + bit) mod 2) with bit.
    + destruct Hbit as [->| ->]; reflexivity.
    + apply (Z.mod_unique (sz + bit) 2 (sz / 2) bit); lia.
Qed.

Lemma tag_roundtrip_witness :
  exists s', write_value init_state 4200 (lsb_a 48 1) = Some s' /\
    get_size s' 4200 = Some 48 /\ get_allocated s' 4200 = Some (1 =? 1).
Proof.
  apply (tag_roundtrip init_state 4200 48 1).
  - discriminate.
  - vm_compute. reflexivity.
  - vm_compute. split; [discriminate|reflexivity].
  - reflexivity.
  - right. reflexivity.
Defined.

(** ** X5: stepping between neighbouring blocks *)

(** X5.  For every block [(b, sz)] of a tiled heap, [next_blk] of [b] is the
    address right after the block's footer, and [prev_blk] of that address is
    [b] again. *)
Theorem block_navigation (s : state) (bs : blocks) (b sz : Z) (al : bool) :
  tiled s bs -> In (b, sz, al) (blocks_from (heap_lo s + 8) bs) ->
  next_blk s b = Some (b + sz + 16) /\ prev_blk s (b + sz + 16) = Some b.
Proof.
  intros T Hin.
  destruct (tiled_block _ _ _ _ _ T Hin) as (Hh & Hf & [S1 S2] & Hlo & Hhi).
  pose proof (T_lo _ _ T). pose proof (T_brk _ _ T). pose proof (T_max _ _ T).
  unfold next_blk, prev_blk, BLK. cbn [Z.opp].
  rewrite (get_size_ok s b sz al) by (try assumption; lia). cbn [bind].
  rewrite padd_small by lia. split; [f_equal; lia|].
  rewrite padd_small by lia.
  replace (b + sz + 16 + -8) with (b + sz + 8) by lia.
  rewrite (get_size_ok s (b + sz + 8) sz al) by (try assumption; lia). cbn [bind].
  rewrite padd_small by lia. f_equal. lia.
Qed.

Lemma block_navigation_witness :
  next_blk (state_of ex_a) 4104 = Some (4104 + 112 + 16) /\
  prev_blk (state_of ex_a) (4104 + 112 + 16) = Some 4104.
Proof.
  apply (block_navigation (state_of ex_a) [(112, true); (3936, false)] 4104 112 true
           (L_tiled _ _ _ ex_a_layout)).
  left. vm_compute. reflexivity.
Defined.

(** ** X6, X7: the free list *)

(** X6.  [add_node] puts the block at the head of a well-formed list: the
    call returns, [first] is the new node, and the list is the old one with
    the block in front. *)
Theorem add_node_pushes (s : state) (fl : list Z) (b : Z) :
  0 < heap_lo s -> heap_brk s <= W ->
  dllseg (mem s) 0 fl 0 -> first s = hd_node fl 0 ->
  NoDup fl -> sparse fl -> nodes_in s fl ->
  heap_lo s <= b -> b + 24 <= heap_brk s ->
  (forall c, In c fl -> c + 16 <= b \/ b + 16 <= c) ->
  exists s', add_node s b = Some s' /\ same_heap s s' /\
    first s' = b + 8 /\ dllseg (mem s') 0 (b :: fl) 0.
Proof.
  intros Hlo Hbrk D F Nd Sp Ni B1 B2 Hsep.
  destruct (add_node_spec s Hlo Hbrk fl b D F Nd Sp Ni B1 B2 Hsep)
    as (s' & E & SH & F' & D' & _).
  exists s'. auto.
Qed.

Lemma list_of_init :
  dllseg (mem init_state) 0 [4104] 0 /\ first init_state = hd_node [4104] 0 /\
  NoDup [4104] /\ sparse [4104] /\ nodes_in init_state [4104].
Proof.
  split; [exact (K_links _ _ (L_linked _ _ _ init_layout))|].
  split; [exact (K_first _ _ (L_linked _ _ _ init_layout))|].
  split; [exact (K_nodup _ _ (L_linked _ _ _ init_layout))|].
  split.
  - intros c c' [<-|[]] [<-|[]]. left. reflexivity.
  - intros c [<-|[]]. vm_compute. split; discriminate.
Defined.

Lemma add_node_pushes_witness :
  exists s', add_node init_state 4200 = Some s' /\ same_heap init_state s' /\
    first s' = 4200 + 8 /\ dllseg (mem s') 0 [4200; 4104] 0.
Proof.
  destruct list_of_init as (D & F & Nd & Sp & Ni).
  apply (add_node_pushes init_state [4104] 4200); try assumption.
  - vm_compute. reflexivity.
  - vm_compute. discriminate.
  - vm_compute. discriminate.
  - vm_compute. discriminate.
  - intros c [<-|[]]. left. vm_compute. discriminate.
Defined.

(** X7.  [remove_node] undoes [add_node]: after pushing a block and removing
    it again, [first] is what it was and the list is the old one. *)
Theorem add_remove_roundtrip (s : state) (fl : list Z) (b : Z) :
  0 < heap_lo s -> heap_brk s <= W ->
  dllseg (mem s) 0 fl 0 -> first s = hd_node fl 0 ->
  NoDup fl -> sparse fl -> nodes_in s fl ->
  heap_lo s <= b -> b + 24 <= heap_brk s ->
  (forall c, In c fl -> c + 16 <= b \/ b + 16 <= c) ->
  exists s1 s2, add_node s b = Some s1 /\ remove_node s1 b = Some s2 /\
    same_heap s s2 /\ first s2 = first s /\ dllseg (mem s2) 0 fl 0.
Proof.
  intros Hlo Hbrk D F Nd Sp Ni B1 B2 Hsep.
  destruct (add_node_spec s Hlo Hbrk fl b D F Nd Sp Ni B1 B2 Hsep)
    as (s1 & E1 & SH1 & F1 & D1 & _).
  pose proof SH1 as (H1 & H2 & H3).
  assert (Nd1 : NoDup ([] ++ b :: fl)).
  { cbn [app]. constructor; [|exact Nd].
    intros Hin. specialize (Hsep b Hin). lia. }
  assert (Sp1 : sparse ([] ++ b :: fl)).
  { cbn [app]. intros c c' [<-|Hc] [<-|Hc'].
    - left. reflexivity.
    - right. specialize (Hsep c' Hc'). lia.
    - right. specialize (Hsep c Hc). lia.
    - apply Sp; assumption. }
  assert (Ni1 : nodes_in s1 ([] ++ b :: fl)).
  { cbn [app]. intros c [<-|Hc]; rewrite H1, H2; [lia|apply Ni; exact Hc]. }
  destruct (remove_node_spec s1 ltac:(lia) ltac:(lia) [] fl b D1 F1 Nd1 Sp1 Ni1)
    as (s2 & E2 & SH2 & F2 & D2 & _).
  exists s1, s2. split; [exact E1|]. split; [exact E2|].
  split; [exact (same_heap_trans _ _ _ SH1 SH2)|].
  cbn [app] in F2, D2. split; [congruence|exact D2].
Qed.

Lemma add_remove_roundtrip_witness :
  exists s1 s2, add_node init_state 4200 = Some s1 /\ remove_node s1 4200 = Some s2 /\
    same_heap init_state s2 /\ first s2 = first init_state /\
    dllseg (mem s2) 0 [4104] 0.
Proof.
  destruct list_of_init as (D & F & Nd & Sp & Ni).
  apply (add_remove_roundtrip init_state [4104] 4200); try assumption.
  - vm_compute. reflexivity.
  - vm_compute. discriminate.
  - vm_compute. discriminate.
  - vm_compute. discriminate.
  - intros c [<-|[]]. left. vm_compute. discriminate.
Defined.

(** ** X8: [first_fit] *)

(** X8.  On a well-formed heap [first_fit] returns.  The result is the first
    block in list order whose size is at least the request (every block
    before it in the list is smaller), and it is [NULL] only if every free
    block of the heap is smaller than the request. *)
Theorem first_fit_is_first (s : state) (bs : blocks) (fl : list Z) (size : Z) :
  layout s bs fl ->
  exists r, first_fit s size = Some r /\
    ((r = NULL /\
      forall c csz, In (c, csz, false) (blocks_from (heap_lo s + 8) bs) ->
        csz < size) \/
     exists f1 f2 rsz, fl = f1 ++ r :: f2 /\
       In (r, rsz, false) (blocks_from (heap_lo s + 8) bs) /\ size <= rsz /\
       forall c csz, In c f1 ->
         In (c, csz, false) (blocks_from (heap_lo s + 8) bs) -> csz < size).
Proof. intros L. exact (first_fit_first s bs fl size L). Qed.

(** The first of two blocks of 100 bytes released again: the free list is
    the released block of 112 bytes followed by the remainder of the chunk. *)
Definition ex_two : state :=
  match free (state_of ex_d) (value_of ex_a) with Some s => s | None => m0 end.

Definition ex_two_blocks : blocks := [(112, false); (112, true); (3808, false)].

Lemma ex_two_layout : layout ex_two ex_two_blocks [4104; 4360].
Proof.
  constructor.
  - constructor; [ev|ev|ev|ev|ev|ev|ev|ev_sizes|vm_compute; repeat split].
  - constructor; [vm_compute; repeat split|ev|].
    constructor; [intros [H|[]]; discriminate|]. repeat constructor. intros [].
  - intros c. vm_compute. tauto.
  - vm_compute. repeat split.
  - discriminate.
Qed.

Lemma first_fit_is_first_witness :
  first_fit ex_two 200 = Some 4360 /\ first_fit ex_two 5000 = Some NULL /\
  (exists r, first_fit ex_two 200 = Some r /\
    ((r = NULL /\
      forall c csz,
        In (c, csz, false) (blocks_from (heap_lo ex_two + 8) ex_two_blocks) ->
        csz < 200) \/
     exists f1 f2 rsz, [4104; 4360] = f1 ++ r :: f2 /\
       In (r, rsz, false) (blocks_from (heap_lo ex_two + 8) ex_two_blocks) /\
       200 <= rsz /\
       forall c csz, In c f1 ->
         In (c, csz, false) (blocks_from (heap_lo ex_two + 8) ex_two_blocks) ->
         csz < 200)) /\
  (exists r, first_fit ex_two 5000 = Some r /\
    ((r = NULL /\
      forall c csz,
        In (c, csz, false) (blocks_from (heap_lo ex_two + 8) ex_two_blocks) ->
        csz < 5000) \/
     exists f1 f2 rsz, [4104; 4360] = f1 ++ r :: f2 /\
       In (r, rsz, false) (blocks_from (heap_lo ex_two + 8) ex_two_blocks) /\
       5000 <= rsz /\
       forall c csz, In c f1 ->
         In (c, csz, false) (blocks_from (heap_lo ex_two + 8) ex_two_blocks) ->
         csz < 5000)).
Proof.
  split; [vm_compute; reflexivity|]. split; [vm_compute; reflexivity|]. split.
  - exact (first_fit_is_first ex_two ex_two_blocks [4104; 4360] 200 ex_two_layout).
  - exact (first_fit_is_first ex_two ex_two_blocks [4104; 4360] 5000 ex_two_layout).
Defined.

(** ** X9, X10: which block [malloc] takes *)

(** X9.  For a request of [0 < n <= 2^64 - 32] bytes on a well-formed heap
    [malloc] returns.  If some free block has at least the aligned size, the
    heap does not grow and the block handed out is the first one in list
    order that is large enough.  If none has, either the heap cannot grow by
    [extendsize] bytes and the call returns [NULL] with the state unchanged,
    or the heap grows by exactly [extendsize] bytes. *)
Theorem malloc_first_fit_policy (s : state) (bs : blocks) (fl : list Z) (n : Z) :
  layout s bs fl -> 0 < n <= MAX_REQUEST ->
  exists p s', malloc s n = Some (p, s') /\
    ((exists c csz, In (c, csz, false) (blocks_from (heap_lo s + 8) bs) /\
                    align n <= csz) ->
     heap_brk s' = heap_brk s /\
     exists f1 f2 rsz, fl = f1 ++ (p - 8) :: f2 /\
       In (p - 8, rsz, false) (blocks_from (heap_lo s + 8) bs) /\ align n <= rsz /\
       forall c csz, In c f1 ->
         In (c, csz, false) (blocks_from (heap_lo s + 8) bs) -> csz < align n) /\
    ((forall c csz, In (c, csz, false) (blocks_from (heap_lo s + 8) bs) ->
                    csz < align n) ->
     (p = NULL /\ s' = s /\ heap_max s < heap_brk s + extendsize (align n)) \/
     (p <> NULL /\ heap_brk s' = heap_brk s + extendsize (align n))).
Proof.
  intros L Hn. unfold MAX_REQUEST in Hn.
  pose proof (tiled_geo _ _ (L_tiled _ _ _ L)) as (G1 & _ & _ & _ & G5 & _).
  destruct (malloc_frame s bs fl n L Hn) as (p & s' & E & H1 & H2 & H3 & Hc & _).
  destruct (first_fit_first s bs fl (align n) L) as (r & Eff & Hr).
  destruct (align_props n Hn) as (_ & _ & Hso & Ha3).
  destruct (extendsize_props (align n) Hso Ha3) as (X1 & _ & X3 & X4).
  assert (Eal : align (extendsize (align n)) = extendsize (align n)).
  { apply align_mult; [exact X3|lia]. }
  exists p, s'. split; [exact E|]. split.
  - intros (c & csz & Hin & Hfit).
    destruct Hr as [(_ & Hall)|(f1 & f2 & rsz & Efl & Hr1 & Hr2 & Hr3)].
    { specialize (Hall c csz Hin). lia. }
    destruct (blocks_range _ _ _ _ _ G5 Hr1) as (Hr0 & _).
    assert (Ep : first_fit s (align n) = Some (p - 8) /\ heap_brk s' = heap_brk s).
    { destruct Hc as [(_ & _ & Hnull & _)|(_ & _ & bs' & fl' & A1 & A2 & asz & _ & _ & _ & _ & _ & Hd)].
      - rewrite Eff in Hnull. inversion Hnull. unfold NULL in *. lia.
      - destruct Hd as [Hd|[Hnull _]]; [exact Hd|].
        rewrite Eff in Hnull. inversion Hnull. unfold NULL in *. lia. }
    destruct Ep as [Ep Eb]. rewrite Eff in Ep. inversion Ep; subst r.
    split; [exact Eb|]. exists f1, f2, rsz. auto.
  - intros Hall.
    assert (Er : r = 0).
    { destruct Hr as [(Er & _)|(f1 & f2 & rsz & _ & Hr1 & Hr2 & _)]; [exact Er|].
      specialize (Hall r rsz Hr1). lia. }
    subst r.
    destruct Hc as [(Hp & Hs & _ & Hmax)|(Hp & _ & bs' & fl' & A1 & A2 & asz & L' & _ & Ea & _ & _ & Hd)].
    + left. rewrite Eal in Hmax. auto.
    + right. split; [exact Hp|].
      destruct Hd as [[Hd _]|[_ Hd]]; [|exact Hd].
      exfalso. rewrite Eff in Hd. inversion Hd as [Hd'].
      pose proof (tiled_geo _ _ (L_tiled _ _ _ L')) as (G1' & _ & _ & _ & G5' & _).
      assert (Hin : In (p - 8, asz) (alloc_blocks (heap_lo s' + 8) bs')).
      { rewrite H1, Ea. apply in_or_app. right. left. reflexivity. }
      apply (alloc_blocks_range _ _ _ _ G5') in Hin. lia.
Qed.

(** Two requests on [ex_two]: for 200 bytes the head of the list is too
    small and the second free block is taken; for 5000 bytes no free block is
    large enough and the heap grows. *)
Definition ex_e : option (Z * state) := malloc ex_two 200.
Definition ex_h : option (Z * state) := malloc ex_two 5000.

Lemma malloc_first_fit_policy_witness :
  malloc ex_two 200 = Some (4368, state_of ex_e) /\
  malloc ex_two 5000 = Some (4368, state_of ex_h) /\
  heap_brk (state_of ex_h) = heap_brk ex_two + 5024 /\
  (exists p s', malloc ex_two 200 = Some (p, s') /\
    ((exists c csz,
        In (c, csz, false) (blocks_from (heap_lo ex_two + 8) ex_two_blocks) /\
        align 200 <= csz) ->
     heap_brk s' = heap_brk ex_two /\
     exists f1 f2 rsz, [4104; 4360] = f1 ++ (p - 8) :: f2 /\
       In (p - 8, rsz, false) (blocks_from (heap_lo ex_two + 8) ex_two_blocks) /\
       align 200 <= rsz /\
       forall c csz, In c f1 ->
         In (c, csz, false) (blocks_from (heap_lo ex_two + 8) ex_two_blocks) ->
         csz < align 200) /\
    ((forall c csz,
        In (c, csz, false) (blocks_from (heap_lo ex_two + 8) ex_two_blocks) ->
        csz < align 200) ->
     (p = NULL /\ s' = ex_two /\
      heap_max ex_two < heap_brk ex_two + extendsize (align 200)) \/
     (p <> NULL /\ heap_brk s' = heap_brk ex_two + extendsize (align 200)))) /\
  (exists p s', malloc ex_two 5000 = Some (p, s') /\
    ((exists c csz,
        In (c, csz, false) (blocks_from (heap_lo ex_two + 8) ex_two_blocks) /\
        align 5000 <= csz) ->
     heap_brk s' = heap_brk ex_two /\
     exists f1 f2 rsz, [4104; 4360] = f1 ++ (p - 8) :: f2 /\
       In (p - 8, rsz, false) (blocks_from (heap_lo ex_two + 8) ex_two_blocks) /\
       align 5000 <= rsz /\
       forall c csz, In c f1 ->
         In (c, csz, false) (blocks_from (heap_lo ex_two + 8) ex_two_blocks) ->
         csz < align 5000) /\
    ((forall c csz,
        In (c, csz, false) (blocks_from (heap_lo ex_two + 8) ex_two_blocks) ->
        csz < align 5000) ->
     (p = NULL /\ s' = ex_two /\
      heap_max ex_two < heap_brk ex_two + extendsize (align 5000)) \/
     (p <> NULL /\ heap_brk s' = heap_brk ex_two + extendsize (align 5000)))).
Proof.
  split; [apply (returns_eq ex_e); vm_compute; reflexivity|].
  split; [apply (returns_eq ex_h); vm_compute; reflexivity|].
  split; [vm_compute; reflexivity|]. split.
  - apply (malloc_first_fit_policy ex_two ex_two_blocks [4104; 4360] 200 ex_two_layout).
    split; [reflexivity|vm_compute; discriminate].
  - apply (malloc_first_fit_policy ex_two ex_two_blocks [4104; 4360] 5000 ex_two_layout).
    split; [reflexivity|vm_compute; discriminate].
Defined.

(** X10.  The block that [malloc] hands out for [0 < n <= 2^64 - 32] has a
    payload of at least the aligned request and of less than 32 bytes more:
    a remainder of 32 bytes or more is always split off. *)
Theorem malloc_block_size (s : state) (bs : blocks) (fl : list Z)
        (n p : Z) (s' : state) :
  layout s bs fl -> 0 < n <= MAX_REQUEST ->
  malloc s n = Some (p, s') -> p <> NULL ->
  exists bs' fl' asz, layout s' bs' fl' /\
    In (p - 8, asz) (alloc_blocks (heap_lo s' + 8) bs') /\
    n <= align n /\ align n <= asz /\ asz < align n + 32.
Proof.
  intros L Hn E Hp. unfold MAX_REQUEST in Hn.
  destruct (malloc_frame s bs fl n L Hn) as (p1 & s1 & E1 & H1 & _ & _ & Hc & _).
  rewrite E1 in E. inversion E; subst p1 s1.
  destruct Hc as [(Hp0 & _)|(_ & _ & bs' & fl' & A1 & A2 & asz & L' & Ha & Ea & _ & Hb & _)].
  { contradiction. }
  exists bs', fl', asz. split; [exact L'|]. split.
  - rewrite H1, Ea. apply in_or_app. right. left. reflexivity.
  - destruct (align_props n Hn) as (Ha1 & _). auto.
Qed.

Lemma malloc_block_size_witness :
  exists bs' fl' asz, layout (state_of ex_a) bs' fl' /\
    In (value_of ex_a - 8, asz) (alloc_blocks (heap_lo (state_of ex_a) + 8) bs') /\
    100 <= align 100 /\ align 100 <= asz /\ asz < align 100 + 32.
Proof.
  apply (malloc_block_size init_state [(4064, false)] [4104] 100
           (value_of ex_a) (state_of ex_a) init_layout).
  - split; [reflexivity|vm_compute; discriminate].
  - apply (returns_eq ex_a). vm_compute. reflexivity.
  - vm_compute. discriminate.
Defined.

(** ** X11 to X15: the contents of allocated blocks *)

(** The payload of the block at [c] holds the same bytes in both states. *)
Definition payload_kept (s s' : state) (c csz : Z) : Prop :=
  forall x, c + 8 <= x < c + 8 + csz -> byte_at s' x = byte_at s x.

(** X11.  [malloc] (for up to [2^64 - 32] bytes, on a well-formed heap)
    changes no byte of the payload of any allocated block. *)
Theorem malloc_keeps_payloads (s : state) (bs : blocks) (fl : list Z)
        (n p : Z) (s' : state) :
  layout s bs fl -> 0 <= n <= MAX_REQUEST -> malloc s n = Some (p, s') ->
  forall c csz, In (c, csz) (alloc_blocks (heap_lo s + 8) bs) ->
    payload_kept s s' c csz.
Proof.
  intros L Hn E c csz Hin x Hx. apply word_byte.
  apply (malloc_keeps s bs fl n p s' L Hn E c csz x Hin); lia.
Qed.

Definition ex_c : option (Z * state) := malloc (state_of ex_a) 200.

Lemma malloc_keeps_payloads_witness :
  payload_kept (state_of ex_a) (state_of ex_c) (4112 - 8) 112.
Proof.
  apply (malloc_keeps_payloads (state_of ex_a) [(112, true); (3936, false)] [4232]
           200 (value_of ex_c) (state_of ex_c) ex_a_layout).
  - split; [discriminate|vm_compute; discriminate].
  - apply (returns_eq ex_c). vm_compute. reflexivity.
  - exact ex_a_block.
Defined.

(** X12.  [free] of an allocated block returns and changes no byte of the
    payload of any other allocated block. *)
Theorem free_keeps_payloads (s : state) (bs : blocks) (fl : list Z) (p psz : Z) :
  layout s bs fl -> In (p - 8, psz) (alloc_blocks (heap_lo s + 8) bs) ->
  exists s', free s p = Some s' /\
    forall c csz, In (c, csz) (alloc_blocks (heap_lo s + 8) bs) -> c <> p - 8 ->
      payload_kept s s' c csz.
Proof.
  intros L Hp.
  destruct (free_keeps s bs fl p psz L Hp)
    as (s' & bs' & fl' & b' & sz' & E & _ & _ & _ & _ & _ & _ & _ & K).
  exists s'. split; [exact E|].
  intros c csz Hc Hne x Hx. apply word_byte.
  destruct (K c csz Hc Hne) as [_ Kc]. apply Kc; lia.
Qed.

(** Two allocated blocks and a free remainder. *)
Lemma ex_b_layout :
  layout (state_of ex_b) [(112, true); (3808, true); (112, false)] [8056].
Proof.
  constructor.
  - constructor; [ev|ev|ev|ev|ev|ev|ev|ev_sizes|vm_compute; repeat split].
  - constructor; [vm_compute; repeat split|ev|].
    repeat constructor. intros [].
  - intros c. vm_compute. tauto.
  - vm_compute. repeat split.
  - discriminate.
Qed.

Lemma ex_b_block :
  In (4112 - 8, 112)
     (alloc_blocks (heap_lo (state_of ex_b) + 8)
        [(112, true); (3808, true); (112, false)]).
Proof. vm_compute. left. reflexivity. Qed.

Lemma free_keeps_payloads_witness :
  exists s', free (state_of ex_b) 4112 = Some s' /\
    forall c csz,
      In (c, csz) (alloc_blocks (heap_lo (state_of ex_b) + 8)
                     [(112, true); (3808, true); (112, false)]) ->
      c <> 4112 - 8 -> payload_kept (state_of ex_b) s' c csz.
Proof.
  exact (free_keeps_payloads (state_of ex_b) [(112, true); (3808, true); (112, false)]
           [8056] 4112 112 ex_b_layout ex_b_block).
Defined.

(** X13.  Releasing the same pointer twice in a row: the first [free]
    returns, and the second one returns without changing anything, also when
    the block was merged into its predecessor. *)
Theorem free_twice (s : state) (bs : blocks) (fl : list Z) (p psz : Z) :
  layout s bs fl -> In (p - 8, psz) (alloc_blocks (heap_lo s + 8) bs) ->
  exists s', free s p = Some s' /\ free s' p = Some s'.
Proof.
  intros L Hp.
  pose proof (tiled_geo _ _ (L_tiled _ _ _ L)) as (G1 & _ & G3 & G4 & G5 & G6).
  destruct (alloc_blocks_range _ _ _ _ G5 Hp) as (R1 & R2 & [R3 _]).
  destruct (free_keeps s bs fl p psz L Hp)
    as (s' & bs' & fl' & b' & sz' & E & (E1 & E2 & E3) & _ & _ & _ & _ & _ & Hbit & _).
  exists s'. split; [exact E|].
  unfold free, get_allocated, NULL, BLK. cbn [Z.opp].
  replace (p =? 0) with false by (symmetry; apply Z.eqb_neq; lia).
  rewrite padd_small by lia. replace (p + -8) with (p - 8) by lia.
  replace (p - 8 =? 0) with false by (symmetry; apply Z.eqb_neq; lia).
  rewrite load_ok by (rewrite ?E1, ?E2; lia). cbn [bind].
  rewrite Hbit. reflexivity.
Qed.

Lemma free_twice_witness :
  exists s', free (state_of ex_b) 4112 = Some s' /\ free s' 4112 = Some s'.
Proof.
  exact (free_twice (state_of ex_b) [(112, true); (3808, true); (112, false)]
           [8056] 4112 112 ex_b_layout ex_b_block).
Defined.

(** X14.  [realloc] of an allocated block to [0 < n <= 2^64 - 32] bytes: when
    the call returns [q], the bytes of the whole old payload are the first
    bytes at [q], whether the block stayed or was moved, and no other
    allocated block has a byte of its payload changed. *)
Theorem realloc_keeps_contents (s : state) (bs : blocks) (fl : list Z)
        (p psz n q : Z) (s' : state) :
  layout s bs fl -> In (p - 8, psz) (alloc_blocks (heap_lo s + 8) bs) ->
  0 < n <= MAX_REQUEST -> realloc s p n = Some (q, s') ->
  (forall i, 0 <= i < psz -> byte_at s' (q + i) = byte_at s (p + i)) /\
  (forall c csz, In (c, csz) (alloc_blocks (heap_lo s + 8) bs) -> c <> p - 8 ->
     payload_kept s s' c csz).
Proof.
  intros L Hp Hn E. exact (realloc_keeps s bs fl p psz n q s' L Hp Hn E).
Qed.

(** Two allocated blocks of 112 bytes holding bytes of the client: two in
    the first block, one in the second. *)
Definition ex_w : state :=
  poke (poke (poke (state_of ex_d) (4112 + 3) 77) (4112 + 111) 99) (4240 + 5) 55.

(** The first of them resized to 200 bytes: it has to move. *)
Definition ex_r : option (Z * state) := realloc ex_w 4112 200.

Lemma ex_d_layout :
  layout (state_of ex_d) [(112, true); (112, true); (3808, false)] [4360].
Proof.
  constructor.
  - constructor; [ev|ev|ev|ev|ev|ev|ev|ev_sizes|vm_compute; repeat split].
  - constructor; [vm_compute; repeat split|ev|].
    repeat constructor. intros [].
  - intros c. vm_compute. tauto.
  - vm_compute. repeat split.
  - discriminate.
Qed.

Lemma ex_w_layout :
  layout ex_w [(112, true); (112, true); (3808, false)] [4360].
Proof.
  apply (layout_payload_write
           (poke (poke (state_of ex_d) (4112 + 3) 77) (4112 + 111) 99) _ _ 4232 112).
  - apply (layout_payload_write (poke (state_of ex_d) (4112 + 3) 77) _ _ 4104 112).
    + apply (layout_payload_write (state_of ex_d) _ _ 4104 112).
      * exact ex_d_layout.
      * vm_compute. left. reflexivity.
      * intros x Hx. apply upd_other. lia.
    + vm_compute. left. reflexivity.
    + intros x Hx. apply upd_other. lia.
  - vm_compute. right. left. reflexivity.
  - intros x Hx. apply upd_other. lia.
Qed.

Lemma realloc_keeps_contents_witness :
  value_of ex_r = 4368 /\
  byte_at ex_w (4112 + 3) = 77 /\ byte_at ex_w (4112 + 111) = 99 /\
  byte_at ex_w (4240 + 5) = 55 /\
  (forall i, 0 <= i < 112 ->
     byte_at (state_of ex_r) (value_of ex_r + i) = byte_at ex_w (4112 + i)) /\
  (forall c csz,
     In (c, csz) (alloc_blocks (heap_lo ex_w + 8)
                    [(112, true); (112, true); (3808, false)]) ->
     c <> 4112 - 8 -> payload_kept ex_w (state_of ex_r) c csz).
Proof.
  split; [vm_compute; reflexivity|].
  split; [vm_compute; reflexivity|]. split; [vm_compute; reflexivity|].
  split; [vm_compute; reflexivity|].
  apply (realloc_keeps_contents ex_w [(112, true); (112, true); (3808, false)] [4360]
           4112 112 200 (value_of ex_r) (state_of ex_r) ex_w_layout).
  - vm_compute. left. reflexivity.
  - split; [reflexivity|vm_compute; discriminate].
  - apply (returns_eq ex_r). vm_compute. reflexivity.
Defined.

(** X15.  [realloc] of an allocated block to size 0 releases it: it returns
    [NULL] and the state that [free] of the pointer gives. *)
Theorem realloc_zero_frees (s : state) (bs : blocks) (fl : list Z) (p psz : Z) :
  layout s bs fl -> In (p - 8, psz) (alloc_blocks (heap_lo s + 8) bs) ->
  exists s', free s p = Some s' /\ realloc s p 0 = Some (NULL, s').
Proof.
  intros L Hp.
  pose proof (L_tiled _ _ _ L) as T.
  pose proof (tiled_geo _ _ T) as (G1 & _ & G3 & G4 & G5 & G6).
  pose proof Hp as Hp'. apply in_alloc_blocks in Hp'.
  destruct (tiled_block _ _ _ _ _ T Hp') as (B1 & B2 & [B3 B4] & B5 & B6).
  destruct (free_step s bs fl p psz L Hp) as (s' & _ & _ & _ & _ & E & _).
  exists s'. split; [exact E|].
  unfold realloc, BLK, NULL. cbn [Z.opp].
  rewrite padd_small by lia. replace (p + -8) with (p - 8) by lia.
  rewrite (get_size_ok _ _ psz true) by (try assumption; lia).
  cbn [bind].
  replace (p =? 0) with false by (symmetry; apply Z.eqb_neq; lia).
  cbn [Z.eqb]. rewrite E. reflexivity.
Qed.

Lemma realloc_zero_frees_witness :
  exists s', free (state_of ex_b) 4112 = Some s' /\
    realloc (state_of ex_b) 4112 0 = Some (NULL, s').
Proof.
  exact (realloc_zero_frees (state_of ex_b) [(112, true); (3808, true); (112, false)]
           [8056] 4112 112 ex_b_layout ex_b_block).
Defined.

(** ** X16: [expand_heap] *)

(** X16.  [expand_heap] for a multiple of 16 between 32 and [2^64 - 16], on
    a well-formed heap.  When the break can move by that many bytes, the heap
    grows by exactly that many, the result is a free block that ends the heap
    and holds at least [bytes - 16] bytes (more when the last old block was
    free and has been merged in), and the allocated blocks are as before.
    Otherwise the call returns [NULL] and the state is unchanged. *)
Theorem expand_heap_grows (s : state) (bs : blocks) (fl : list Z) (bytes : Z) :
  layout s bs fl -> 32 <= bytes <= W - 16 -> bytes mod 16 = 0 ->
  (heap_brk s + bytes <= heap_max s ->
   exists b s' bs' fl' bsz,
     expand_heap s bytes = Some (b, s') /\
     heap_lo s' = heap_lo s /\ heap_brk s' = heap_brk s + bytes /\
     layout s' bs' fl' /\
     In (b, bsz, false) (blocks_from (heap_lo s + 8) bs') /\
     bytes - 16 <= bsz /\ b + bsz + 16 = heap_brk s' - 8 /\
     alloc_blocks (heap_lo s + 8) bs' = alloc_blocks (heap_lo s + 8) bs) /\
  (heap_max s < heap_brk s + bytes -> expand_heap s bytes = Some (NULL, s)).
Proof.
  intros L Hb Hm. split.
  - intros Hroom.
    destruct (expand_heap_frame s bs fl bytes L ltac:(lia) Hm Hroom)
      as (b & s' & l1 & l2 & bsz & fl' & E & H1 & H2 & H3 & L' & Eb & Hsz & Ea & Hend & _).
    exists b, s', (l1 ++ (bsz, false) :: l2), fl', bsz.
    split; [exact E|]. split; [exact H1|]. split; [exact H3|]. split; [exact L'|].
    split; [rewrite Eb; apply in_blocks_mid|]. split; [exact Hsz|].
    split; [lia|exact Ea].
  - intros Hno. apply expand_heap_fail.
    rewrite align_mult by (try assumption; lia). exact Hno.
Qed.

Lemma expand_heap_grows_witness :
  (heap_brk init_state + 4096 <= heap_max init_state ->
   exists b s' bs' fl' bsz,
     expand_heap init_state 4096 = Some (b, s') /\
     heap_lo s' = heap_lo init_state /\ heap_brk s' = heap_brk init_state + 4096 /\
     layout s' bs' fl' /\
     In (b, bsz, false) (blocks_from (heap_lo init_state + 8) bs') /\
     4096 - 16 <= bsz /\ b + bsz + 16 = heap_brk s' - 8 /\
     alloc_blocks (heap_lo init_state + 8) bs' =
       alloc_blocks (heap_lo init_state + 8) [(4064, false)]) /\
  (heap_max init_state < heap_brk init_state + 4096 ->
   expand_heap init_state 4096 = Some (NULL, init_state)).
Proof.
  apply (expand_heap_grows init_state [(4064, false)] [4104] 4096 init_layout).
  - vm_compute. split; discriminate.
  - reflexivity.
Defined.

(** ** X17, X18: what [free] makes of the block *)

(** X17.  After [free] of an allocated block with a payload of [psz] bytes,
    a request for [0 < n <= psz] bytes is served from that block: [malloc]
    returns the head of the free list, which is the released block merged
    with its free neighbours and starts at or before the old pointer, and the
    heap does not grow. *)
Theorem free_then_malloc_reuses (s : state) (bs : blocks) (fl : list Z)
        (p psz n : Z) :
  layout s bs fl -> In (p - 8, psz) (alloc_blocks (heap_lo s + 8) bs) ->
  0 < n <= psz ->
  exists s1 q s2, free s p = Some s1 /\ malloc s1 n = Some (q, s2) /\
    q = first s1 /\ q <= p /\ heap_brk s2 = heap_brk s.
Proof.
  intros L Hp Hn.
  pose proof (tiled_geo _ _ (L_tiled _ _ _ L)) as (G1 & _ & G3 & G4 & G5 & G6).
  destruct (alloc_blocks_range _ _ _ _ G5 Hp) as (R1 & R2 & [R3 R4]).
  destruct (free_keeps s bs fl p psz L Hp)
    as (s1 & bs1 & fl1 & b' & sz' & E & (E1 & E2 & E3) & L1 & Hf & Hin & Hle & Hend & _).
  rewrite <- E1 in Hin.
  assert (Hn' : 0 < n <= W - 32) by lia.
  destruct (align_props n Hn') as (A1 & A2 & [A3 A4] & A5).
  assert (Hfit : align n <= sz').
  { pose proof (Z.div_mod psz 16 ltac:(lia)) as D1.
    pose proof (Z.div_mod (align n) 16 ltac:(lia)) as D2.
    rewrite R4 in D1. rewrite A4 in D2. lia. }
  pose proof (tiled_geo _ _ (L_tiled _ _ _ L1)) as (_ & _ & _ & _ & G5' & _).
  destruct (blocks_range _ _ _ _ _ G5' Hin) as (Hb0 & _).
  destruct (malloc_frame s1 bs1 fl1 n L1 Hn') as (q & s2 & Em & _ & _ & _ & Hc & _).
  destruct (first_fit_first s1 bs1 fl1 (align n) L1) as (r & Eff & Hr).
  assert (Er : r = b').
  { destruct Hr as [(_ & Hall)|(f1 & f2 & rsz & Efl & _ & _ & Hsmall)].
    - specialize (Hall b' sz' Hin). lia.
    - pose proof (K_first _ _ (L_linked _ _ _ L1)) as Hk. rewrite Hf, Efl in Hk.
      destruct f1 as [|c f1]; cbn [app hd_node] in Hk; [lia|].
      assert (c = b') by lia. subst c.
      specialize (Hsmall b' sz' (or_introl eq_refl) Hin). lia. }
  subst r.
  exists s1, q, s2. split; [exact E|]. split; [exact Em|].
  destruct Hc as [(_ & _ & Hnull & _)|(_ & _ & bs2 & fl2 & X1 & X2 & asz & _ & _ & _ & _ & _ & Hd)].
  - rewrite Eff in Hnull. inversion Hnull. unfold NULL in *. lia.
  - destruct Hd as [[Hd Hbrk]|[Hnull _]].
    + rewrite Eff in Hd. inversion Hd. split; [lia|]. split; [lia|congruence].
    + rewrite Eff in Hnull. inversion Hnull. unfold NULL in *. lia.
Qed.

Lemma free_then_malloc_reuses_witness :
  exists s1 q s2, free (state_of ex_b) 4112 = Some s1 /\
    malloc s1 90 = Some (q, s2) /\
    q = first s1 /\ q <= 4112 /\ heap_brk s2 = heap_brk (state_of ex_b).
Proof.
  apply (free_then_malloc_reuses (state_of ex_b)
           [(112, true); (3808, true); (112, false)] [8056] 4112 112 90
           ex_b_layout ex_b_block).
  split; [reflexivity|discriminate].
Defined.

(** X18.  [free] of the allocated block [(b, sz)] that lies between the
    blocks [l1] and the blocks [l2] leaves a well-formed heap whose blocks are
    [m1], one free block [(b', sz')] at the head of the list, and [m2].  The
    free block starts at [b] and [m1] is [l1], or, when the last block of
    [l1] is free, it starts where that one started and [m1] is [l1] without
    it.  It ends where the block ended and [m2] is [l2], or, when the first
    block of [l2] is free, it ends where that one ended and [m2] is [l2]
    without it. *)
Theorem free_merges_neighbours (s : state) (l1 l2 : blocks) (sz : Z) (fl : list Z) :
  layout s (l1 ++ (sz, true) :: l2) fl ->
  let b := heap_lo s + 8 + span l1 in
  exists s' fl' m1 m2 b' sz',
    free s (b + 8) = Some s' /\ layout s' (m1 ++ (sz', false) :: m2) fl' /\
    first s' = b' + 8 /\ b' = heap_lo s + 8 + span m1 /\
    (last_alloc l1 = true -> m1 = l1 /\ b' = b) /\
    (forall l1' psz, l1 = l1' ++ [(psz, false)] -> m1 = l1' /\ b' = b - psz - 16) /\
    (hd_alloc l2 = true -> m2 = l2 /\ b' + sz' = b + sz) /\
    (forall nsz l2', l2 = (nsz, false) :: l2' ->
       m2 = l2' /\ b' + sz' = b + sz + nsz + 16).
Proof.
  intros L b.
  destruct (free_frame s l1 l2 sz fl L)
    as (s' & bs' & fl' & b' & sz' & E & _ & L' & Hf & Hin & _ & _ & _ & H1 & H2 & H3 & H4
        & (m1 & m2 & -> & Hs & S1 & S2 & S3 & S4) & _).
  exists s', fl', m1, m2, b', sz'. fold b in E, H1, H2, H3, H4.
  split; [exact E|]. split; [exact L'|]. split; [exact Hf|]. split; [lia|].
  split; [intros Hx; split; [apply S1|apply H1]; exact Hx|].
  split; [intros l1' psz Hx; split; [apply (S3 l1' psz)|apply (H2 l1' psz)]; exact Hx|].
  split; [intros Hx; split; [apply S2|apply H3]; exact Hx|].
  intros nsz l2' Hx. split; [apply (S4 nsz l2')|apply (H4 nsz l2')]; exact Hx.
Qed.

Lemma free_merges_neighbours_witness :
  let b := heap_lo (state_of ex_a) + 8 + span [] in
  exists s' fl' m1 m2 b' sz',
    free (state_of ex_a) (b + 8) = Some s' /\
    layout s' (m1 ++ (sz', false) :: m2) fl' /\
    first s' = b' + 8 /\ b' = heap_lo (state_of ex_a) + 8 + span m1 /\
    (last_alloc [] = true -> m1 = [] /\ b' = b) /\
    (forall l1' psz, [] = l1' ++ [(psz, false)] -> m1 = l1' /\ b' = b - psz - 16) /\
    (hd_alloc [(3936, false)] = true -> m2 = [(3936, false)] /\ b' + sz' = b + 112) /\
    (forall nsz l2', [(3936, false)] = (nsz, false) :: l2' ->
       m2 = l2' /\ b' + sz' = b + 112 + nsz + 16).
Proof.
  exact (free_merges_neighbours (state_of ex_a) [] [(3936, false)] 112 [4232]
           ex_a_layout).
Defined.

(** ** X19: [calloc] and the other blocks *)

(** X19.  [calloc] with a product of at most [2^64 - 32] (taken modulo
    [2^64]) changes no byte of the payload of any block that was allocated
    before the call. *)
Theorem calloc_keeps_payloads (s : state) (bs : blocks) (fl : list Z)
        (nmemb size p : Z) (s' : state) :
  layout s bs fl -> wrap (size * nmemb) <= MAX_REQUEST ->
  calloc s nmemb size = Some (p, s') ->
  forall c csz, In (c, csz) (alloc_blocks (heap_lo s + 8) bs) ->
    payload_kept s s' c csz.
Proof.
  intros L Hn E c csz Hc x Hx. unfold MAX_REQUEST in Hn. unfold calloc in E.
  pose proof (wrap_range (size * nmemb)) as Hr.
  set (n := wrap (size * nmemb)) in *.
  destruct (malloc s n) as [[q s1]|] eqn:Em; [|discriminate].
  cbn [bind] in E.
  pose proof (malloc_keeps s bs fl n q s1 L ltac:(lia) Em c csz x Hc
                ltac:(lia) ltac:(lia)) as Km.
  destruct (malloc_step s bs fl n q s1 L ltac:(lia) Em) as (H1 & _ & bs1 & fl1 & L1 & St).
  unfold NULL in E. destruct (q =? 0) eqn:Hq; cbn [negb] in E.
  - inversion E; subst p s'. apply word_byte. exact Km.
  - apply Z.eqb_neq in Hq.
    destruct (mem_memset s1 q 0 n) as [s2|] eqn:Es; [|discriminate].
    cbn [bind] in E. inversion E; subst p s'.
    destruct (mem_memset_frame _ _ _ _ _ Es) as (_ & Fr & _).
    destruct St as [St1 St2].
    destruct (St2 Hq) as (asz & Hq1 & Hle).
    destruct (St1 c csz Hc (layout_alloc_positive _ _ _ _ _ L Hc)) as [Hc1 Hne].
    specialize (Hne Hq).
    pose proof (tiled_geo _ _ (L_tiled _ _ _ L1)) as (_ & _ & _ & _ & G5' & _).
    rewrite <- H1 in Hc1, Hq1.
    apply in_alloc_blocks in Hc1, Hq1.
    assert (Hsep : c + csz + 16 <= q - 8 \/ q - 8 + asz + 16 <= c).
    { destruct (blocks_sep _ _ _ _ _ _ _ _ G5' Hc1 Hq1) as [(Ex & _)|Hs]; [|exact Hs].
      contradiction. }
    unfold byte_at at 1. rewrite Fr by lia.
    change (mem s1 x mod 256) with (byte_at s1 x).
    apply word_byte. exact Km.
Qed.

Definition ex_z : option (Z * state) := calloc (state_of ex_a) 3 5.

Lemma calloc_keeps_payloads_witness :
  payload_kept (state_of ex_a) (state_of ex_z) (4112 - 8) 112.
Proof.
  apply (calloc_keeps_payloads (state_of ex_a) [(112, true); (3936, false)] [4232]
           3 5 (value_of ex_z) (state_of ex_z) ex_a_layout).
  - vm_compute. discriminate.
  - apply (returns_eq ex_z). vm_compute. reflexivity.
  - exact ex_a_block.
Defined.

(** ** X20, X21: [place], and [malloc] followed by [free] *)

(** [place] on a free block of a well-formed heap: a remainder of at least 32
    bytes is split off as a free block, a smaller one stays in the block. *)
Lemma place_exact (s : state) (l1 l2 : blocks) (bsz size : Z) (fl : list Z) :
  layout s (l1 ++ (bsz, false) :: l2) fl ->
  size_ok size -> size <= bsz ->
  let b := heap_lo s + 8 + span l1 in
  exists s' fl',
    place s b size = Some s' /\ same_heap s s' /\
    layout s'
      (if 32 <=? bsz - size
       then l1 ++ (size, true) :: (bsz - size - 16, false) :: l2
       else l1 ++ (bsz, true) :: l2) fl'.
Proof.
  intros L Hsz Hfit b. pose proof Hsz as [Hz1 Hz2].
  destruct (tiled_mid _ _ _ _ _ (L_tiled _ _ _ L)) as
    (S1 & [Sz1 Sz2] & S2 & P1 & P2 & P3 & C1 & C2 & C3 & C4).
  pose proof (tiled_geo _ _ (L_tiled _ _ _ L)) as (G1 & G2 & G3 & G4 & G5 & G6).
  fold b in P3, C2, C3, C4.
  assert (Eg : get_size s b = Some bsz).
  { apply (get_size_ok _ _ bsz false); try assumption; subst b; lia. }
  unfold place, BLK. rewrite Eg. cbn [bind].
  rewrite (wrap_small (bsz - size)) by (subst b; lia).
  change (4 * 8) with 32.
  destruct (32 <=? bsz - size) eqn:Hbig.
  - apply Z.leb_le in Hbig.
    destruct (split_spec s l1 l2 bsz size fl L Hsz ltac:(lia)) as (s' & fl' & E & SH & L').
    exists s', fl'. auto.
  - destruct (place_whole_spec s l1 l2 bsz fl L) as (s' & fl' & E & SH & L').
    exists s', fl'. auto.
Qed.

(** X20.  [place] of an aligned size into a free block of a well-formed heap
    returns.  If the block has at least 32 bytes more than the size, it is
    replaced by an allocated block of exactly that size and a free block of
    the rest less the 16 bytes of its tags; otherwise the whole block becomes
    allocated.  The blocks on both sides stay as they are. *)
Theorem place_cases (s : state) (l1 l2 : blocks) (bsz size : Z) (fl : list Z) :
  layout s (l1 ++ (bsz, false) :: l2) fl ->
  size_ok size -> size <= bsz ->
  exists s' fl',
    place s (heap_lo s + 8 + span l1) size = Some s' /\ same_heap s s' /\
    layout s'
      (if 32 <=? bsz - size
       then l1 ++ (size, true) :: (bsz - size - 16, false) :: l2
       else l1 ++ (bsz, true) :: l2) fl'.
Proof.
  intros L Hsz Hfit.
  destruct (place_exact s l1 l2 bsz size fl L Hsz Hfit) as (s' & fl' & E & SH & L').
  exists s', fl'. split; [exact E|]. split; [exact SH|exact L'].
Qed.

Lemma place_cases_witness :
  exists s' fl',
    place init_state (heap_lo init_state + 8 + span []) 112 = Some s' /\
    same_heap init_state s' /\
    layout s'
      (if 32 <=? 4064 - 112
       then [] ++ (112, true) :: (4064 - 112 - 16, false) :: []
       else [] ++ (4064, true) :: []) fl'.
Proof.
  apply (place_cases init_state [] [] 4064 112 [4104] init_layout).
  - split; [discriminate|reflexivity].
  - discriminate.
Defined.

(** X21.  When some free block of a well-formed heap fits the request,
    [malloc] followed by [free] of the pointer it returned gives back the
    same sequence of blocks: the block is split or taken whole, then merged
    again, the heap bounds do not move, and the block heads the free list. *)
Theorem malloc_free_roundtrip (s : state) (bs : blocks) (fl : list Z) (n : Z) :
  layout s bs fl -> 0 < n <= MAX_REQUEST ->
  (exists c csz, In (c, csz, false) (blocks_from (heap_lo s + 8) bs) /\
                 align n <= csz) ->
  exists p s1 s2 fl2, malloc s n = Some (p, s1) /\ free s1 p = Some s2 /\
    same_heap s s2 /\ layout s2 bs fl2 /\ first s2 = p.
Proof.
  intros L Hn (c & csz & Hin & Hfit). unfold MAX_REQUEST in Hn.
  destruct (align_props n Hn) as (Ha1 & Ha2 & Hso & Ha3).
  pose proof (tiled_geo _ _ (L_tiled _ _ _ L)) as (G1 & G2 & G3 & G4 & G5 & G6).
  destruct (first_fit_spec s bs fl (align n) L) as (r & Eff & Hr).
  destruct (first_fit_first s bs fl (align n) L) as (r' & Eff' & Hr').
  rewrite Eff in Eff'. inversion Eff'; subst r'.
  destruct Hr as [->|(l1 & l2 & bsz & -> & -> & Hle)].
  { exfalso. destruct Hr' as [(_ & Hall)|(f1 & f2 & rsz & _ & Hr1 & _ & _)].
    - specialize (Hall c csz Hin). lia.
    - apply (blocks_range _ _ _ _ _ G5) in Hr1. lia. }
  destruct (layout_free_mid _ _ _ _ _ L) as (_ & _ & _ & La & Ha).
  destruct (tiled_mid _ _ _ _ _ (L_tiled _ _ _ L)) as
    (S1 & [Sz1 Sz2] & S2 & P1 & P2 & P3 & _).
  set (b := heap_lo s + 8 + span l1) in *.
  destruct (place_exact s l1 l2 bsz (align n) fl L Hso Hle)
    as (s1 & fl1 & Ep & (E1 & E2 & E3) & L1).
  fold b in Ep.
  assert (Em : malloc s n = Some (b + 8, s1)).
  { unfold malloc.
    replace (n =? 0) with false by (symmetry; apply Z.eqb_neq; lia).
    cbv zeta. rewrite Eff. cbn [bind].
    replace (b =? NULL) with false
      by (symmetry; apply Z.eqb_neq; unfold NULL; subst b; lia).
    cbn [negb]. rewrite Ep. cbn [bind]. unfold BLK.
    rewrite padd_small by (subst b; lia). reflexivity. }
  assert (Eb1 : heap_lo s1 + 8 + span l1 = b) by (subst b; rewrite E1; reflexivity).
  destruct (32 <=? bsz - align n) eqn:Hbig.
  - apply Z.leb_le in Hbig.
    destruct (free_frame s1 l1 ((bsz - align n - 16, false) :: l2) (align n) fl1 L1)
      as (s2 & bs2 & fl2 & b' & sz' & Ef & (F1 & F2 & F3) & L2 & Hf & _ & _ & _ & _
          & Hb1 & _ & _ & He2 & (m1 & m2 & -> & _ & M1 & _ & _ & M4) & _).
    rewrite Eb1 in Ef, Hb1, He2.
    specialize (Hb1 La). specialize (M1 La).
    specialize (He2 _ _ eq_refl). specialize (M4 _ _ eq_refl). subst m1 m2 b'.
    exists (b + 8), s1, s2, fl2. split; [exact Em|]. split; [exact Ef|].
    split; [repeat split; congruence|]. split; [|exact Hf].
    replace sz' with bsz in L2 by lia. exact L2.
  - destruct (free_frame s1 l1 l2 bsz fl1 L1)
      as (s2 & bs2 & fl2 & b' & sz' & Ef & (F1 & F2 & F3) & L2 & Hf & _ & _ & _ & _
          & Hb1 & _ & He1 & _ & (m1 & m2 & -> & _ & M1 & M2 & _ & _) & _).
    rewrite Eb1 in Ef, Hb1, He1.
    specialize (Hb1 La). specialize (M1 La).
    specialize (He1 Ha). specialize (M2 Ha). subst m1 m2 b'.
    exists (b + 8), s1, s2, fl2. split; [exact Em|]. split; [exact Ef|].
    split; [repeat split; congruence|]. split; [|exact Hf].
    replace sz' with bsz in L2 by lia. exact L2.
Qed.

Lemma malloc_free_roundtrip_witness :
  exists p s1 s2 fl2, malloc init_state 100 = Some (p, s1) /\
    free s1 p = Some s2 /\ same_heap init_state s2 /\
    layout s2 [(4064, false)] fl2 /\ first s2 = p.
Proof.
  apply (malloc_free_roundtrip init_state [(4064, false)] [4104] 100 init_layout).
  - split; [reflexivity|vm_compute; discriminate].
  - exists 4104, 4064. split; [left; vm_compute; reflexivity|vm_compute; discriminate].
Defined.

(** ** X22, X23: [realloc] when the block has to move *)

(** An allocated block that is too small for [n] is not larger than the
    aligned request. *)
Lemma small_block_le (psz n : Z) :
  0 < n <= W - 32 -> psz mod 16 = 0 -> psz < needed_size n -> psz <= align n.
Proof.
  intros Hn Hm Hlt. rewrite needed_size_val in Hlt by exact Hn.
  destruct (align_props n Hn) as (_ & _ & [_ A4] & _).
  pose proof (Z.div_mod psz 16 ltac:(lia)) as D1.
  pose proof (Z.div_mod (align n) 16 ltac:(lia)) as D2.
  rewrite Hm in D1. rewrite A4 in D2. lia.
Qed.

(** X22.  [realloc] of an allocated block that is too small for
    [0 < n <= 2^64 - 32] bytes, on a well-formed heap where a free block fits
    or the heap can grow: the call returns a pointer that is neither [NULL]
    nor the old one, the heap is well formed again, and the new block has
    room for [n] bytes. *)
Theorem realloc_moves_block (s : state) (bs : blocks) (fl : list Z) (p psz n : Z) :
  layout s bs fl -> In (p - 8, psz) (alloc_blocks (heap_lo s + 8) bs) ->
  0 < n <= MAX_REQUEST -> psz < needed_size n ->
  (exists c csz, In (c, csz, false) (blocks_from (heap_lo s + 8) bs) /\
                 align n <= csz) \/
  heap_brk s + extendsize (align n) <= heap_max s ->
  exists q s' bs' fl' asz, realloc s p n = Some (q, s') /\
    q <> NULL /\ q <> p /\ layout s' bs' fl' /\
    In (q - 8, asz) (alloc_blocks (heap_lo s' + 8) bs') /\ n <= asz.
Proof.
  intros L Hp Hn Hsmall Hroom. unfold MAX_REQUEST in Hn.
  pose proof (L_tiled _ _ _ L) as T.
  pose proof (tiled_geo _ _ T) as (G1 & G2 & G3 & G4 & G5 & G6).
  pose proof Hp as Hp'. apply in_alloc_blocks in Hp'.
  destruct (tiled_block _ _ _ _ _ T Hp') as (B1 & B2 & [B3 B4] & B5 & B6).
  pose proof (small_block_le psz n Hn B4 Hsmall) as Hpa.
  destruct (align_props n Hn) as (A1 & A2 & Hso & A5).
  destruct (extendsize_props (align n) Hso A5) as (X1 & _ & X3 & X4).
  assert (Eal : align (extendsize (align n)) = extendsize (align n)).
  { apply align_mult; [exact X3|lia]. }
  destruct (malloc_frame s bs fl n L Hn) as (q & s1 & Em & H1 & H2 & H3 & Hc & _).
  destruct Hc as [(_ & _ & Hnull & Hmax)|(Hq & _ & bs1 & fl1 & Y1 & Y2 & asz & L1 & Ha & Ea1 & Ea & _)].
  { exfalso. destruct Hroom as [(c & csz & Hin & Hfit)|Hgrow]; [|lia].
    destruct (first_fit_first s bs fl (align n) L) as (r & Eff & Hr).
    rewrite Eff in Hnull. inversion Hnull; subst r.
    destruct Hr as [(_ & Hall)|(f1 & f2 & rsz & _ & Hr1 & _ & _)].
    - specialize (Hall c csz Hin). lia.
    - apply (blocks_range _ _ _ _ _ G5) in Hr1. unfold NULL in Hr1. lia. }
  rewrite <- H1 in Ea1.
  assert (Hq1 : In (q - 8, asz) (alloc_blocks (heap_lo s1 + 8) bs1)).
  { rewrite Ea1. apply in_or_app. right. left. reflexivity. }
  pose proof (tiled_geo _ _ (L_tiled _ _ _ L1)) as (_ & _ & _ & _ & G5' & G6').
  destruct (alloc_blocks_range _ _ _ _ G5' Hq1) as (Q1 & Q2 & _).
  pose proof (alloc_blocks_NoDup bs1 (heap_lo s1 + 8) G5') as Nd. rewrite Ea1 in Nd.
  assert (Hne : q <> p).
  { rewrite Ea in Hp. pose proof (NoDup_fst_mid _ _ _ _ _ Nd Hp) as Hx.
    cbn [fst] in Hx. lia. }
  assert (Ec : exists s2, mem_memcpy s1 q p psz = Some s2).
  { unfold mem_memcpy. rewrite !in_heap_true by lia. eexists. reflexivity. }
  destruct Ec as [s2 Ec].
  destruct (mem_memcpy_frame _ _ _ _ _ Ec) as (Es2 & Fr & _).
  assert (L2 : layout s2 bs1 fl1).
  { rewrite Es2. apply (layout_payload_write _ _ _ (q - 8) asz); [exact L1|exact Hq1|].
    replace (q - 8 + 8) with q by lia.
    apply (bytes_frame_wider _ _ _ _ _ Fr). lia. }
  assert (Hlo2 : heap_lo s2 = heap_lo s1) by (rewrite Es2; reflexivity).
  assert (Hp2 : In (p - 8, psz) (alloc_blocks (heap_lo s2 + 8) bs1)).
  { rewrite Hlo2, Ea1. rewrite Ea in Hp.
    apply in_app_or in Hp. apply in_or_app.
    destruct Hp; [left|right; right]; assumption. }
  destruct (free_keeps s2 bs1 fl1 p psz L2 Hp2)
    as (s3 & bs3 & fl3 & b' & sz' & Ef & (F1 & _) & L3 & _ & _ & _ & _ & _ & Kf).
  exists q, s3, bs3, fl3, asz.
  split.
  { unfold realloc, BLK, NULL. cbn [Z.opp].
    rewrite padd_small by lia. replace (p + -8) with (p - 8) by lia.
    rewrite (get_size_ok _ _ psz true) by (try assumption; lia).
    cbn [bind].
    replace (p =? 0) with false by (symmetry; apply Z.eqb_neq; lia).
    replace (n =? 0) with false by (symmetry; apply Z.eqb_neq; lia).
    replace (needed_size n <=? psz) with false by (symmetry; apply Z.leb_gt; lia).
    rewrite Em. cbn [bind]. rewrite Ec. cbn [bind]. rewrite Ef. reflexivity. }
  split; [exact Hq|]. split; [exact Hne|]. split; [exact L3|].
  split; [|lia].
  rewrite F1. rewrite <- Hlo2 in Hq1.
  apply (Kf (q - 8) asz Hq1). lia.
Qed.

Lemma realloc_moves_block_witness :
  exists q s' bs' fl' asz, realloc (state_of ex_a) 4112 200 = Some (q, s') /\
    q <> NULL /\ q <> 4112 /\ layout s' bs' fl' /\
    In (q - 8, asz) (alloc_blocks (heap_lo s' + 8) bs') /\ 200 <= asz.
Proof.
  apply (realloc_moves_block (state_of ex_a) [(112, true); (3936, false)] [4232]
           4112 112 200 ex_a_layout ex_a_block).
  - split; [reflexivity|vm_compute; discriminate].
  - vm_compute. reflexivity.
  - left. exists 4232, 3936.
    split; [right; left; vm_compute; reflexivity|vm_compute; discriminate].
Defined.

(** X23.  [realloc] does not look at what [malloc] returned.  When the block
    is too small, no free block fits and the heap cannot grow, [malloc]
    returns [NULL] with the state unchanged, and [realloc] then copies to
    address 0, which is outside the heap: the call faults instead of
    returning [NULL]. *)
Theorem realloc_out_of_memory (s : state) (bs : blocks) (fl : list Z) (p psz n : Z) :
  layout s bs fl -> In (p - 8, psz) (alloc_blocks (heap_lo s + 8) bs) ->
  0 < n <= MAX_REQUEST -> psz < needed_size n ->
  (forall c csz, In (c, csz, false) (blocks_from (heap_lo s + 8) bs) ->
                 csz < align n) ->
  heap_max s < heap_brk s + extendsize (align n) ->
  malloc s n = Some (NULL, s) /\ realloc s p n = None.
Proof.
  intros L Hp Hn Hsmall Hall Hmax. unfold MAX_REQUEST in Hn.
  pose proof (L_tiled _ _ _ L) as T.
  pose proof (tiled_geo _ _ T) as (G1 & G2 & G3 & G4 & G5 & G6).
  pose proof Hp as Hp'. apply in_alloc_blocks in Hp'.
  destruct (tiled_block _ _ _ _ _ T Hp') as (B1 & B2 & [B3 B4] & B5 & B6).
  destruct (align_props n Hn) as (A1 & A2 & Hso & A5).
  destruct (extendsize_props (align n) Hso A5) as (X1 & _ & X3 & X4).
  assert (Eal : align (extendsize (align n)) = extendsize (align n)).
  { apply align_mult; [exact X3|lia]. }
  assert (Em : malloc s n = Some (NULL, s)).
  { destruct (malloc_frame s bs fl n L Hn) as (q & s1 & Em & _ & _ & _ & Hc & _).
    destruct Hc as [(-> & -> & _)|(_ & Hd & _)]; [exact Em|].
    exfalso. destruct Hd as [Hd|Hd]; [|lia].
    destruct (first_fit_first s bs fl (align n) L) as (r & Eff & Hr).
    destruct Hr as [(-> & _)|(f1 & f2 & rsz & _ & Hr1 & Hr2 & _)].
    - apply Hd. exact Eff.
    - specialize (Hall r rsz Hr1). lia. }
  split; [exact Em|].
  unfold realloc, BLK. cbn [Z.opp].
  rewrite padd_small by lia. replace (p + -8) with (p - 8) by lia.
  rewrite (get_size_ok _ _ psz true) by (try assumption; lia).
  cbn [bind]. unfold NULL in *.
  replace (p =? 0) with false by (symmetry; apply Z.eqb_neq; lia).
  replace (n =? 0) with false by (symmetry; apply Z.eqb_neq; lia).
  replace (needed_size n <=? psz) with false by (symmetry; apply Z.leb_gt; lia).
  rewrite Em. cbn [bind]. unfold mem_memcpy, in_heap.
  replace (heap_lo s <=? 0) with false by (symmetry; apply Z.leb_gt; lia).
  reflexivity.
Qed.

(** A heap that cannot grow beyond its first chunk. *)
Definition ex_tight : state :=
  state_of (malloc (state_of (mm_init (machine 4096 8192))) 100).

Lemma ex_tight_layout : layout ex_tight [(112, true); (3936, false)] [4232].
Proof.
  constructor.
  - constructor; [ev|ev|ev|ev|ev|ev|ev|ev_sizes|vm_compute; repeat split].
  - constructor; [vm_compute; repeat split|ev|].
    repeat constructor. intros [].
  - intros c. vm_compute. tauto.
  - vm_compute. repeat split.
  - discriminate.
Qed.

Lemma realloc_out_of_memory_witness :
  malloc ex_tight 5000 = Some (NULL, ex_tight) /\ realloc ex_tight 4112 5000 = None.
Proof.
  apply (realloc_out_of_memory ex_tight [(112, true); (3936, false)] [4232] 4112 112
           5000 ex_tight_layout).
  - vm_compute. left. reflexivity.
  - split; [reflexivity|vm_compute; discriminate].
  - vm_compute. reflexivity.
  - intros c csz H. vm_compute in H.
    destruct H as [H|[H|[]]]; inversion H. vm_compute. reflexivity.
  - vm_compute. reflexivity.
Defined.

(** ** X24: no fault on reachable states *)

Lemma calloc_returns (s : state) (bs : blocks) (fl : list Z) (nmemb size : Z) :
  layout s bs fl -> wrap (size * nmemb) <= W - 32 ->
  exists p s', calloc s nmemb size = Some (p, s').
Proof.
  intros L Hn. pose proof (wrap_range (size * nmemb)) as Hr.
  unfold calloc. set (n := wrap (size * nmemb)) in *.
  destruct (Z.eq_dec n 0) as [E0|E0].
  - rewrite E0. exists NULL, s. reflexivity.
  - destruct (malloc_spec s bs fl n L ltac:(lia))
      as (p & s1 & E & H1 & _ & _ & Hcase).
    rewrite E. cbn [bind].
    destruct Hcase as [(-> & _)|(Hp & _ & bs' & fl' & A1 & A2 & asz & L' & Ha & Ea & _)].
    + exists 0, s1. reflexivity.
    + apply Z.eqb_neq in Hp. unfold NULL. rewrite Hp. cbn [negb].
      pose proof (tiled_geo _ _ (L_tiled _ _ _ L')) as (G1 & _ & _ & _ & G5 & G6).
      assert (Hin : In (p - 8, asz) (alloc_blocks (heap_lo s1 + 8) bs')).
      { rewrite H1, Ea. apply in_or_app. right. left. reflexivity. }
      apply (alloc_blocks_range _ _ _ _ G5) in Hin.
      destruct (align_props n ltac:(lia)) as (Hal & _).
      unfold mem_memset. rewrite in_heap_true by lia.
      cbn [bind]. eexists _, _. reflexivity.
Qed.

(** X24.  In every state reached from a fresh heap by [mm_init] and calls
    with sizes of at most [2^64 - 32] on pointers the client holds, [malloc]
    of such a size, [calloc] of such a product, and [free] of [NULL] or of
    any pointer the client holds all return: none of them reads or writes
    outside the heap. *)
Theorem reachable_calls_return (s : state) (O : outs) :
  reach s O ->
  (forall n, 0 <= n <= MAX_REQUEST -> exists p s', malloc s n = Some (p, s')) /\
  (forall nmemb size, wrap (size * nmemb) <= MAX_REQUEST ->
     exists p s', calloc s nmemb size = Some (p, s')) /\
  (forall p, p = NULL \/ In p (map fst O) -> exists s', free s p = Some s').
Proof.
  intros R. destruct (reach_inv s O R) as (bs & fl & L & _ & Tr).
  unfold MAX_REQUEST. split; [|split].
  - intros n Hn. destruct (Z.eq_dec n 0) as [->|Hn0].
    + exists NULL, s. reflexivity.
    + destruct (malloc_spec s bs fl n L ltac:(lia)) as (p & s' & E & _).
      exists p, s'. exact E.
  - intros nmemb size Hn. exact (calloc_returns s bs fl nmemb size L Hn).
  - intros p [->|Hp].
    + exists s. reflexivity.
    + apply in_map_iff in Hp. destruct Hp as ([q n] & Eq & Hin).
      cbn [fst] in Eq. subst q.
      destruct (Tr p n Hin) as (asz & Ha & _).
      destruct (free_step s bs fl p asz L Ha) as (s' & _ & _ & _ & _ & E & _).
      exists s'. exact E.
Qed.

Lemma reachable_calls_return_witness :
  (forall n, 0 <= n <= MAX_REQUEST -> exists p s', malloc ex_state n = Some (p, s')) /\
  (forall nmemb size, wrap (size * nmemb) <= MAX_REQUEST ->
     exists p s', calloc ex_state nmemb size = Some (p, s')) /\
  (forall p, p = NULL \/ In p (map fst ex_outs) -> exists s', free ex_state p = Some s').
Proof. exact (reachable_calls_return ex_state ex_outs ex_reach). Defined.
